(** * Currency converter back end: exchange-rate cache and conversion

    A shallow embedding of [src/exchange-rates/exchange-rates.service.ts]
    (class [ExchangeRatesService]) together with the two Prisma tables it
    uses ([ExchangeRate] and [Transaction] of [prisma/schema.prisma]).

    Modelling conventions.
    - A JavaScript [number] is an IEEE-754 binary64 value ([float], the
      [spec_float] of the standard library at precision 53): division and
      multiplication round to nearest, ties to even; the zeros, the
      infinities and NaN are represented.  A [Date] is its instant in
      milliseconds since the epoch ([Z]) and is valid up to 8.64e15 ms on
      either side; [toISOString] throws on an invalid date, is injective on
      valid ones and is otherwise left implicit.
    - A JavaScript object used as a dictionary is a [gmap string float].
    - [async] methods run to completion one after the other: a method is a
      function from the state of the database to an outcome (a value or a
      thrown exception) and a new state.  What the outside world answers
      during one request (clock, database availability, HTTP response of the
      rate provider) is collected in a record [Env]. *)

From Stdlib Require Import ZArith QArith Qabs Qpower Lia Lqa Sorted.
From Stdlib Require Import Floats.SpecFloat.
From stdpp Require Import base numbers list strings gmap pretty.

Local Open Scope Z_scope.

(** ** JavaScript numbers *)

Definition prec : Z := 53.
Definition emax : Z := 1024.

Definition float : Type := spec_float.

(** [x * y] and [x / y] on numbers. *)
Definition fmul : float -> float -> float := SFmul prec emax.
Definition fdiv : float -> float -> float := SFdiv prec emax.

Declare Scope double_scope.
Delimit Scope double_scope with double.
Notation "x * y" := (fmul x y) : double_scope.
Notation "x / y" := (fdiv x y) : double_scope.

Definition zero : float := S754_zero false.
Definition one : float := S754_finite false 4503599627370496 (-52).

(** [!x] on a number: [0], [-0] and [NaN] are falsy. *)
Definition falsy (x : float) : bool :=
  match x with
  | S754_zero _ | S754_nan => true
  | _ => false
  end.

(** [x == 0] on a number: true of [0] and [-0]. *)
Definition is_zero (x : float) : bool :=
  match x with
  | S754_zero _ => true
  | _ => false
  end.

(** [Number.isFinite(x)] *)
Definition isFinite (x : float) : bool :=
  match x with
  | S754_zero _ | S754_finite _ _ _ => true
  | _ => false
  end.

(** [x <= y] and [x < y] on numbers. *)
Definition fle (x y : float) : bool := SFleb x y.
Definition flt (x y : float) : bool := SFltb x y.

(** The number that the integer [n] denotes, and the number written as the
    quotient of two integers (the nearest one, as for a decimal literal such
    as [0.93 = q 93 100]). *)
Definition of_Z (n : Z) : float := binary_normalize prec emax n 0 false.
Definition q (n : Z) (d : positive) : float := fdiv (of_Z n) (of_Z (Zpos d)).

(** ** Rows of the two tables *)

Module ExchangeRate.
Record t := mk {
  id : Z;
  baseCurrency : string;
  currency : string;
  rate : float;
  lastUpdated : Z
}.
End ExchangeRate.

Module Transaction.
Record t := mk {
  id : Z;
  userId : Z;
  fromCurrency : string;
  toCurrency : string;
  amount : float;
  convertedAmount : float;
  rate : float;
  createdAt : Z;
  updatedAt : Z
}.
End Transaction.

(** Body of the provider's answer: [{ base, rates, timestamp }], the
    timestamp in Unix seconds. *)
Module ApiData.
Record t := mk {
  base : string;
  rates : gmap string float;
  timestamp : Z
}.
End ApiData.

(** What [getExchangeRates] returns: [{ base, rates, timestamp }]. *)
Module Rates.
Record t := mk {
  base : string;
  rates : gmap string float;
  timestamp : Z
}.
End Rates.

(** What [convertCurrency] returns. *)
Module Conversion.
Record t := mk {
  id : Z;
  fromCurrency : string;
  toCurrency : string;
  amount : float;
  convertedAmount : float;
  exchangeRate : float;
  timestamp : Z
}.
End Conversion.

(** ** Exceptions *)

Inductive exn : Type :=
| Error (message : string)                          (* new Error(message) *)
| InternalServerErrorException (message : string)
| RangeError (message : string)                     (* thrown by the runtime *)
| AxiosError                                        (* axios.get rejected, or unusable body *)
| PrismaClientError.                                (* a database call rejected *)

Definition UnsupportedCurrencyError : exn := Error "Unsupported currency".
Definition RateUnavailableError : exn := Error "Exchange rate not available".
Definition RatesUnavailableError : exn :=
  InternalServerErrorException "Failed to fetch exchange rates".

(** ** State, environment and the monad of service methods *)

Inductive event : Type :=
| EvFindMany                       (* prisma.exchangeRate.findMany *)
| EvAxiosGet                       (* axios.get(apiUrl) *)
| EvUpsert (base cur : string)     (* prisma.exchangeRate.upsert *)
| EvCreate.                        (* prisma.transaction.create *)

Record State := mkState {
  exchangeRate : list ExchangeRate.t;     (* table ExchangeRate *)
  exchangeRateSeq : Z;                    (* its autoincrement counter *)
  transaction : list Transaction.t;       (* table Transaction *)
  transactionSeq : Z;
  trace : list event                      (* calls issued so far, oldest first *)
}.

Record Env := mkEnv {
  now : Z;                         (* new Date().getTime() *)
  findMany_ok : bool;              (* does the cache read resolve? *)
  axios_get : option ApiData.t;    (* None: the HTTP call rejects *)
  upsert_ok : string -> bool;      (* does the upsert of this currency resolve?
                                      (the answer of Prisma and the database) *)
  create_ok : bool;                (* does transaction.create resolve? *)
  db_now : Z                       (* the database's now() at create *)
}.

Definition M (A : Type) : Type := State -> (exn + A) * State.

Definition ret {A} (a : A) : M A := fun s => (inr a, s).
Definition throw {A} (e : exn) : M A := fun s => (inl e, s).
Definition bind {A B} (m : M A) (k : A -> M B) : M B :=
  fun s => match m s with
           | (inr a, s') => k a s'
           | (inl e, s') => (inl e, s')
           end.
Definition try_catch {A} (m : M A) (h : exn -> M A) : M A :=
  fun s => match m s with
           | (inr a, s') => (inr a, s')
           | (inl e, s') => h e s'
           end.
Definition emit (ev : event) : M unit :=
  fun s => (inr tt, mkState (exchangeRate s) (exchangeRateSeq s)
                            (transaction s) (transactionSeq s)
                            (trace s ++ [ev])).

Notation "'do' x <- m ;; k" := (bind m (fun x => k))
  (at level 10, x name, m at level 99, k at level 200).
Notation "'run' m ;; k" := (bind m (fun _ => k))
  (at level 10, m at level 99, k at level 200).

(** [Promise.all]: every promise of the batch has been started and runs,
    the result is the first rejection if there is one. *)
Fixpoint promise_all (ps : list (M unit)) : M unit :=
  match ps with
  | [] => ret tt
  | p :: ps' =>
      fun s =>
        let '(r, s1) := p s in
        let '(r', s2) := promise_all ps' s1 in
        (match r with inl e => inl e | inr _ => r' end, s2)
  end.

(** ** Configuration of [ExchangeRatesService] *)

Definition baseCurrency : string := "USD".
Definition supportedCurrencies : list string :=
  ["USD"; "EUR"; "GBP"; "JPY"; "CAD"; "AUD"; "CHF"; "CNY"; "INR"; "NGN"].
Definition cacheExpirationTime : Z := 3600000.

(** A [Date] holds a time value of at most 8.64e15 ms on either side of
    the epoch; [new Date(t)] is an invalid date beyond, on which
    [toISOString()] throws a [RangeError]. *)
Definition date_valid (t : Z) : bool := Z.abs t <=? 8640000000000000.

(** JavaScript truthiness of [obj[key]] for a dictionary of numbers:
    [undefined], [0], [-0] and [NaN] are falsy. *)
Definition truthy (o : option float) : bool :=
  match o with
  | Some r => negb (falsy r)
  | None => false
  end.

(** ** The Rate Store *)

(** [orderBy: { lastUpdated: 'desc' }] *)
Fixpoint insert_desc (r : ExchangeRate.t) (l : list ExchangeRate.t)
  : list ExchangeRate.t :=
  match l with
  | [] => [r]
  | x :: l' =>
      if ExchangeRate.lastUpdated x <=? ExchangeRate.lastUpdated r
      then r :: l
      else x :: insert_desc r l'
  end.

Definition sort_desc (l : list ExchangeRate.t) : list ExchangeRate.t :=
  foldr insert_desc [] l.

(** [prisma.exchangeRate.findMany({ where: { baseCurrency }, orderBy })]
    on the rows of the table. *)
Definition findMany (b : string) (rows : list ExchangeRate.t)
  : list ExchangeRate.t :=
  sort_desc (filter (fun r => ExchangeRate.baseCurrency r = b) rows).

Definition getExchangeRatesFromDb (w : Env) : M (list ExchangeRate.t) :=
  run emit EvFindMany ;;
  if findMany_ok w
  then fun s => (inr (findMany baseCurrency (exchangeRate s)), s)
  else throw PrismaClientError.

Definition same_key (b c : string) (r : ExchangeRate.t) : bool :=
  bool_decide (ExchangeRate.baseCurrency r = b) &&
  bool_decide (ExchangeRate.currency r = c).

(** The write of one [upsert] on the table: the row with the unique key
    [(baseCurrency, currency)] gets the new rate and time, or a new row
    is created.  (The schema allows one row per key; on a list that holds
    several, all of them are updated.)  With the unique key as [where] and
    the same key in [create], the upsert is one [INSERT ... ON CONFLICT ...
    DO UPDATE]: the autoincrement sequence of [id] advances on every call,
    also when the row exists and only its rate and time change. *)
Definition upsert_rows (b c : string) (r : float) (t : Z)
    (rows : list ExchangeRate.t) (seq : Z) : list ExchangeRate.t * Z :=
  if existsb (same_key b c) rows
  then (map (fun x => if same_key b c x
                      then ExchangeRate.mk (ExchangeRate.id x) b c r t
                      else x) rows, seq + 1)
  else (rows ++ [ExchangeRate.mk seq b c r t], seq + 1).

Definition upsert (w : Env) (b c : string) (r : float) (t : Z) : M unit :=
  run emit (EvUpsert b c) ;;
  if upsert_ok w c
  then fun s =>
         let '(rows, seq) := upsert_rows b c r t (exchangeRate s) (exchangeRateSeq s) in
         (inr tt, mkState rows seq (transaction s) (transactionSeq s) (trace s))
  else throw PrismaClientError.

(** ** [formatExchangeRates] *)

Definition formatExchangeRates (w : Env) (rates : list ExchangeRate.t) : Rates.t :=
  let formattedRates :=
    foldl (fun o r => <[ExchangeRate.currency r := ExchangeRate.rate r]> o)
          (∅ : gmap string float) rates in
  Rates.mk baseCurrency formattedRates
           (match rates with
            | r0 :: _ => ExchangeRate.lastUpdated r0
            | [] => now w
            end).

(** ** [fetchAndStoreExchangeRates] *)

(** The loop that keeps the supported currencies with a truthy rate. *)
Definition filterSupported (rates : gmap string float) : gmap string float :=
  foldl (fun o c => if truthy (rates !! c)
                    then match rates !! c with
                         | Some r => <[c := r]> o
                         | None => o
                         end
                    else o)
        (∅ : gmap string float) supportedCurrencies.

(** [Object.entries(supportedRates)]: the keys in insertion order, which is
    the order of [supportedCurrencies]. *)
Definition entries (supportedRates : gmap string float) : list (string * float) :=
  omap (fun c => (fun r => (c, r)) <$> supportedRates !! c) supportedCurrencies.

Definition fetchAndStoreExchangeRates (w : Env) : M Rates.t :=
  try_catch
    (run emit EvAxiosGet ;;
     match axios_get w with
     | None => throw AxiosError
     | Some data =>
         let base := ApiData.base data in
         let updateTime := ApiData.timestamp data * 1000 in
         let supportedRates := filterSupported (ApiData.rates data) in
         let updatePromises :=
           map (fun '(currency, rate) => upsert w base currency rate updateTime)
               (entries supportedRates) in
         run promise_all updatePromises ;;
         (* timestamp: updateTime.toISOString() *)
         if date_valid updateTime
         then ret (Rates.mk base supportedRates updateTime)
         else throw (RangeError "Invalid time value")
     end)
    (fun error => throw error).

(** ** [getExchangeRates] *)

(** [cachedRates.length > 0] and
    [now.getTime() - cachedRates[0].lastUpdated.getTime() < cacheExpirationTime] *)
Definition cacheValid (w : Env) (cachedRates : list ExchangeRate.t) : bool :=
  (0 <? Z.of_nat (length cachedRates)) &&
  match cachedRates with
  | mostRecent :: _ =>
      now w - ExchangeRate.lastUpdated mostRecent <? cacheExpirationTime
  | [] => false
  end.

Definition getExchangeRates (w : Env) : M Rates.t :=
  try_catch
    (do cachedRates <- getExchangeRatesFromDb w ;;
     if cacheValid w cachedRates
     then ret (formatExchangeRates w cachedRates)
     else
       try_catch (fetchAndStoreExchangeRates w)
         (fun apiError =>
            if 0 <? Z.of_nat (length cachedRates)
            then ret (formatExchangeRates w cachedRates)
            else throw apiError))
    (fun error => throw RatesUnavailableError).

(** ** [convertCurrency] *)

(** [prisma.transaction.create({ data })]: the database assigns the id and
    the two timestamps. *)
Definition transaction_create (w : Env) (userId : Z)
    (fromCurrency toCurrency : string) (amount convertedAmount rate : float)
  : M Transaction.t :=
  run emit EvCreate ;;
  if create_ok w
  then fun s =>
         let row := Transaction.mk (transactionSeq s) userId fromCurrency
                      toCurrency amount convertedAmount rate (db_now w) (db_now w) in
         (inr row, mkState (exchangeRate s) (exchangeRateSeq s)
                           (transaction s ++ [row]) (transactionSeq s + 1)
                           (trace s))
  else throw PrismaClientError.

(** The number held by a dictionary entry that passed the truthiness test. *)
Definition number (o : option float) : float := default zero o.

Definition convertCurrency (w : Env) (userId : Z)
    (fromCurrency toCurrency : string) (amount : float) : M Conversion.t :=
  if negb (bool_decide (fromCurrency ∈ supportedCurrencies))
     || negb (bool_decide (toCurrency ∈ supportedCurrencies))
  then throw UnsupportedCurrencyError
  else
    do rates <- getExchangeRates w ;;
    let fromRate := Rates.rates rates !! fromCurrency in
    let toRate := Rates.rates rates !! toCurrency in
    if negb (truthy fromRate) || negb (truthy toRate)
    then throw RateUnavailableError
    else
      let valueInBaseCurrency := (amount / number fromRate)%double in
      let convertedAmount := (valueInBaseCurrency * number toRate)%double in
      let exchangeRate := (number toRate / number fromRate)%double in
      do transaction <-
        transaction_create w userId fromCurrency toCurrency amount
                           convertedAmount exchangeRate ;;
      ret (Conversion.mk (Transaction.id transaction) fromCurrency toCurrency
             amount convertedAmount exchangeRate
             (Transaction.createdAt transaction)).

(** ** The transaction listing of a user *)

(** Modelled from the spec: [UserService.getUserTransactions], which
    [UserController.getUserTransactions] calls with [req.user.id], is not
    among the sources.  By the data model a transaction is visible only to
    the user that owns it, so the listing is the rows of the table whose
    [userId] is the caller's. *)
Definition getUserTransactions (userId : Z) (s : State) : list Transaction.t :=
  filter (fun t => Transaction.userId t = userId) (transaction s).

(** A request to the conversion endpoint: what the world answers during
    the call, the authenticated user and the body. *)
Record Request := mkRequest {
  req_env : Env;
  req_user : Z;
  req_from : string;
  req_to : string;
  req_amount : float
}.

Definition serve (s : State) (q : Request) : State :=
  snd (convertCurrency (req_env q) (req_user q) (req_from q) (req_to q)
                       (req_amount q) s).

Definition serve_all (s : State) (qs : list Request) : State :=
  foldl serve s qs.

(** * Auxiliary definitions *)

(** ** The value of a number

    A finite number [S754_finite s m e] is the rational [(-1)^s * m * 2^e];
    the zeros are 0.  The infinities and NaN have no value and are given
    0 here: the statements below that use [F2Q] are about finite numbers. *)
Definition pow2 (e : Z) : Q := (2 ^ e)%Q.

Definition F2Q (x : float) : Q :=
  match x with
  | S754_finite s m e =>
      ((if s then - inject_Z (Zpos m) else inject_Z (Zpos m)) * pow2 e)%Q
  | _ => 0%Q
  end.

(** A normal number: finite, with a mantissa of 53 bits.  The results of an
    operation that are not normal are the zeros and the subnormal numbers
    (underflow), the infinities (overflow) and NaN. *)
Definition normal (x : float) : bool :=
  match x with
  | S754_finite _ m _ => 2 ^ 52 <=? Zpos m
  | _ => false
  end.

(** Half the distance from 1 to the next number: [2^-53]. *)
Definition unit_roundoff : Q := 1 # 9007199254740992.

(** [a] is [b] up to the relative error [k]. *)
Definition close (k a b : Q) : Prop := (Qabs (a - b) <= k * Qabs b)%Q.

(** The place of a positive real [v] between the integers [m] and [m + 1],
    as the rounding of [spec_float] records it. *)
Definition inloc (v : Q) (m : Z) (l : location) : Prop :=
  match l with
  | loc_Exact => (v == inject_Z m)%Q
  | loc_Inexact Lt => (inject_Z m < v /\ v < inject_Z m + (1 # 2))%Q
  | loc_Inexact Eq => (v == inject_Z m + (1 # 2))%Q
  | loc_Inexact Gt => (inject_Z m + (1 # 2) < v /\ v < inject_Z m + 1)%Q
  end.

Definition repr (v : Q) (mrs : shr_record) : Prop :=
  0 <= shr_m mrs /\ inloc v (shr_m mrs) (loc_of_shr_record mrs).

(** The state after the call [ev] has been issued. *)
Definition logged (ev : event) (s : State) : State := snd (emit ev s).

(** A method call fails in state [s] when it ends with a thrown exception. *)
Definition fails {A} (m : M A) (s : State) : Prop :=
  exists e s', m s = (inl e, s').

Definition newer_first (a b : ExchangeRate.t) : Prop :=
  ExchangeRate.lastUpdated b <= ExchangeRate.lastUpdated a.

(** What the cache read of [getExchangeRates] returns in state [s]. *)
Definition cached (s : State) : list ExchangeRate.t :=
  findMany baseCurrency (exchangeRate s).

(** The dictionary that [formatExchangeRates] builds, from [m] on. *)
Definition collect (m : gmap string float) (rows : list ExchangeRate.t)
  : gmap string float :=
  foldl (fun o r => <[ExchangeRate.currency r := ExchangeRate.rate r]> o) m rows.

(** One turn of the loop of [filterSupported]. *)
Definition keep (rates o : gmap string float) (c : string) : gmap string float :=
  if truthy (rates !! c)
  then match rates !! c with
       | Some r => <[c := r]> o
       | None => o
       end
  else o.

(** The entry of [Object.entries(m)] for the key [c], if there is one. *)
Definition entry (m : gmap string float) (c : string) : option (string * float) :=
  (fun r => (c, r)) <$> m !! c.

(** The batch of upserts ([updatePromises]) for the entries [es], under
    base [b] and time [t]. *)
Definition upsertPromises (w : Env) (b : string) (t : Z)
    (es : list (string * float)) : list (M unit) :=
  map (fun '(currency, rate) => upsert w b currency rate t) es.

(** What [fetchAndStoreExchangeRates] returns for the answer [d]. *)
Definition fetched (d : ApiData.t) : Rates.t :=
  Rates.mk (ApiData.base d) (filterSupported (ApiData.rates d))
           (ApiData.timestamp d * 1000).

(** The outcome of the fetch, given the outcome of the batch. *)
Definition answer (d : ApiData.t) (batch : (exn + unit) * State)
  : (exn + Rates.t) * State :=
  (match fst batch with
   | inl e => inl e
   | inr _ => if date_valid (ApiData.timestamp d * 1000)
              then inr (fetched d)
              else inl (RangeError "Invalid time value")
   end, snd batch).

Definition batch_ok (w : Env) (es : list (string * float)) : bool :=
  forallb (fun '(c, _) => upsert_ok w c) es.

(** The fetch is rejected when the HTTP call is, when the database
    rejects one of the upserts of the batch, or when the time of the answer
    is not a valid date. *)
Definition fetch_rejected (w : Env) : bool :=
  match axios_get w with
  | None => true
  | Some d => negb (batch_ok w (entries (filterSupported (ApiData.rates d))))
              || negb (date_valid (ApiData.timestamp d * 1000))
  end.

(** The three ways in which [fetchAndStoreExchangeRates] throws: the HTTP
    call is rejected; the provider answered and the database rejects one of
    the upserts; the provider answered with a time that is not a valid
    date. *)
Definition fetch_failure (w : Env) : Prop :=
  axios_get w = None \/
  exists d, axios_get w = Some d /\
            (batch_ok w (entries (filterSupported (ApiData.rates d))) = false \/
             date_valid (ApiData.timestamp d * 1000) = false).

(** The table holds a snapshot for the base currency of the service. *)
Definition has_cache (s : State) : Prop :=
  exists r, r ∈ exchangeRate s /\ ExchangeRate.baseCurrency r = baseCurrency.

(** [res] is the cached snapshots of [s] formatted: the base currency of
    the service, the time of the newest snapshot, and for each currency
    the rate of one of its snapshots. *)
Definition cached_rates (s : State) (res : Rates.t) : Prop :=
  Rates.base res = baseCurrency /\
  (exists r, r ∈ exchangeRate s /\ ExchangeRate.baseCurrency r = baseCurrency /\
             ExchangeRate.lastUpdated r = Rates.timestamp res) /\
  (forall r, r ∈ exchangeRate s -> ExchangeRate.baseCurrency r = baseCurrency ->
             ExchangeRate.lastUpdated r <= Rates.timestamp res) /\
  (forall c v, Rates.rates res !! c = Some v ->
     exists r, r ∈ exchangeRate s /\ ExchangeRate.baseCurrency r = baseCurrency /\
               ExchangeRate.currency r = c /\ ExchangeRate.rate r = v) /\
  (forall r, r ∈ exchangeRate s -> ExchangeRate.baseCurrency r = baseCurrency ->
     is_Some (Rates.rates res !! ExchangeRate.currency r)).

(** C8 as the specification states it: when the cache cannot be used and
    the provider answers with a mapping that keeps no entry after the
    filter on the supported currencies, [getExchangeRates] does not raise
    an error. *)
Definition empty_answer_is_success : Prop :=
  forall w s d,
    findMany_ok w = true ->
    cacheValid w (cached s) = false ->
    axios_get w = Some d ->
    filterSupported (ApiData.rates d) = ∅ ->
    exists res s', getExchangeRates w s = (inr res, s').

(** C1 as the specification states it: [getExchangeRates] fails exactly
    when the store read fails, or no cached snapshot exists and the call of
    the provider fails. *)
Definition unavailable_only_without_provider : Prop :=
  forall w s,
    fst (getExchangeRates w s) = inl RatesUnavailableError <->
    findMany_ok w = false \/ (~ has_cache s /\ axios_get w = None).

(** The transaction table is out of reach of the rate cache. *)
Definition same_transactions (s s' : State) : Prop :=
  transaction s' = transaction s /\ transactionSeq s' = transactionSeq s.

(** The row that [upsert_rows] writes over [x] when the key matches. *)
Definition rewritten (b : string) (t : Z) (c : string) (r : float)
    (x : ExchangeRate.t) : ExchangeRate.t :=
  if same_key b c x then ExchangeRate.mk (ExchangeRate.id x) b c r t else x.

(** The snapshot of [(b, c)] is in the table with rate [r] and time [t']. *)
Definition settled (b c : string) (r : float) (t' : Z)
    (rows : list ExchangeRate.t) : Prop :=
  (exists x, x ∈ rows /\ ExchangeRate.baseCurrency x = b /\ ExchangeRate.currency x = c)
  /\ forall x, x ∈ rows -> ExchangeRate.baseCurrency x = b ->
               ExchangeRate.currency x = c ->
               ExchangeRate.rate x = r /\ ExchangeRate.lastUpdated x = t'.

(** The table and its counter after the upserts of a batch. *)
Definition store_entry (b : string) (t : Z) (acc : list ExchangeRate.t * Z)
    (e : string * float) : list ExchangeRate.t * Z :=
  upsert_rows b e.1 e.2 t acc.1 acc.2.

Definition store_batch (b : string) (t : Z) (es : list (string * float))
    (acc : list ExchangeRate.t * Z) : list ExchangeRate.t * Z :=
  foldl (store_entry b t) acc es.

(** The row that [transaction.create] adds in state [s]. *)
Definition created (w : Env) (userId : Z) (fromCurrency toCurrency : string)
    (amount convertedAmount rate : float) (s : State) : Transaction.t :=
  Transaction.mk (transactionSeq s) userId fromCurrency toCurrency amount
                 convertedAmount rate (db_now w) (db_now w).

(** What remains of [convertCurrency] once both rates have passed the
    test: the arithmetic, the stored transaction and the answer. *)
Definition settle (w : Env) (userId : Z) (fromCurrency toCurrency : string)
    (amount fromRate toRate : float) : M Conversion.t :=
  let valueInBaseCurrency := (amount / fromRate)%double in
  let convertedAmount := (valueInBaseCurrency * toRate)%double in
  let exchangeRate := (toRate / fromRate)%double in
  do transaction <-
    transaction_create w userId fromCurrency toCurrency amount
                       convertedAmount exchangeRate ;;
  ret (Conversion.mk (Transaction.id transaction) fromCurrency toCurrency
         amount convertedAmount exchangeRate
         (Transaction.createdAt transaction)).

(** C7 as the specification states it: the rows that a successful fetch
    leaves in the table beyond those already there are snapshots for the
    base currency of the service, and the next cache read shows every rate
    that the fetch returned. *)
Definition snapshots_under_fixed_base : Prop :=
  forall w s res s',
    fetchAndStoreExchangeRates w s = (inr res, s') ->
    (forall row, row ∈ exchangeRate s' -> row ∉ exchangeRate s ->
                 ExchangeRate.baseCurrency row = baseCurrency)
    /\
    (forall c r, Rates.rates res !! c = Some r ->
                 Rates.rates (formatExchangeRates w (cached s')) !! c = Some r).

(** C3 as the specification states it: the two formulas, an amount of 0
    converts to 0 whatever the rates, and a currency converted to itself
    gives back the amount, with an exchange rate of 1. *)
Definition conversion_exact : Prop :=
  forall w userId fromCurrency toCurrency amount s res s',
    convertCurrency w userId fromCurrency toCurrency amount s = (inr res, s') ->
    exists rates s1 fromRate toRate,
      getExchangeRates w s = (inr rates, s1) /\
      Rates.rates rates !! fromCurrency = Some fromRate /\
      Rates.rates rates !! toCurrency = Some toRate /\
      Conversion.convertedAmount res = (amount / fromRate * toRate)%double /\
      Conversion.exchangeRate res = (toRate / fromRate)%double /\
      (is_zero amount = true -> is_zero (Conversion.convertedAmount res) = true) /\
      (fromCurrency = toCurrency ->
       Conversion.convertedAmount res = amount /\
       Conversion.exchangeRate res = one).

(** The two formulas of the conversion as the specification gives them,
    over the rationals. *)
Definition spec_convertedAmount (amount fromRate toRate : Q) : Q :=
  (amount / fromRate * toRate)%Q.
Definition spec_exchangeRate (fromRate toRate : Q) : Q :=
  (toRate / fromRate)%Q.

(** C5 as the specification states it, for numbers: whatever the positive
    amount [x], converting it and converting the outcome back with the same
    rates returns [x] up to the relative error [tol]. *)
Definition round_trip_within (tol : Q) : Prop :=
  forall w1 w2 u1 u2 a b x s0 c1 s1 c2 s2 r1 t1 r2 t2,
    flt zero x = true ->
    convertCurrency w1 u1 a b x s0 = (inr c1, s1) ->
    convertCurrency w2 u2 b a (Conversion.convertedAmount c1) s1 = (inr c2, s2) ->
    getExchangeRates w1 s0 = (inr r1, t1) ->
    getExchangeRates w2 s1 = (inr r2, t2) ->
    Rates.rates r1 = Rates.rates r2 ->
    (Qabs (F2Q (Conversion.convertedAmount c2) - F2Q x) <= tol * Qabs (F2Q x))%Q.

(** ** Concrete data used in the examples *)

Definition empty_state : State := mkState [] 1 [] 1 [].

Definition usd_eur : gmap string float :=
  <["EUR" := q 93 100]> (<["USD" := q 1 1]> ∅).

Definition api_usd : ApiData.t := ApiData.mk "USD" usd_eur 1700000000.

(** The provider answers, the database works. *)
Definition env_online : Env :=
  mkEnv 1700000100000 true (Some api_usd) (fun _ => true) true 1700000100500.

(** The conversion of 100 USD to EUR served from the provider's answer
    [api_usd] on an empty database. *)
Definition usd_to_eur : Conversion.t :=
  Conversion.mk 1 "USD" "EUR" (q 100 1)
                (q 100 1 / q 1 1 * q 93 100)%double (q 93 100 / q 1 1)%double
                1700000100500.

Definition after_usd_to_eur : State :=
  snd (convertCurrency env_online 7 "USD" "EUR" (q 100 1) empty_state).

Definition after_fetch : State :=
  snd (getExchangeRates env_online empty_state).

(** The euro at 1.36, and 100 EUR converted to EUR at that rate. *)
Definition api_136 : ApiData.t :=
  ApiData.mk "USD" (<["EUR" := q 136 100]> (<["USD" := q 1 1]> ∅)) 1700000000.

Definition env_136 : Env :=
  mkEnv 1700000100000 true (Some api_136) (fun _ => true) true 1700000100500.

Definition eur_to_eur : Conversion.t :=
  Conversion.mk 1 "EUR" "EUR" (q 100 1)
                (q 100 1 / q 136 100 * q 136 100)%double
                (q 136 100 / q 136 100)%double
                1700000100500.

(** The reverse conversion, served ten minutes later from the cache that
    the first one filled. *)
Definition env_cached : Env :=
  mkEnv 1700000600000 true None (fun _ => true) true 1700000600500.

Definition eur_to_usd : Conversion.t :=
  Conversion.mk 2 "EUR" "USD" (Conversion.convertedAmount usd_to_eur)
                (Conversion.convertedAmount usd_to_eur / q 93 100 * q 1 1)%double
                (q 1 1 / q 93 100)%double
                1700000600500.

(** The yen at 150, and the smallest positive number (5e-324) of yen
    converted to dollars and back. *)
Definition api_jpy : ApiData.t :=
  ApiData.mk "USD" (<["JPY" := q 150 1]> (<["USD" := q 1 1]> ∅)) 1700000000.

Definition env_jpy : Env :=
  mkEnv 1700000100000 true (Some api_jpy) (fun _ => true) true 1700000100500.

Definition tiny : float := S754_finite false 1 (-1074).

Definition tiny_jpy_to_usd : Conversion.t :=
  Conversion.mk 1 "JPY" "USD" tiny
                (tiny / q 150 1 * q 1 1)%double (q 1 1 / q 150 1)%double
                1700000100500.

Definition after_tiny_jpy_to_usd : State :=
  snd (convertCurrency env_jpy 7 "JPY" "USD" tiny empty_state).

Definition zero_usd_to_jpy : Conversion.t :=
  Conversion.mk 2 "USD" "JPY" (Conversion.convertedAmount tiny_jpy_to_usd)
                (Conversion.convertedAmount tiny_jpy_to_usd / q 1 1 * q 150 1)%double
                (q 150 1 / q 1 1)%double 1700000600500.

(** The largest number, 1.7976931348623157e308. *)
Definition huge : float := S754_finite false 9007199254740991 971.

(** A cache that is two hours old, and a provider that cannot be reached. *)
Definition stale_state : State :=
  mkState [ExchangeRate.mk 1 "USD" "USD" (q 1 1) 1700000000000;
           ExchangeRate.mk 2 "USD" "EUR" (q 93 100) 1699999000000]
          3 [] 1 [].

Definition env_offline : Env :=
  mkEnv 1700007200000 true None (fun _ => true) true 1700007200500.

(** An answer of the provider without a usable rate for any supported
    currency: one unknown code and a rate of 0. *)
Definition api_useless : ApiData.t :=
  ApiData.mk "USD" (<["EUR" := zero]> (<["BTC" := q 1 50000]> ∅)) 1700000000.

Definition env_useless : Env :=
  mkEnv 1700000100000 true (Some api_useless) (fun _ => true) true 1700000100500.

(** An answer without rates whose time, 1e13 s, is beyond the dates that
    JavaScript represents. *)
Definition api_far : ApiData.t := ApiData.mk "USD" ∅ 10000000000000.

Definition env_far : Env :=
  mkEnv 1700000100000 true (Some api_far) (fun _ => true) true 1700000100500.

(** The provider answers with a base other than the service's. *)
Definition api_eur : ApiData.t :=
  ApiData.mk "EUR" (<["EUR" := q 1 1]> (<["USD" := q 100 93]> ∅)) 1700000000.

Definition env_eur : Env :=
  mkEnv 1700000100000 true (Some api_eur) (fun _ => true) true 1700000100500.

(** Two users convert in turn. *)
Definition two_users : list Request :=
  [mkRequest env_online 7 "USD" "EUR" (q 100 1);
   mkRequest env_cached 8 "EUR" "USD" (q 50 1)].

(** * Definitions for the further properties *)

(** The unique key of a row of the table [ExchangeRate]. *)
Definition row_key (r : ExchangeRate.t) : string * string :=
  (ExchangeRate.baseCurrency r, ExchangeRate.currency r).

(** The constraint [@@unique([baseCurrency, currency])] of the schema. *)
Definition unique_keys (rows : list ExchangeRate.t) : Prop :=
  NoDup (map row_key rows).

(** The calls that a batch of upserts issues. *)
Definition upsert_events (b : string) (es : list (string * float)) : list event :=
  map (fun e => EvUpsert b e.1) es.

(** The calls that [fetchAndStoreExchangeRates] issues. *)
Definition fetch_events (w : Env) : list event :=
  EvAxiosGet ::
  match axios_get w with
  | Some d => upsert_events (ApiData.base d)
                            (entries (filterSupported (ApiData.rates d)))
  | None => []
  end.

(** The table and its counter after a batch in which the database may
    reject some of the upserts. *)
Definition store_resolved (w : Env) (b : string) (t : Z)
    (es : list (string * float)) (acc : list ExchangeRate.t * Z)
  : list ExchangeRate.t * Z :=
  foldl (fun acc e => if upsert_ok w e.1 then store_entry b t acc e else acc)
        acc es.

(** What every row written by [convertCurrency] satisfies: its two
    currencies are supported, and its rate and converted amount are those
    that lines 80 to 84 compute from two truthy rates. *)
Definition well_formed (t : Transaction.t) : Prop :=
  Transaction.fromCurrency t ∈ supportedCurrencies /\
  Transaction.toCurrency t ∈ supportedCurrencies /\
  exists fromRate toRate,
    falsy fromRate = false /\ falsy toRate = false /\
    Transaction.rate t = (toRate / fromRate)%double /\
    Transaction.convertedAmount t
    = (Transaction.amount t / fromRate * toRate)%double.

(** A relation between the rows of the rate table before and after. *)
Definition across (P : list ExchangeRate.t -> list ExchangeRate.t -> Prop)
    (s s' : State) : Prop :=
  P (exchangeRate s) (exchangeRate s').

(** No row of [rows] is deleted or filed under another key in [rows']. *)
Definition kept (rows rows' : list ExchangeRate.t) : Prop :=
  (forall row, row ∈ rows ->
     exists row', row' ∈ rows' /\
                  ExchangeRate.id row' = ExchangeRate.id row /\
                  row_key row' = row_key row)
  /\ (length rows <= length rows')%nat.

(** A newer answer of the provider, and a database that accepts the upsert
    of USD and rejects that of EUR. *)
Definition api_new : ApiData.t :=
  ApiData.mk "USD" (<["EUR" := q 95 100]> (<["USD" := q 1 1]> ∅)) 1700007000.

Definition env_half : Env :=
  mkEnv 1700007200000 true (Some api_new)
        (fun c => bool_decide (c = "USD")) true 1700007200500.

(** * Authentication: [AuthService] and [RedisService]

    An embedding of [auth.service.ts] and of the two token methods of
    [redis/redis.service.ts].  [bcrypt] and the JWT signer are libraries:
    what they return is part of the environment of a request.  Redis is a
    dictionary from keys to a value and the instant, in milliseconds, at
    which the key expires. *)

Module User.
Record t := mk {
  id : Z;
  email : string;
  password : string;
  name : option string;
  createdAt : Z;
  updatedAt : Z
}.
End User.

(** A user without the password: [const { password: _, ...result } = user]. *)
Module Principal.
Record t := mk {
  id : Z;
  email : string;
  name : option string;
  createdAt : Z;
  updatedAt : Z
}.
End Principal.

Module LoginDto.
Record t := mk { email : string; password : string; nonce : string }.
End LoginDto.

Module RegisterDto.
Record t := mk { email : string; password : string; name : option string }.
End RegisterDto.

Module JwtPayload.
Record t := mk { sub : Z; email : string; iat : Z }.
End JwtPayload.

(** [{ access_token, user: { id, email, name } }] *)
Module AuthResult.
Record t := mk {
  access_token : string;
  id : Z;
  email : string;
  name : option string
}.
End AuthResult.

Inductive auth_exn : Type :=
| UnauthorizedException (message : string)
| BadRequestException (message : string)
| ConflictException (message : string)
| UserStoreError                       (* a prisma.user call rejected *)
| RedisError.                          (* a Redis command rejected *)

Record AuthState := mkAuthState {
  user : list User.t;                      (* table User *)
  userSeq : Z;                             (* its autoincrement counter *)
  redis : gmap string (string * Z)         (* key -> (value, expiry in ms) *)
}.

Record AuthEnv := mkAuthEnv {
  date_now : Z;                            (* Date.now() *)
  redis_now : Z;                           (* the clock of the Redis server, ms *)
  user_find_ok : bool;                     (* does user.findUnique resolve? *)
  user_create_ok : bool;                   (* does user.create resolve? *)
  redis_exists_ok : bool;
  redis_setex_ok : bool;
  redis_expired_at_deadline : bool;        (* is a key gone at the very
                                              millisecond of its expiry? *)
  bcrypt_hash : string -> string;          (* bcrypt.hash(password, 10) *)
  bcrypt_compare : string -> string -> bool;
  jwt_sign : JwtPayload.t -> string;
  user_db_now : Z
}.

Definition AuthM (A : Type) : Type := AuthState -> (auth_exn + A) * AuthState.

Definition aret {A} (a : A) : AuthM A := fun s => (inr a, s).
Definition athrow {A} (e : auth_exn) : AuthM A := fun s => (inl e, s).
Definition abind {A B} (m : AuthM A) (k : A -> AuthM B) : AuthM B :=
  fun s => match m s with
           | (inr a, s') => k a s'
           | (inl e, s') => (inl e, s')
           end.

Notation "'await' x <- m ;; k" := (abind m (fun x => k))
  (at level 10, x name, m at level 99, k at level 200).

(** ** [RedisService] *)

Definition used_token_key (token : string) : string :=
  String.append "used_token:" token.

(** Has a key with this expiry run out? *)
Definition expired (a : AuthEnv) (expiry : Z) : bool :=
  (expiry <? redis_now a)
  || ((expiry =? redis_now a) && redis_expired_at_deadline a).

(** [EXISTS key]: 1 when the key is there and has not expired. *)
Definition redis_exists (a : AuthEnv) (key : string)
    (r : gmap string (string * Z)) : Z :=
  match r !! key with
  | Some (_, expiry) => if expired a expiry then 0 else 1
  | None => 0
  end.

Definition isTokenUsed (a : AuthEnv) (token : string) : AuthM bool :=
  fun s =>
    if redis_exists_ok a
    then (inr (redis_exists a (used_token_key token) (redis s) =? 1), s)
    else (inl RedisError, s).

(** [SETEX key ttl value]; Redis refuses a time to live that is not
    positive. *)
Definition storeToken (a : AuthEnv) (token : string) (userId : Z)
    (ttlSeconds : Z) : AuthM unit :=
  fun s =>
    if redis_setex_ok a && (0 <? ttlSeconds)
    then (inr tt,
          mkAuthState (user s) (userSeq s)
            (<[used_token_key token :=
                 (pretty userId, redis_now a + ttlSeconds * 1000)]> (redis s)))
    else (inl RedisError, s).

(** ** [prisma.user] *)

Definition has_email (email : string) (u : User.t) : bool :=
  bool_decide (User.email u = email).

Definition user_findUnique (a : AuthEnv) (email : string)
  : AuthM (option User.t) :=
  fun s =>
    if user_find_ok a
    then (inr (find (has_email email) (user s)), s)
    else (inl UserStoreError, s).

(** [prisma.user.create]: the email is [@unique]. *)
Definition user_create (a : AuthEnv) (email password : string)
    (name : option string) : AuthM User.t :=
  fun s =>
    if user_create_ok a && negb (existsb (has_email email) (user s))
    then let row := User.mk (userSeq s) email password name
                            (user_db_now a) (user_db_now a) in
         (inr row, mkAuthState (user s ++ [row]) (userSeq s + 1) (redis s))
    else (inl UserStoreError, s).

(** ** [AuthService] *)

Definition sans_password (u : User.t) : Principal.t :=
  Principal.mk (User.id u) (User.email u) (User.name u)
               (User.createdAt u) (User.updatedAt u).

Definition validateUser (a : AuthEnv) (email password : string)
  : AuthM Principal.t :=
  await user <- user_findUnique a email ;;
  match user with
  | None => athrow (UnauthorizedException "Invalid credentials")
  | Some user =>
      let isPasswordValid := bcrypt_compare a password (User.password user) in
      if negb isPasswordValid
      then athrow (UnauthorizedException "Invalid credentials")
      else aret (sans_password user)
  end.

Definition login (a : AuthEnv) (loginDto : LoginDto.t) : AuthM AuthResult.t :=
  let email := LoginDto.email loginDto in
  let password := LoginDto.password loginDto in
  let nonce := LoginDto.nonce loginDto in
  await user <- validateUser a email password ;;
  await isTokenUsed <- isTokenUsed a nonce ;;
  if isTokenUsed
  then athrow (BadRequestException "This request has already been processed")
  else
    await _ <- storeToken a nonce (Principal.id user) 86400 ;;
    let payload := JwtPayload.mk (Principal.id user) (Principal.email user)
                                 (date_now a / 1000) in
    aret (AuthResult.mk (jwt_sign a payload) (Principal.id user)
                        (Principal.email user) (Principal.name user)).

Definition register (a : AuthEnv) (registerDto : RegisterDto.t)
  : AuthM AuthResult.t :=
  let email := RegisterDto.email registerDto in
  let password := RegisterDto.password registerDto in
  let name := RegisterDto.name registerDto in
  await existingUser <- user_findUnique a email ;;
  match existingUser with
  | Some _ => athrow (ConflictException "User with this email already exists")
  | None =>
      let hashedPassword := bcrypt_hash a password in
      await user <- user_create a email hashedPassword name ;;
      let payload := JwtPayload.mk (User.id user) (User.email user)
                                   (date_now a / 1000) in
      aret (AuthResult.mk (jwt_sign a payload) (User.id user)
                          (User.email user) (User.name user))
  end.

(** ** Concrete data for the authentication examples *)

Definition toy_hash (p : string) : string := String.append "$2b$10$" p.

Definition auth_env (t : Z) : AuthEnv :=
  mkAuthEnv t t true true true true true toy_hash
            (fun p h => bool_decide (h = toy_hash p))
            (fun payload => String.append "jwt." (JwtPayload.email payload))
            t.

Definition no_users : AuthState := mkAuthState [] 1 ∅.

Definition ada_registers : RegisterDto.t :=
  RegisterDto.mk "ada@example.com" "Password123!" (Some "Ada").

Definition ada_logs_in : LoginDto.t :=
  LoginDto.mk "ada@example.com" "Password123!" "nonce-1".

Definition ada_registered : AuthState :=
  snd (register (auth_env 1700000000000) ada_registers no_users).

Definition ada_logged_in : AuthState :=
  snd (login (auth_env 1700000001000) ada_logs_in ada_registered).

(** What [login] answers for the validated user [u]. *)
Definition issued (a : AuthEnv) (u : Principal.t) : AuthResult.t :=
  AuthResult.mk
    (jwt_sign a (JwtPayload.mk (Principal.id u) (Principal.email u)
                               (date_now a / 1000)))
    (Principal.id u) (Principal.email u) (Principal.name u).

(** ** Logins that overlap

    An [async] method gives way at every [await], where the steps of other
    requests run.  [login] awaits three calls: [validateUser] (line 37),
    [isTokenUsed] (line 40) and [storeToken] (line 47).  A login under way
    is before one of them, or finished; [login] itself is the three steps
    run in a row.  ([validateUser] awaits twice, but only its first call
    reads the state.) *)
Inductive place : Type :=
| AtValidate                              (* before validateUser *)
| AtCheck (user : Principal.t)            (* before isTokenUsed *)
| AtStore (user : Principal.t)            (* before storeToken *)
| Finished (r : auth_exn + AuthResult.t).

Definition login_step (a : AuthEnv) (loginDto : LoginDto.t) (pc : place)
  : AuthState -> place * AuthState :=
  let email := LoginDto.email loginDto in
  let password := LoginDto.password loginDto in
  let nonce := LoginDto.nonce loginDto in
  fun s =>
    match pc with
    | AtValidate =>
        match validateUser a email password s with
        | (inl e, s') => (Finished (inl e), s')
        | (inr user, s') => (AtCheck user, s')
        end
    | AtCheck user =>
        match isTokenUsed a nonce s with
        | (inl e, s') => (Finished (inl e), s')
        | (inr true, s') =>
            (Finished (inl (BadRequestException
                              "This request has already been processed")), s')
        | (inr false, s') => (AtStore user, s')
        end
    | AtStore user =>
        match storeToken a nonce (Principal.id user) 86400 s with
        | (inl e, s') => (Finished (inl e), s')
        | (inr _, s') => (Finished (inr (issued a user)), s')
        end
    | Finished r => (Finished r, s)
    end.

(** The logins under way, and what the server does next: one step of the
    login at position [i], in the environment of that moment, or a
    registration. *)
Definition pool : Type := list (LoginDto.t * place).

Inductive turn : Type :=
| StepLogin (a : AuthEnv) (i : nat)
| Register (a : AuthEnv) (registerDto : RegisterDto.t).

Definition take_turn (ps : pool * AuthState) (t : turn) : pool * AuthState :=
  match t with
  | StepLogin a i =>
      match ps.1 !! i with
      | Some (dto, pc) =>
          (<[i := (dto, (login_step a dto pc ps.2).1)]> ps.1,
           (login_step a dto pc ps.2).2)
      | None => ps
      end
  | Register a dto => (ps.1, (register a dto ps.2).2)
  end.

Definition run_turns (ts : list turn) (ps : pool * AuthState)
  : pool * AuthState :=
  foldl take_turn ps ts.

(** The clock of Redis at a turn. *)
Definition turn_clock (t : turn) : Z :=
  match t with
  | StepLogin a _ | Register a _ => redis_now a
  end.

(** Redis holds the key of [nonce] at least until [t]. *)
Definition recorded_until (nonce : string) (t : Z) (s : AuthState) : Prop :=
  exists v e, redis s !! used_token_key nonce = Some (v, e) /\ t <= e.

(** Two logins of Ada with the same nonce, both validated. *)
Definition ada : Principal.t :=
  Principal.mk 1 "ada@example.com" (Some "Ada") 1700000000000 1700000000000.

(** * The conversion endpoint

    [ExchangeRatesController.convertCurrency] behind the global
    [ValidationPipe] of [main.ts]. *)

Module ConvertCurrencyDto.
Record t := mk { fromCurrency : string; toCurrency : string; amount : float }.
End ConvertCurrencyDto.

(** The decorators of [ConvertCurrencyDto]: [@IsNotEmpty()] on the two
    codes ([@IsString()] holds by typing); on the amount [@IsNumber()],
    which refuses [NaN] and the infinities, and [@Min(0)], which is
    [amount >= 0]. *)
Definition dto_valid (dto : ConvertCurrencyDto.t) : bool :=
  negb (bool_decide (ConvertCurrencyDto.fromCurrency dto = ""))
  && negb (bool_decide (ConvertCurrencyDto.toCurrency dto = ""))
  && isFinite (ConvertCurrencyDto.amount dto)
  && fle zero (ConvertCurrencyDto.amount dto).

Inductive response : Type :=
| Rejected                       (* the pipe refused the body: 400 *)
| Thrown (e : exn)               (* the service threw *)
| Returned (c : Conversion.t).

Definition postConvert (w : Env) (userId : Z) (dto : ConvertCurrencyDto.t)
    (s : State) : response * State :=
  if dto_valid dto
  then match convertCurrency w userId
               (ConvertCurrencyDto.fromCurrency dto)
               (ConvertCurrencyDto.toCurrency dto)
               (ConvertCurrencyDto.amount dto) s with
       | (inl e, s') => (Thrown e, s')
       | (inr c, s') => (Returned c, s')
       end
  else (Rejected, s).

Record Post := mkPost {
  post_env : Env;
  post_user : Z;
  post_body : ConvertCurrencyDto.t
}.

Definition post_all (s : State) (ps : list Post) : State :=
  foldl (fun s p => snd (postConvert (post_env p) (post_user p) (post_body p) s))
        s ps.

(** * Properties *)

(** ** Rounding of numbers

    The operations of [spec_float] round to nearest, ties to even.  The
    lemmas of this section bound the rounding error of a product and of a
    quotient whose result is a normal number: the result is the exact value
    up to the relative error [unit_roundoff]. *)

Lemma pow2_pos e : (0 < pow2 e)%Q.
Proof. apply Qpower_0_lt. reflexivity. Qed.

Lemma pow2_add a b : (pow2 (a + b) == pow2 a * pow2 b)%Q.
Proof. apply Qpower_plus. discriminate. Qed.

Lemma pow2_1 : (pow2 1 == 2)%Q.
Proof. reflexivity. Qed.

Lemma pow2_m1 : (pow2 (-1) == 1 # 2)%Q.
Proof. reflexivity. Qed.

Lemma pow2_0 : (pow2 0 == 1)%Q.
Proof. reflexivity. Qed.

Lemma pow2_Z n : 0 <= n -> (pow2 n == inject_Z (2 ^ n))%Q.
Proof. intros H. unfold pow2. now rewrite Zpower_Qpower. Qed.

Lemma inject_xO p : (inject_Z (Zpos p~0) == 2 * inject_Z (Zpos p))%Q.
Proof. rewrite Pos2Z.inj_xO, inject_Z_mult. reflexivity. Qed.

Lemma inject_xI p : (inject_Z (Zpos p~1) == 2 * inject_Z (Zpos p) + 1)%Q.
Proof. rewrite Pos2Z.inj_xI, inject_Z_plus, inject_Z_mult. reflexivity. Qed.

(** One shift to the right of a mantissa with its round and sticky bits. *)
Lemma shr_1_eq m r s :
  0 <= m -> shr_1 (Build_shr_record m r s) = Build_shr_record (m / 2) (Z.odd m) (r || s).
Proof.
  intros Hm. destruct m as [|p|p]; [reflexivity| |lia].
  destruct p as [p|p|]; cbn [shr_1 Z.odd]; f_equal.
  - rewrite Pos2Z.inj_xI. apply Z.div_unique with 1; lia.
  - rewrite Pos2Z.inj_xO. apply Z.div_unique with 0; lia.
Qed.

Lemma inject_half m :
  (inject_Z m == 2 * inject_Z (m / 2) + (if Z.odd m then 1 else 0))%Q.
Proof.
  rewrite (Z.div_mod m 2) at 1 by lia. rewrite Zmod_odd.
  rewrite inject_Z_plus, inject_Z_mult. destruct (Z.odd m); reflexivity.
Qed.

(** Shifting keeps track of the value: the record that stood for [v]
    stands for [v / 2]. *)
Lemma shr_1_repr v mrs : repr v mrs -> repr (v * (1 # 2)) (shr_1 mrs).
Proof.
  destruct mrs as [m r s]. unfold repr. cbn [shr_m]. intros [Hm H].
  rewrite shr_1_eq by exact Hm. cbn [shr_m].
  split; [apply Z.div_pos; lia|].
  pose proof (inject_half m) as E. revert H E.
  destruct (Z.odd m), r, s; cbn [loc_of_shr_record orb inloc]; intros H E; lra.
Qed.

Lemma shr_1_m mrs : 0 <= shr_m mrs -> shr_m (shr_1 mrs) = shr_m mrs / 2.
Proof.
  destruct mrs as [m r s]. cbn [shr_m]. intros Hm.
  now rewrite shr_1_eq.
Qed.

Lemma iter_shr_repr p : forall v mrs,
  repr v mrs -> repr (v * pow2 (- Zpos p)) (SpecFloat.iter_pos shr_1 p mrs).
Proof.
  induction p as [p IH|p IH|]; intros v mrs H; cbn [SpecFloat.iter_pos].
  - apply shr_1_repr, IH, IH in H. destruct H as [H0 H]. split; [exact H0|].
    revert H. generalize (loc_of_shr_record (SpecFloat.iter_pos shr_1 p (SpecFloat.iter_pos shr_1 p (shr_1 mrs)))).
    generalize (shr_m (SpecFloat.iter_pos shr_1 p (SpecFloat.iter_pos shr_1 p (shr_1 mrs)))).
    intros m l H.
    assert (E : (v * (1 # 2) * pow2 (- Z.pos p) * pow2 (- Z.pos p) == v * pow2 (- Z.pos p~1))%Q).
    { replace (- Z.pos p~1) with (-1 + (- Z.pos p + - Z.pos p)) by lia.
      rewrite !pow2_add, pow2_m1. ring. }
    destruct l as [|[]]; cbn [inloc] in *; rewrite <- E; exact H.
  - apply IH, IH in H. destruct H as [H0 H]. split; [exact H0|].
    revert H. generalize (loc_of_shr_record (SpecFloat.iter_pos shr_1 p (SpecFloat.iter_pos shr_1 p mrs))).
    generalize (shr_m (SpecFloat.iter_pos shr_1 p (SpecFloat.iter_pos shr_1 p mrs))).
    intros m l H.
    assert (E : (v * pow2 (- Z.pos p) * pow2 (- Z.pos p) == v * pow2 (- Z.pos p~0))%Q).
    { replace (- Z.pos p~0) with (- Z.pos p + - Z.pos p) by lia.
      rewrite !pow2_add. ring. }
    destruct l as [|[]]; cbn [inloc] in *; rewrite <- E; exact H.
  - apply shr_1_repr in H. exact H.
Qed.

Lemma iter_shr_m p : forall mrs,
  0 <= shr_m mrs -> shr_m (SpecFloat.iter_pos shr_1 p mrs) = shr_m mrs / 2 ^ Zpos p.
Proof.
  induction p as [p IH|p IH|]; intros mrs H; cbn [SpecFloat.iter_pos].
  - assert (H1 : 0 <= shr_m (shr_1 mrs)) by (rewrite shr_1_m by exact H; apply Z.div_pos; lia).
    assert (H2 : 0 <= shr_m (SpecFloat.iter_pos shr_1 p (shr_1 mrs)))
      by (rewrite IH by exact H1; apply Z.div_pos; lia).
    rewrite IH, IH, shr_1_m by assumption.
    rewrite !Z.div_div by lia. f_equal.
    replace (Z.pos p~1) with (1 + Z.pos p + Z.pos p) by lia.
    rewrite !Z.pow_add_r by lia. change (2 ^ 1) with 2. ring.
  - assert (H2 : 0 <= shr_m (SpecFloat.iter_pos shr_1 p mrs))
      by (rewrite IH by exact H; apply Z.div_pos; lia).
    rewrite IH, IH by assumption.
    rewrite !Z.div_div by lia. f_equal.
    replace (Z.pos p~0) with (Z.pos p + Z.pos p) by lia.
    rewrite !Z.pow_add_r by lia. change (2 ^ 1) with 2. ring.
  - rewrite shr_1_m by exact H. reflexivity.
Qed.

Ltac hide_pow :=
  repeat match goal with
         | |- context [Z.pow 2 ?x] =>
             let y := fresh "pw" in set (y := Z.pow 2 x) in *; clearbody y
         | H : context [Z.pow 2 ?x] |- _ =>
             let y := fresh "pw" in set (y := Z.pow 2 x) in *; clearbody y
         end.

Lemma fexp_eq e : fexp prec emax e = Z.max (e - 53) (-1074).
Proof. reflexivity. Qed.

(** The number of binary digits. *)
Lemma digits2_pos_spec p :
  2 ^ (Zpos (digits2_pos p) - 1) <= Zpos p < 2 ^ Zpos (digits2_pos p).
Proof.
  induction p as [p IH|p IH|]; cbn [digits2_pos].
  - rewrite Pos2Z.inj_succ, Pos2Z.inj_xI.
    replace (Z.succ (Zpos (digits2_pos p)) - 1) with (Z.succ (Zpos (digits2_pos p) - 1)) by lia.
    rewrite !Z.pow_succ_r by lia. hide_pow. lia.
  - rewrite Pos2Z.inj_succ.
    replace (Z.succ (Zpos (digits2_pos p)) - 1) with (Z.succ (Zpos (digits2_pos p) - 1)) by lia.
    rewrite !Z.pow_succ_r by lia. hide_pow. lia.
  - cbn. lia.
Qed.

Lemma Zdigits2_nonneg m : 0 <= Zdigits2 m.
Proof. destruct m; cbn; lia. Qed.

Lemma Zdigits2_le m k : 0 <= m -> 0 <= k -> m < 2 ^ k -> Zdigits2 m <= k.
Proof.
  intros Hm Hk H. destruct m as [|p|p]; [exact Hk| |lia].
  cbn [Zdigits2]. pose proof (digits2_pos_spec p) as [L _].
  assert (2 ^ (Zpos (digits2_pos p) - 1) < 2 ^ k) by lia.
  apply Z.pow_lt_mono_r_iff in H0; lia.
Qed.

Lemma Zdigits2_pow k : 0 <= k -> Zdigits2 (2 ^ k) = k + 1.
Proof.
  intros Hk. assert (0 < 2 ^ k) by (apply Z.pow_pos_nonneg; lia).
  destruct (2 ^ k) as [|p|p] eqn:E; try lia.
  cbn [Zdigits2]. pose proof (digits2_pos_spec p) as [L U]. rewrite <- E in L, U.
  apply Z.pow_le_mono_r_iff in L; [|lia|lia].
  apply Z.pow_lt_mono_r_iff in U; lia.
Qed.

Lemma loc_of_record_of_loc m l :
  loc_of_shr_record (shr_record_of_loc m l) = l /\ shr_m (shr_record_of_loc m l) = m.
Proof. destruct l as [|[]]; split; reflexivity. Qed.

Lemma repr_scale v v' mrs : (v == v')%Q -> repr v mrs -> repr v' mrs.
Proof.
  intros E [H0 H]. split; [exact H0|].
  destruct (loc_of_shr_record mrs) as [|[]]; cbn [inloc] in *; rewrite <- E; exact H.
Qed.

Lemma shr_spec V mrs e n mrs' e' :
  shr mrs e n = (mrs', e') ->
  repr (V * pow2 (- e)) mrs ->
  repr (V * pow2 (- e')) mrs' /\ e' = e + Z.max n 0 /\
  shr_m mrs' = shr_m mrs / 2 ^ Z.max n 0.
Proof.
  intros E R. destruct n as [|p|p]; cbn [shr] in E; injection E as <- <-.
  - rewrite Z.add_0_r. cbn. rewrite Z.div_1_r. auto.
  - split; [|split; [lia|]].
    + apply (repr_scale (V * pow2 (- e) * pow2 (- Zpos p))).
      { replace (- (e + Zpos p)) with (- e + - Zpos p) by lia. rewrite pow2_add. ring. }
      now apply iter_shr_repr.
    + rewrite Z.max_l by lia. apply iter_shr_m, R.
  - rewrite Z.max_r by lia. rewrite Z.add_0_r. cbn. rewrite Z.div_1_r. auto.
Qed.

(** Rounding to nearest moves the value by at most one half. *)
Lemma round_nearest v mrs :
  repr v mrs ->
  let m' := round_nearest_even (shr_m mrs) (loc_of_shr_record mrs) in
  shr_m mrs <= m' <= shr_m mrs + 1 /\
  (Qabs (inject_Z m' - v) <= 1 # 2)%Q.
Proof.
  intros [H0 H]. cbn zeta. revert H.
  generalize (loc_of_shr_record mrs). generalize (shr_m mrs). intros m l H.
  assert (E1 : (inject_Z (m + 1) == inject_Z m + 1)%Q)
    by (rewrite inject_Z_plus; reflexivity).
  destruct l as [|[]]; cbn [round_nearest_even inloc] in *.
  - split; [lia|]. apply Qabs_Qle_condition. lra.
  - destruct (Z.even m); (split; [lia|]); apply Qabs_Qle_condition; lra.
  - split; [lia|]. apply Qabs_Qle_condition. lra.
  - split; [lia|]. apply Qabs_Qle_condition. lra.
Qed.

(** The second normalisation of [binary_round_aux] loses nothing. *)
Lemma shr_fexp_exact m e k mrs e' :
  0 <= k -> 0 <= m <= 2 ^ k -> fexp prec emax (k + e) <= e ->
  shr_fexp prec emax m e loc_Exact = (mrs, e') ->
  e <= e' /\ shr_m mrs * 2 ^ (e' - e) = m.
Proof.
  intros Hk Hm Hf E. unfold shr_fexp in E. cbn [shr_record_of_loc] in E.
  rewrite fexp_eq in *.
  assert (Hd : Zdigits2 m <= k + 1).
  { destruct (Z.eq_dec m (2 ^ k)) as [->|Hne].
    - rewrite Zdigits2_pow; lia.
    - assert (Zdigits2 m <= k) by (apply Zdigits2_le; lia). lia. }
  destruct (Z.eq_dec m (2 ^ k)) as [->|Hne].
  - rewrite Zdigits2_pow in E by lia.
    destruct (Z.max (k + 1 + e - 53) (-1074) - e) as [|p|p] eqn:En; cbn [shr] in E;
      injection E as <- <-; cbn [shr_m].
    + rewrite Z.sub_diag. lia.
    + assert (Zpos p = 1) by lia. injection H as ->. cbn [SpecFloat.iter_pos].
      assert (1 <= k) by lia.
      rewrite shr_1_eq by (apply Z.pow_nonneg; lia). cbn [shr_m].
      replace (e + 1 - e) with 1 by lia. split; [lia|].
      assert (E2 : 2 ^ k = 2 ^ (k - 1) * 2).
      { replace k with (Z.succ (k - 1)) at 1 by lia.
        rewrite Z.pow_succ_r by lia. ring. }
      rewrite E2 at 1. rewrite Z.div_mul by lia. rewrite E2. reflexivity.
    + rewrite Z.sub_diag. lia.
  - assert (Zdigits2 m <= k) by (apply Zdigits2_le; lia).
    destruct (Z.max (Zdigits2 m + e - 53) (-1074) - e) as [|p|p] eqn:En; cbn [shr] in E;
      injection E as <- <-; cbn [shr_m]; try lia.
    all: rewrite Z.sub_diag; lia.
Qed.

(** The rounding of [V], given as a mantissa, an exponent and the place of
    [V] above the mantissa: a finite result [m * 2^e] is within half a unit
    in the last place of [V]. *)
Lemma binary_round_aux_spec s mx ex lx V s' m e :
  0 <= mx -> inloc (V * pow2 (- ex)) mx lx ->
  binary_round_aux prec emax s mx ex lx = S754_finite s' m e ->
  s' = s /\
  (Qabs (inject_Z (Zpos m) * pow2 e - V) <= (1 # 2) * pow2 e)%Q.
Proof.
  intros Hmx Hin. unfold binary_round_aux.
  destruct (shr_fexp prec emax mx ex lx) as [mrs1 e1] eqn:E1.
  destruct (shr_fexp prec emax
              (round_nearest_even (shr_m mrs1) (loc_of_shr_record mrs1)) e1 loc_Exact)
    as [mrs2 e2] eqn:E2.
  unfold shr_fexp in E1.
  remember (fexp prec emax (Zdigits2 mx + ex) - ex) as n eqn:Hn.
  rewrite fexp_eq in Hn.
  destruct (loc_of_record_of_loc mx lx) as [Hl Hm0].
  apply (shr_spec V) in E1 as (R1 & He1 & Hm1);
    [|split; [rewrite Hm0; exact Hmx|rewrite Hl, Hm0; exact Hin]].
  rewrite Hm0 in Hm1.
  destruct (round_nearest _ _ R1) as [Hr Hq]. cbn zeta in Hr, Hq.
  set (m2 := round_nearest_even (shr_m mrs1) (loc_of_shr_record mrs1)) in *.
  assert (Hfit : exists k, 0 <= k /\ shr_m mrs1 < 2 ^ k /\
                           Z.max (k + e1 - 53) (-1074) <= e1).
  { set (d := Zdigits2 mx) in *.
    assert (Hd0 : 0 <= d) by apply Zdigits2_nonneg.
    assert (Hd : mx < 2 ^ d).
    { destruct mx as [|p|p]; [cbn; lia| |lia]. apply digits2_pos_spec. }
    destruct (Z_le_gt_dec n 0) as [Hn0|Hn0].
    - exists d. rewrite Hm1. rewrite Z.max_r in * by lia.
      change (2 ^ 0) with 1. rewrite Z.div_1_r. repeat split; lia.
    - rewrite Z.max_l in * by lia.
      destruct (Z_le_gt_dec n d) as [Hle|Hgt].
      + exists (d - n). split; [lia|]. split; [|lia].
        rewrite Hm1. apply Z.div_lt_upper_bound; [apply Z.pow_pos_nonneg; lia|].
        rewrite <- Z.pow_add_r by lia. replace (n + (d - n)) with d by lia.
        exact Hd.
      + exists 0. split; [lia|]. split; [|lia].
        rewrite Hm1. rewrite Z.div_small; [cbn; lia|]. split; [lia|].
        eapply Z.lt_le_trans; [exact Hd|]. apply Z.pow_le_mono_r; lia. }
  destruct Hfit as (k & Hk & Hlt & Hf).
  destruct R1 as [Hnn1 _].
  apply (shr_fexp_exact _ _ k) in E2 as [Hle He2];
    [|exact Hk|lia|rewrite fexp_eq; exact Hf].
  destruct (shr_m mrs2) as [|p|p] eqn:Em2; try discriminate.
  destruct (e2 <=? emax - prec); [|discriminate].
  intros H. injection H as <- <- <-. split; [reflexivity|].
  assert (Epe : (pow2 e2 == inject_Z (2 ^ (e2 - e1)) * pow2 e1)%Q).
  { rewrite <- pow2_Z by lia. rewrite <- pow2_add.
    replace (e2 - e1 + e1) with e2 by lia. reflexivity. }
  assert (Ev : (inject_Z (Z.pos p) * pow2 e2 == inject_Z m2 * pow2 e1)%Q).
  { rewrite <- He2. rewrite inject_Z_mult, Epe. ring. }
  rewrite Ev.
  assert (Ep : (pow2 e1 <= pow2 e2)%Q).
  { rewrite Epe.
    assert (0 < 2 ^ (e2 - e1)) by (apply Z.pow_pos_nonneg; lia).
    assert (1 <= 2 ^ (e2 - e1)) by lia.
    assert (1 <= inject_Z (2 ^ (e2 - e1)))%Q
      by (change 1%Q with (inject_Z 1); rewrite <- Zle_Qle; assumption).
    pose proof (pow2_pos e1). nra. }
  assert (E1' : (pow2 (- e1) * pow2 e1 == 1)%Q).
  { rewrite <- pow2_add. replace (- e1 + e1) with 0 by lia. reflexivity. }
  pose proof (pow2_pos e1) as P1. pose proof (pow2_pos (- e1)) as P1'.
  apply Qabs_Qle_condition in Hq. apply Qabs_Qle_condition.
  revert Hq E1' Ep P1 P1'.
  generalize (pow2 e1) (pow2 (- e1)) (pow2 e2) (inject_Z m2). intros a a' b x Hq E Ep Pa Pa'.
  assert (Hx : (x * a - V == (x - V * a') * a)%Q).
  { transitivity (x * a - V * (a' * a))%Q; [rewrite E|]; ring. }
  rewrite Hx. nra.
Qed.





(** For a normal number, half a unit in the last place is at most
    [unit_roundoff] times the number. *)
Lemma half_ulp_relative m e :
  2 ^ 52 <= Zpos m ->
  ((1 # 2) * pow2 e <= unit_roundoff * (inject_Z (Zpos m) * pow2 e))%Q.
Proof.
  intros H. pose proof (pow2_pos e) as P.
  assert (H' : (inject_Z (2 ^ 52) <= inject_Z (Zpos m))%Q) by (rewrite <- Zle_Qle; exact H).
  assert (E : ((1 # 2) == unit_roundoff * inject_Z (2 ^ 52))%Q) by reflexivity.
  revert H' E P. generalize (inject_Z (2 ^ 52)) (inject_Z (Zpos m)) (pow2 e).
  intros a b c H' E P.
  assert (U : (0 < unit_roundoff)%Q) by reflexivity.
  rewrite E. revert U. generalize unit_roundoff. intros u U.
  assert (a * c <= b * c)%Q by nra.
  rewrite <- Qmult_assoc. nra.
Qed.

Lemma Qabs_sign (s : bool) (a b : Q) :
  (Qabs ((if s then - a else a) - (if s then - b else b)) == Qabs (a - b))%Q.
Proof.
  destruct s; [|reflexivity].
  rewrite <- (Qabs_opp (a - b)). apply Qabs_wd. ring.
Qed.

Lemma fmul_half_ulp x y s m e :
  fmul x y = S754_finite s m e ->
  (Qabs (F2Q x * F2Q y - F2Q (fmul x y)) <= (1 # 2) * pow2 e)%Q.
Proof.
  intros H. rewrite H.
  destruct x as [sx|sx| |sx mx ex], y as [sy|sy| |sy my ey]; try discriminate.
  unfold fmul in H. cbn [SFmul] in H.
  apply (binary_round_aux_spec _ _ _ _
           (inject_Z (Zpos (mx * my)) * pow2 (ex + ey))) in H as [-> H]; [|lia|].
  - cbn [F2Q].
    rewrite Pos2Z.inj_mul, inject_Z_mult, pow2_add in H.
    revert H. generalize (inject_Z (Zpos mx)) (inject_Z (Zpos my)) (inject_Z (Zpos m))
                         (pow2 ex) (pow2 ey) (pow2 e).
    intros a b c pa pb pc H.
    rewrite Qabs_Qminus in H.
    destruct sx, sy; cbn [xorb];
      (eapply Qle_trans; [|exact H]); apply Qle_lteq; right; 
      [ | rewrite <- (Qabs_opp (a * b * (pa * pb) - c * pc)) | rewrite <- (Qabs_opp (a * b * (pa * pb) - c * pc)) | ];
      apply Qabs_wd; ring.
  - cbn [inloc].
    assert (E : (pow2 (ex + ey) * pow2 (- (ex + ey)) == 1)%Q).
    { rewrite <- pow2_add. replace (ex + ey + - (ex + ey)) with 0 by lia. reflexivity. }
    rewrite <- Qmult_assoc, E. ring.
Qed.

(** A product that is a normal number is the exact product up to
    [unit_roundoff]. *)
Theorem fmul_error x y :
  normal (fmul x y) = true ->
  (Qabs (F2Q x * F2Q y - F2Q (fmul x y)) <= unit_roundoff * Qabs (F2Q (fmul x y)))%Q.
Proof.
  intros Hn. destruct (fmul x y) as [| | |s m e] eqn:E; try discriminate.
  cbn [normal] in Hn. apply Z.leb_le in Hn.
  pose proof (fmul_half_ulp _ _ _ _ _ E) as H. rewrite E in H.
  eapply Qle_trans; [exact H|].
  eapply Qle_trans; [apply half_ulp_relative; exact Hn|].
  apply Qle_lteq. right. cbn [F2Q].
  pose proof (pow2_pos e) as P.
  assert (0 < inject_Z (Zpos m))%Q by (change 0%Q with (inject_Z 0); rewrite <- Zlt_Qlt; lia).
  rewrite Qabs_Qmult. rewrite (Qabs_pos (pow2 e)) by lra.
  destruct s.
  - rewrite Qabs_opp, Qabs_pos by lra. reflexivity.
  - rewrite Qabs_pos by lra. reflexivity.
Qed.

(** The place of the exact quotient above the integer quotient, from the
    remainder. *)
Lemma new_location_spec n r :
  0 < n -> 0 <= r < n ->
  match new_location n r with
  | loc_Exact => r = 0
  | loc_Inexact Lt => 0 < r /\ 2 * r < n
  | loc_Inexact Eq => 2 * r = n
  | loc_Inexact Gt => n < 2 * r
  end.
Proof.
  intros Hn Hr. unfold new_location.
  destruct (Z.even n) eqn:En.
  - unfold new_location_even. destruct (Z.eqb_spec r 0) as [->|Hne]; [reflexivity|].
    destruct (Z.compare_spec (2 * r) n); lia.
  - unfold new_location_odd. destruct (Z.eqb_spec r 0) as [->|Hne]; [reflexivity|].
    assert (Ho : Z.odd n = true) by (rewrite <- Z.negb_even, En; reflexivity).
    apply Z.odd_spec in Ho as [k ->].
    destruct (Z.compare_spec (2 * r + 1) (2 * k + 1)); lia.
Qed.

Lemma div_core_spec mx ex my ey q e' l :
  SFdiv_core_binary prec emax (Zpos mx) ex (Zpos my) ey = (q, e', l) ->
  0 <= q /\
  inloc (inject_Z (Zpos mx) * pow2 (ex - ey) / inject_Z (Zpos my) * pow2 (- e')) q l.
Proof.
  unfold SFdiv_core_binary.
  set (e0 := Z.min (fexp prec emax (Zdigits2 (Zpos mx) + ex - (Zdigits2 (Zpos my) + ey)))
                   (ex - ey)).
  assert (Hs : 0 <= ex - ey - e0) by (unfold e0; lia).
  set (m' := match ex - ey - e0 with
             | 0 => Zpos mx
             | Zpos _ => Z.shiftl (Zpos mx) (ex - ey - e0)
             | Zneg _ => 0
             end).
  assert (Hm' : m' = Zpos mx * 2 ^ (ex - ey - e0)).
  { unfold m'. destruct (ex - ey - e0) as [|p|p] eqn:Es; [cbn; lia| |lia].
    rewrite Z.shiftl_mul_pow2 by lia. reflexivity. }
  clearbody m'.
  pose proof (Z_div_mod m' (Zpos my) eq_refl) as D.
  destruct (Z.div_eucl m' (Zpos my)) as [q0 r0]. destruct D as [D Hr].
  intros H. injection H as <- <- <-.
  assert (Hq : 0 <= q0).
  { assert (0 <= m') by (rewrite Hm'; apply Z.mul_nonneg_nonneg; [lia|apply Z.pow_nonneg; lia]).
    nia. }
  split; [exact Hq|].
  pose proof (new_location_spec (Zpos my) r0 eq_refl Hr) as L.
  assert (Eq : (inject_Z (Zpos mx) * pow2 (ex - ey) * pow2 (- e0)
                == inject_Z (Zpos my) * inject_Z q0 + inject_Z r0)%Q).
  { rewrite <- inject_Z_mult, <- inject_Z_plus, <- D, Hm', inject_Z_mult.
    rewrite <- pow2_Z by exact Hs. rewrite <- Qmult_assoc, <- pow2_add.
    replace (ex - ey + - e0) with (ex - ey - e0) by lia. reflexivity. }
  assert (Hb : (0 < inject_Z (Zpos my))%Q)
    by (change 0%Q with (inject_Z 0); rewrite <- Zlt_Qlt; lia).
  assert (Ev : (inject_Z (Zpos mx) * pow2 (ex - ey) / inject_Z (Zpos my) * pow2 (- e0)
                == inject_Z q0 + inject_Z r0 / inject_Z (Zpos my))%Q).
  { transitivity ((inject_Z (Zpos mx) * pow2 (ex - ey) * pow2 (- e0)) / inject_Z (Zpos my))%Q.
    - field. lra.
    - rewrite Eq. field. lra. }
  assert (Hr0 : (0 <= inject_Z r0)%Q)
    by (change 0%Q with (inject_Z 0); rewrite <- Zle_Qle; lia).
  destruct (new_location (Zpos my) r0) as [|[]]; cbn [inloc]; rewrite Ev.
  - subst r0. change (inject_Z 0) with 0%Q. field. lra.
  - assert (inject_Z (2 * r0) == inject_Z (Zpos my))%Q by (rewrite L; reflexivity).
    rewrite inject_Z_mult in H. change (inject_Z 2) with 2%Q in H.
    transitivity (inject_Z q0 + (inject_Z (Zpos my) / 2) / inject_Z (Zpos my))%Q.
    + rewrite <- H. field. lra.
    + field. lra.
  - destruct L as [L1 L2].
    assert (H1 : (0 < inject_Z r0)%Q) by (change 0%Q with (inject_Z 0); rewrite <- Zlt_Qlt; lia).
    assert (H2 : (inject_Z (2 * r0) < inject_Z (Zpos my))%Q) by (rewrite <- Zlt_Qlt; lia).
    rewrite inject_Z_mult in H2. change (inject_Z 2) with 2%Q in H2.
    split.
    + assert (0 < inject_Z r0 / inject_Z (Zpos my))%Q by (apply Qlt_shift_div_l; lra). lra.
    + assert (inject_Z r0 / inject_Z (Zpos my) < 1 # 2)%Q by (apply Qlt_shift_div_r; lra). lra.
  - assert (H2 : (inject_Z (Zpos my) < inject_Z (2 * r0))%Q) by (rewrite <- Zlt_Qlt; lia).
    rewrite inject_Z_mult in H2. change (inject_Z 2) with 2%Q in H2.
    assert (H3 : (inject_Z r0 < inject_Z (Zpos my))%Q) by (rewrite <- Zlt_Qlt; lia).
    split.
    + assert ((1 # 2) < inject_Z r0 / inject_Z (Zpos my))%Q by (apply Qlt_shift_div_l; lra). lra.
    + assert (inject_Z r0 / inject_Z (Zpos my) < 1)%Q by (apply Qlt_shift_div_r; lra). lra.
Qed.

(** A quotient that is a normal number, multiplied by the divisor, is the
    dividend up to [unit_roundoff]. *)
Theorem fdiv_error x y :
  normal (fdiv x y) = true ->
  (Qabs (F2Q x - F2Q (fdiv x y) * F2Q y)
   <= unit_roundoff * Qabs (F2Q (fdiv x y) * F2Q y))%Q.
Proof.
  intros Hn. destruct (fdiv x y) as [| | |s m e] eqn:E; try discriminate.
  cbn [normal] in Hn. apply Z.leb_le in Hn.
  destruct x as [sx|sx| |sx mx ex], y as [sy|sy| |sy my ey]; try discriminate.
  unfold fdiv in E. cbn [SFdiv] in E.
  destruct (SFdiv_core_binary prec emax (Zpos mx) ex (Zpos my) ey) as [[q e'] l] eqn:Ec.
  apply div_core_spec in Ec as [Hq Hin].
  apply (binary_round_aux_spec _ _ _ _ _ _ _ _ Hq Hin) in E as [-> H].
  pose proof (half_ulp_relative m e Hn) as Hu.
  cbn [F2Q].
  assert (Ep : (pow2 (ex - ey) * pow2 ey == pow2 ex)%Q).
  { rewrite <- pow2_add. replace (ex - ey + ey) with ex by lia. reflexivity. }
  assert (Ha : (0 < inject_Z (Zpos mx))%Q) by (change 0%Q with (inject_Z 0); rewrite <- Zlt_Qlt; lia).
  assert (Hb : (0 < inject_Z (Zpos my))%Q) by (change 0%Q with (inject_Z 0); rewrite <- Zlt_Qlt; lia).
  assert (Hc : (0 < inject_Z (Zpos m))%Q) by (change 0%Q with (inject_Z 0); rewrite <- Zlt_Qlt; lia).
  pose proof (pow2_pos ex) as Pa. pose proof (pow2_pos ey) as Pb. pose proof (pow2_pos e) as Pc.
  pose proof (pow2_pos (ex - ey)) as Pd.
  revert H Hu Ep Ha Hb Hc Pa Pb Pc Pd.
  generalize (inject_Z (Zpos mx)) (inject_Z (Zpos my)) (inject_Z (Zpos m))
             (pow2 ex) (pow2 ey) (pow2 e) (pow2 (ex - ey)) unit_roundoff.
  intros a b c pa pb pc pd u H Hu Ep Ha Hb Hc Pa Pb Pc Pd.
  assert (Hmag : (Qabs (a * pa - c * pc * (b * pb)) <= u * (c * pc * (b * pb)))%Q).
  { assert (Hv : (a * pa - c * pc * (b * pb) == - (c * pc - a * pd / b) * (b * pb))%Q).
    { rewrite <- Ep. field. lra. }
    rewrite Hv, Qabs_Qmult, Qabs_opp.
    assert (0 < b * pb)%Q by nra.
    rewrite (Qabs_pos (b * pb)) by lra.
    assert (Qabs (c * pc - a * pd / b) <= u * (c * pc))%Q
      by (eapply Qle_trans; [exact H|exact Hu]).
    revert H1 H0. generalize (Qabs (c * pc - a * pd / b)) (b * pb)%Q (c * pc)%Q.
    intros t1 t2 t3 H1 H0.
    apply Qle_trans with (u * t3 * t2)%Q;
      [apply Qmult_le_compat_r; lra|apply Qle_lteq; right; ring]. }
  assert (Hpos : (0 <= c * pc * (b * pb))%Q)
    by (apply Qlt_le_weak; repeat apply Qmult_lt_0_compat; assumption).
  destruct sx, sy; cbn [xorb].
  - eapply Qle_trans; [|eapply Qle_trans; [exact Hmag|]].
    + apply Qle_lteq. right. rewrite <- (Qabs_opp (a * pa - c * pc * (b * pb))).
      apply Qabs_wd. ring.
    + apply Qle_lteq. right. rewrite <- (Qabs_pos (c * pc * (b * pb))) at 1 by exact Hpos.
      rewrite <- (Qabs_opp (c * pc * (b * pb))).
      apply Qmult_comp; [reflexivity|]. apply Qabs_wd. ring.
  - eapply Qle_trans; [|eapply Qle_trans; [exact Hmag|]].
    + apply Qle_lteq. right. rewrite <- (Qabs_opp (a * pa - c * pc * (b * pb))).
      apply Qabs_wd. ring.
    + apply Qle_lteq. right. rewrite <- (Qabs_pos (c * pc * (b * pb))) at 1 by exact Hpos.
      rewrite <- (Qabs_opp (c * pc * (b * pb))).
      apply Qmult_comp; [reflexivity|]. apply Qabs_wd. ring.
  - eapply Qle_trans; [|eapply Qle_trans; [exact Hmag|]].
    + apply Qle_lteq. right. apply Qabs_wd. ring.
    + apply Qle_lteq. right. rewrite <- (Qabs_pos (c * pc * (b * pb))) at 1 by exact Hpos.
      apply Qmult_comp; [reflexivity|]. apply Qabs_wd. ring.
  - eapply Qle_trans; [|eapply Qle_trans; [exact Hmag|]].
    + apply Qle_lteq. right. apply Qabs_wd. ring.
    + apply Qle_lteq. right. rewrite <- (Qabs_pos (c * pc * (b * pb))) at 1 by exact Hpos.
      apply Qmult_comp; [reflexivity|]. apply Qabs_wd. ring.
Qed.

(** A finite number divided by itself is exactly 1. *)
Lemma fdiv_self s m e : fdiv (S754_finite s m e) (S754_finite s m e) = one.
Proof.
  unfold fdiv. cbn [SFdiv]. unfold SFdiv_core_binary.
  replace (Zdigits2 (Zpos m) + e - (Zdigits2 (Zpos m) + e)) with 0 by lia.
  replace (e - e) with 0 by lia.
  change (Z.min (fexp prec emax 0) 0) with (-53).
  change (0 - -53) with 53. cbv iota beta.
  rewrite Z.shiftl_mul_pow2 by lia.
  assert (E : Z.div_eucl (Zpos m * 2 ^ 53) (Zpos m) = (2 ^ 53, 0)).
  { rewrite (surjective_pairing (Z.div_eucl _ _)).
    change (fst (Z.div_eucl (Zpos m * 2 ^ 53) (Zpos m))) with ((Zpos m * 2 ^ 53) / Zpos m).
    change (snd (Z.div_eucl (Zpos m * 2 ^ 53) (Zpos m))) with ((Zpos m * 2 ^ 53) mod Zpos m).
    rewrite Z.mul_comm, Z.div_mul, Z.mod_mul by lia. reflexivity. }
  rewrite E, xorb_nilpotent.
  unfold new_location. destruct (Z.even (Zpos m)); reflexivity.
Qed.

(** *** Relative errors *)

#[global] Instance close_proper : Proper (Qeq ==> Qeq ==> Qeq ==> iff) close.
Proof.
  intros k k' Hk a a' Ha b b' Hb. unfold close. now rewrite Hk, Ha, Hb.
Qed.

Lemma close_trans u v a b c :
  (0 <= u)%Q -> close u a b -> close v b c -> close (u + v + u * v) a c.
Proof.
  unfold close. intros Hu Hab Hbc.
  assert (T1 : (Qabs (a - c) <= Qabs (a - b) + Qabs (b - c))%Q).
  { setoid_replace (a - c)%Q with ((a - b) + (b - c))%Q using relation Qeq by ring. apply Qabs_triangle. }
  assert (T2 : (Qabs b <= Qabs c + Qabs (b - c))%Q).
  { setoid_replace b with (c + (b - c))%Q using relation Qeq at 1 by ring. apply Qabs_triangle. }
  pose proof (Qabs_nonneg c) as Nc.
  revert T1 T2 Hab Hbc Nc.
  generalize (Qabs (a - c)) (Qabs (a - b)) (Qabs (b - c)) (Qabs b) (Qabs c).
  intros x1 x2 x3 x4 x5 T1 T2 Hab Hbc Nc.
  assert (u * x4 <= u * (x5 + v * x5))%Q
    by (rewrite !(Qmult_comm u); apply Qmult_le_compat_r; lra).
  lra.
Qed.

Lemma close_weaken k k' a b : (k <= k')%Q -> close k a b -> close k' a b.
Proof.
  unfold close. intros Hk H. pose proof (Qabs_nonneg b) as Nb.
  eapply Qle_trans; [exact H|]. apply Qmult_le_compat_r; assumption.
Qed.

Lemma close_scale k a b c : close k a b -> close k (a * c) (b * c).
Proof.
  unfold close. intros H.
  setoid_replace (a * c - b * c)%Q with ((a - b) * c)%Q using relation Qeq by ring.
  rewrite !Qabs_Qmult, Qmult_assoc.
  apply Qmult_le_compat_r; [exact H|apply Qabs_nonneg].
Qed.

Lemma close_cancel k a b c : ~ (c == 0)%Q -> close k (a * c) (b * c) -> close k a b.
Proof.
  intros Hc H. apply (close_scale _ _ _ (/ c)) in H.
  revert H. apply close_proper; [reflexivity| |]; field; exact Hc.
Qed.

Lemma fmul_close x y :
  normal (fmul x y) = true -> close unit_roundoff (F2Q x * F2Q y) (F2Q (fmul x y)).
Proof. apply fmul_error. Qed.

Lemma fdiv_close x y :
  normal (fdiv x y) = true -> close unit_roundoff (F2Q x) (F2Q (fdiv x y) * F2Q y).
Proof. apply fdiv_error. Qed.

Lemma normal_finite x : normal x = true -> exists s m e, x = S754_finite s m e.
Proof. destruct x; try discriminate. eauto. Qed.

Lemma F2Q_finite_nonzero s m e : ~ (F2Q (S754_finite s m e) == 0)%Q.
Proof.
  cbn [F2Q]. pose proof (pow2_pos e) as P.
  assert (0 < inject_Z (Zpos m))%Q by (change 0%Q with (inject_Z 0); rewrite <- Zlt_Qlt; lia).
  intros E. destruct s; nra.
Qed.

Lemma fdiv_normal_divisor x y :
  normal (fdiv x y) = true -> exists s m e, y = S754_finite s m e.
Proof.
  destruct x as [sx|sx| |sx mx ex], y as [sy|sy| |sy my ey]; try discriminate; eauto.
Qed.

(** [(a / r) * r] is [a] up to two roundings. *)
Lemma fmul_fdiv_close a r :
  normal (fdiv a r) = true -> normal (fmul (fdiv a r) r) = true ->
  close (1 # 2 ^ 51) (F2Q a) (F2Q (fmul (fdiv a r) r)).
Proof.
  intros H1 H2.
  apply (close_weaken (unit_roundoff + unit_roundoff + unit_roundoff * unit_roundoff));
    [vm_compute; discriminate|].
  eapply close_trans; [vm_compute; discriminate|apply fdiv_close, H1|apply fmul_close, H2].
Qed.

(** The round trip [x / ra * rb / rb * ra] is [x] up to four roundings. *)
Lemma round_trip_close x ra rb :
  let z1 := fdiv x ra in
  let z2 := fmul z1 rb in
  let z3 := fdiv z2 rb in
  let z4 := fmul z3 ra in
  normal z1 = true -> normal z2 = true -> normal z3 = true -> normal z4 = true ->
  close (1 # 2 ^ 50) (F2Q x) (F2Q z4).
Proof.
  intros z1 z2 z3 z4 N1 N2 N3 N4.
  pose proof (fdiv_close _ _ N1) as A. fold z1 in A.
  pose proof (fmul_close _ _ N2) as B. fold z2 in B.
  pose proof (fdiv_close _ _ N3) as C. fold z3 in C.
  pose proof (fmul_close _ _ N4) as D. fold z4 in D.
  destruct (fdiv_normal_divisor _ _ N3) as (s & m & e & Erb).
  assert (Hrb : ~ (F2Q rb == 0)%Q) by (rewrite Erb; apply F2Q_finite_nonzero).
  set (u := unit_roundoff) in *.
  assert (U : (0 <= u)%Q) by (vm_compute; discriminate).
  pose proof (close_trans _ _ _ _ _ U B C) as BC.
  apply close_cancel in BC; [|exact Hrb].
  apply (close_scale _ _ _ (F2Q ra)) in BC.
  pose proof (close_trans _ _ _ _ _ U A BC) as ABC.
  assert (U2 : (0 <= u + (u + u + u * u) + u * (u + u + u * u))%Q) by (vm_compute; discriminate).
  pose proof (close_trans _ _ _ _ _ U2 ABC D) as ABCD.
  revert ABCD. apply close_weaken. vm_compute. discriminate.
Qed.

Lemma fdiv_zero a r : is_zero a = true -> falsy r = false -> is_zero (fdiv a r) = true.
Proof. destruct a, r; try discriminate; reflexivity. Qed.

Lemma fmul_zero a t : is_zero a = true -> isFinite t = true -> is_zero (fmul a t) = true.
Proof. destruct a, t; try discriminate; reflexivity. Qed.

(** ** Ordering of the cache read *)

Section Sorting.

Lemma insert_desc_perm r l : insert_desc r l ≡ₚ r :: l.
Proof.
  induction l as [|x l IH]; simpl; [reflexivity|].
  destruct (_ <=? _); [reflexivity|].
  rewrite IH. apply Permutation_swap.
Qed.

Lemma sort_desc_perm l : sort_desc l ≡ₚ l.
Proof.
  induction l as [|x l IH]; simpl; [reflexivity|].
  rewrite insert_desc_perm. now rewrite IH.
Qed.

Lemma insert_desc_sorted r l :
  StronglySorted newer_first l -> StronglySorted newer_first (insert_desc r l).
Proof.
  induction 1 as [|x l Hl IH Hx]; simpl.
  - repeat constructor.
  - destruct (Z.leb_spec (ExchangeRate.lastUpdated x) (ExchangeRate.lastUpdated r)).
    + constructor; [now constructor|].
      constructor; [assumption|].
      eapply Forall_impl; [exact Hx|].
      unfold newer_first; simpl; intros; lia.
    + constructor; [assumption|].
      rewrite insert_desc_perm. constructor; [|assumption].
      unfold newer_first; lia.
Qed.

Lemma sort_desc_sorted l : StronglySorted newer_first (sort_desc l).
Proof.
  induction l; simpl; [constructor|]. now apply insert_desc_sorted.
Qed.

Lemma elem_of_findMany b rows r :
  r ∈ findMany b rows <-> r ∈ rows /\ ExchangeRate.baseCurrency r = b.
Proof.
  unfold findMany. rewrite sort_desc_perm, list_elem_of_filter. tauto.
Qed.

(** The first row of the cache read is a newest one. *)
Lemma findMany_head_newest b rows r0 rest :
  findMany b rows = r0 :: rest ->
  forall r, r ∈ rows -> ExchangeRate.baseCurrency r = b ->
            ExchangeRate.lastUpdated r <= ExchangeRate.lastUpdated r0.
Proof.
  intros Hf r Hr Hb.
  assert (Hin : r ∈ findMany b rows) by (apply elem_of_findMany; auto).
  pose proof (sort_desc_sorted (filter (fun x => ExchangeRate.baseCurrency x = b) rows)) as Hs.
  fold (findMany b rows) in Hs. rewrite Hf in Hs, Hin.
  apply StronglySorted_inv in Hs as [_ Hall].
  apply elem_of_cons in Hin as [->|Hin]; [lia|].
  rewrite Forall_forall in Hall. now apply Hall.
Qed.

Lemma findMany_nil b rows :
  findMany b rows = [] <->
  forall r, r ∈ rows -> ExchangeRate.baseCurrency r <> b.
Proof.
  split.
  - intros Hf r Hr Hb.
    assert (Hin : r ∈ findMany b rows) by (apply elem_of_findMany; auto).
    rewrite Hf in Hin. now apply not_elem_of_nil in Hin.
  - intros H. destruct (findMany b rows) as [|r l] eqn:Hf; [reflexivity|].
    assert (Hin : r ∈ findMany b rows) by (rewrite Hf; left).
    apply elem_of_findMany in Hin as [Hr Hb]. now apply H in Hr.
Qed.

End Sorting.

(** ** Case analysis of [getExchangeRates] *)

Section RateCache.

Variable w : Env.

Lemma read_fails s :
  findMany_ok w = false ->
  getExchangeRates w s = (inl RatesUnavailableError, logged EvFindMany s).
Proof.
  intros H. unfold getExchangeRates, try_catch, getExchangeRatesFromDb, bind.
  simpl. now rewrite H.
Qed.

Lemma read_valid s :
  findMany_ok w = true ->
  cacheValid w (cached s) = true ->
  getExchangeRates w s
  = (inr (formatExchangeRates w (cached s)), logged EvFindMany s).
Proof.
  intros H Hv.
  unfold getExchangeRates, try_catch, getExchangeRatesFromDb, bind, emit.
  rewrite H. cbn [exchangeRate]. fold (cached s). now rewrite Hv.
Qed.

Lemma read_stale s :
  findMany_ok w = true ->
  cacheValid w (cached s) = false ->
  getExchangeRates w s
  = match fetchAndStoreExchangeRates w (logged EvFindMany s) with
    | (inr fresh, s') => (inr fresh, s')
    | (inl _, s') =>
        match cached s with
        | [] => (inl RatesUnavailableError, s')
        | _ :: _ => (inr (formatExchangeRates w (cached s)), s')
        end
    end.
Proof.
  intros H Hv.
  unfold getExchangeRates, try_catch, getExchangeRatesFromDb, bind, logged, emit.
  rewrite H. cbn [exchangeRate snd]. fold (cached s). rewrite Hv.
  destruct (fetchAndStoreExchangeRates w _) as [[e|r] s']; [|reflexivity].
  now destruct (cached s).
Qed.

Lemma cacheValid_cons r0 rest :
  cacheValid w (r0 :: rest)
  = (now w - ExchangeRate.lastUpdated r0 <? cacheExpirationTime).
Proof. reflexivity. Qed.

End RateCache.

(** ** [Promise.all] and the batch of upserts *)

Section Batch.

(** A relation between the state before and after that holds across a
    batch when it holds across each of its promises. *)
Lemma promise_all_rel (R : State -> State -> Prop) :
  (forall s, R s s) ->
  (forall s1 s2 s3, R s1 s2 -> R s2 s3 -> R s1 s3) ->
  forall ps, Forall (fun p : M unit => forall s, R s (snd (p s))) ps ->
  forall s, R s (snd (promise_all ps s)).
Proof.
  intros Hrefl Htrans ps Hps. induction Hps as [|p ps Hp _ IH]; intros s.
  - apply Hrefl.
  - simpl. specialize (Hp s). destruct (p s) as [r s1]. simpl in Hp.
    specialize (IH s1). destruct (promise_all ps s1) as [r' s2]. simpl in *.
    eauto.
Qed.

Variable w : Env.

Lemma upsert_eq b c r t s :
  upsert w b c r t s
  = if upsert_ok w c
    then (inr tt,
          mkState (upsert_rows b c r t (exchangeRate s) (exchangeRateSeq s)).1
                  (upsert_rows b c r t (exchangeRate s) (exchangeRateSeq s)).2
                  (transaction s) (transactionSeq s)
                  (trace s ++ [EvUpsert b c]))
    else (inl PrismaClientError, logged (EvUpsert b c) s).
Proof.
  unfold upsert, bind, emit, logged, throw. destruct (upsert_ok w c); [|reflexivity].
  cbn [exchangeRate exchangeRateSeq transaction transactionSeq trace].
  now destruct (upsert_rows _ _ _ _ _ _).
Qed.

Lemma fetch_offline s :
  axios_get w = None ->
  fetchAndStoreExchangeRates w s = (inl AxiosError, logged EvAxiosGet s).
Proof.
  intros H. unfold fetchAndStoreExchangeRates, try_catch, bind, logged, emit.
  now rewrite H.
Qed.

Lemma answer_state d batch : snd (answer d batch) = snd batch.
Proof. reflexivity. Qed.

Lemma fetch_online s d :
  axios_get w = Some d ->
  fetchAndStoreExchangeRates w s
  = answer d
      (promise_all
         (upsertPromises w (ApiData.base d) (ApiData.timestamp d * 1000)
                         (entries (filterSupported (ApiData.rates d))))
         (logged EvAxiosGet s)).
Proof.
  intros H.
  unfold fetchAndStoreExchangeRates, try_catch, bind, logged, emit,
    upsertPromises, answer, fetched.
  rewrite H. cbn [snd].
  match goal with
  | |- context [promise_all ?ps ?s0] => generalize (promise_all ps s0)
  end.
  intros [[e|[]] s']; [reflexivity|].
  cbn [fst snd]. now destruct (date_valid _).
Qed.

Lemma same_transactions_refl s : same_transactions s s.
Proof. split; reflexivity. Qed.

Lemma same_transactions_trans s1 s2 s3 :
  same_transactions s1 s2 -> same_transactions s2 s3 -> same_transactions s1 s3.
Proof. unfold same_transactions. intros [? ?] [? ?]. split; congruence. Qed.

Lemma same_transactions_logged ev s : same_transactions s (logged ev s).
Proof. split; reflexivity. Qed.

Lemma upsert_same_transactions b c r t s :
  same_transactions s (snd (upsert w b c r t s)).
Proof.
  rewrite upsert_eq. destruct (upsert_ok w c); split; reflexivity.
Qed.

Lemma batch_same_transactions b t es s :
  same_transactions s (snd (promise_all (upsertPromises w b t es) s)).
Proof.
  unfold upsertPromises.
  apply (promise_all_rel same_transactions).
  - exact same_transactions_refl.
  - exact same_transactions_trans.
  - induction es as [|[c r] es IH]; constructor; [|exact IH].
    intros s'. apply upsert_same_transactions.
Qed.

Lemma fetch_same_transactions s :
  same_transactions s (snd (fetchAndStoreExchangeRates w s)).
Proof.
  destruct (axios_get w) as [d|] eqn:H.
  - rewrite (fetch_online _ _ H), answer_state.
    exact (same_transactions_trans _ _ _
             (same_transactions_logged EvAxiosGet s)
             (batch_same_transactions _ _ _ (logged EvAxiosGet s))).
  - rewrite (fetch_offline _ H). exact (same_transactions_logged EvAxiosGet s).
Qed.

Lemma getExchangeRates_same_transactions s :
  same_transactions s (snd (getExchangeRates w s)).
Proof.
  destruct (findMany_ok w) eqn:Hr;
    [|rewrite read_fails by exact Hr; exact (same_transactions_logged _ s)].
  destruct (cacheValid w (cached s)) eqn:Hv;
    [rewrite read_valid by assumption; exact (same_transactions_logged _ s)|].
  rewrite read_stale by assumption.
  pose proof (same_transactions_trans _ _ _
                (same_transactions_logged EvFindMany s)
                (fetch_same_transactions (logged EvFindMany s))) as Hf.
  destruct (fetchAndStoreExchangeRates w _) as [[e|r] s'];
    [destruct (cached s)|]; exact Hf.
Qed.

End Batch.

(** ** Case analysis of [convertCurrency] *)

Section Conversion.

Variables (w : Env) (userId : Z) (fromCurrency toCurrency : string) (amount : float).

Lemma transaction_create_eq convertedAmount rate s :
  transaction_create w userId fromCurrency toCurrency amount convertedAmount rate s
  = if create_ok w
    then (inr (created w userId fromCurrency toCurrency amount
                       convertedAmount rate s),
          mkState (exchangeRate s) (exchangeRateSeq s)
                  (transaction s ++
                     [created w userId fromCurrency toCurrency amount
                              convertedAmount rate s])
                  (transactionSeq s + 1) (trace s ++ [EvCreate]))
    else (inl PrismaClientError, logged EvCreate s).
Proof.
  unfold transaction_create, bind, logged, emit, throw, created.
  now destruct (create_ok w).
Qed.

Lemma settle_eq fromRate toRate s :
  settle w userId fromCurrency toCurrency amount fromRate toRate s
  = if create_ok w
    then (inr (Conversion.mk (transactionSeq s) fromCurrency toCurrency amount
                 (amount / fromRate * toRate)%double (toRate / fromRate)%double (db_now w)),
          mkState (exchangeRate s) (exchangeRateSeq s)
                  (transaction s ++
                     [created w userId fromCurrency toCurrency amount
                              (amount / fromRate * toRate)%double
                              (toRate / fromRate)%double s])
                  (transactionSeq s + 1) (trace s ++ [EvCreate]))
    else (inl PrismaClientError, logged EvCreate s).
Proof.
  unfold settle, bind. rewrite transaction_create_eq.
  now destruct (create_ok w).
Qed.

Lemma truthy_Some o : truthy o = true <-> exists r, o = Some r /\ falsy r = false.
Proof.
  destruct o as [r|]; simpl.
  - rewrite negb_true_iff. split.
    + intros H. now exists r.
    + now intros (r' & [= <-] & H).
  - split; [discriminate|]. now intros (r & [=] & _).
Qed.

Lemma truthy_false o :
  truthy o = false <-> o = None \/ exists r, o = Some r /\ falsy r = true.
Proof.
  destruct o as [r|]; simpl.
  - rewrite negb_false_iff. split.
    + intros H. right. now exists r.
    + now intros [[=]|(r' & [= <-] & H)].
  - split; [now left|reflexivity].
Qed.

Lemma convert_unsupported s :
  fromCurrency ∉ supportedCurrencies \/ toCurrency ∉ supportedCurrencies ->
  convertCurrency w userId fromCurrency toCurrency amount s
  = (inl UnsupportedCurrencyError, s).
Proof.
  intros H. unfold convertCurrency.
  destruct H as [H|H]; rewrite (bool_decide_eq_false_2 _ H);
    [reflexivity|]. now rewrite orb_true_r.
Qed.

Hypothesis from_supported : fromCurrency ∈ supportedCurrencies.
Hypothesis to_supported : toCurrency ∈ supportedCurrencies.

Lemma convert_supported s :
  convertCurrency w userId fromCurrency toCurrency amount s
  = match getExchangeRates w s with
    | (inl e, s1) => (inl e, s1)
    | (inr rates, s1) =>
        if truthy (Rates.rates rates !! fromCurrency)
           && truthy (Rates.rates rates !! toCurrency)
        then settle w userId fromCurrency toCurrency amount
                    (number (Rates.rates rates !! fromCurrency))
                    (number (Rates.rates rates !! toCurrency)) s1
        else (inl RateUnavailableError, s1)
    end.
Proof.
  unfold convertCurrency.
  rewrite (bool_decide_eq_true_2 _ from_supported),
    (bool_decide_eq_true_2 _ to_supported).
  cbn [negb orb]. unfold bind.
  destruct (getExchangeRates w s) as [[e|rates] s1]; [reflexivity|].
  destruct (truthy (Rates.rates rates !! fromCurrency)),
           (truthy (Rates.rates rates !! toCurrency)); reflexivity.
Qed.

Lemma convert_rates_unavailable s e s1 :
  getExchangeRates w s = (inl e, s1) ->
  convertCurrency w userId fromCurrency toCurrency amount s = (inl e, s1).
Proof. intros H. now rewrite convert_supported, H. Qed.

Lemma convert_rate_falsy s rates s1 :
  getExchangeRates w s = (inr rates, s1) ->
  truthy (Rates.rates rates !! fromCurrency) = false
  \/ truthy (Rates.rates rates !! toCurrency) = false ->
  convertCurrency w userId fromCurrency toCurrency amount s
  = (inl RateUnavailableError, s1).
Proof.
  intros H Hf. rewrite convert_supported, H.
  destruct Hf as [-> | ->]; [reflexivity|]. now rewrite andb_false_r.
Qed.

Lemma convert_settles s rates s1 fromRate toRate :
  getExchangeRates w s = (inr rates, s1) ->
  Rates.rates rates !! fromCurrency = Some fromRate -> falsy fromRate = false ->
  Rates.rates rates !! toCurrency = Some toRate -> falsy toRate = false ->
  convertCurrency w userId fromCurrency toCurrency amount s
  = settle w userId fromCurrency toCurrency amount fromRate toRate s1.
Proof.
  intros H Hf Hf0 Ht Ht0. rewrite convert_supported, H.
  assert (truthy (Rates.rates rates !! fromCurrency) = true) as ->
    by (apply truthy_Some; eauto).
  assert (truthy (Rates.rates rates !! toCurrency) = true) as ->
    by (apply truthy_Some; eauto).
  now rewrite Hf, Ht.
Qed.

End Conversion.

(** A successful conversion went through every step. *)
Lemma convert_inr_inv w userId fromCurrency toCurrency amount s res s' :
  convertCurrency w userId fromCurrency toCurrency amount s = (inr res, s') ->
  exists rates s1 fromRate toRate,
    fromCurrency ∈ supportedCurrencies /\ toCurrency ∈ supportedCurrencies /\
    getExchangeRates w s = (inr rates, s1) /\
    Rates.rates rates !! fromCurrency = Some fromRate /\ falsy fromRate = false /\
    Rates.rates rates !! toCurrency = Some toRate /\ falsy toRate = false /\
    create_ok w = true /\
    settle w userId fromCurrency toCurrency amount fromRate toRate s1
    = (inr res, s').
Proof.
  intros H.
  destruct (decide (fromCurrency ∈ supportedCurrencies)) as [Hf|Hf];
    [|rewrite convert_unsupported in H by auto; discriminate].
  destruct (decide (toCurrency ∈ supportedCurrencies)) as [Ht|Ht];
    [|rewrite convert_unsupported in H by auto; discriminate].
  rewrite convert_supported in H by assumption.
  destruct (getExchangeRates w s) as [[e|rates] s1] eqn:Hg; [discriminate|].
  destruct (truthy (Rates.rates rates !! fromCurrency)) eqn:Tf;
    [|discriminate].
  destruct (truthy (Rates.rates rates !! toCurrency)) eqn:Tt;
    [|discriminate].
  apply truthy_Some in Tf as (fr & Ef & Nf), Tt as (tr & Et & Nt).
  rewrite Ef, Et in H. cbn [andb number default] in H.
  exists rates, s1, fr, tr. repeat (split; [done|]).
  split; [|exact H].
  rewrite settle_eq in H. now destruct (create_ok w).
Qed.

(** * The conversion engine *)

(** The answer of a successful call, in terms of the two rates. *)
Lemma convert_inr_values w userId fromCurrency toCurrency amount s res s' :
  convertCurrency w userId fromCurrency toCurrency amount s = (inr res, s') ->
  exists rates s1 fromRate toRate,
    getExchangeRates w s = (inr rates, s1) /\
    Rates.rates rates !! fromCurrency = Some fromRate /\ falsy fromRate = false /\
    Rates.rates rates !! toCurrency = Some toRate /\ falsy toRate = false /\
    res = Conversion.mk (transactionSeq s1) fromCurrency toCurrency amount
            (amount / fromRate * toRate)%double (toRate / fromRate)%double (db_now w).
Proof.
  intros H.
  apply convert_inr_inv in H
    as (rates & s1 & fr & tr & _ & _ & Hg & Ef & Nf & Et & Nt & Hc & Hs).
  rewrite settle_eq, Hc in Hs. injection Hs as <- _.
  exists rates, s1, fr, tr. repeat (split; [done|]). reflexivity.
Qed.


Lemma usd_to_eur_served :
  convertCurrency env_online 7 "USD" "EUR" (q 100 1) empty_state
  = (inr usd_to_eur, after_usd_to_eur).
Proof. vm_compute. reflexivity. Qed.

(** C3, counterexample.  100 EUR converted to EUR at the rate 1.36 does
    not give back 100: [100 / 1.36] is rounded, and so is its product with
    1.36, which is the next number above 100 (100.00000000000001). *)
Lemma conversion_exact_fails : ~ conversion_exact.
Proof.
  intros H.
  destruct (H env_136 7 "EUR" "EUR" (q 100 1) empty_state eur_to_eur
              (snd (convertCurrency env_136 7 "EUR" "EUR" (q 100 1) empty_state)))
    as (_ & _ & _ & _ & _ & _ & _ & _ & _ & _ & Hsame).
  - vm_compute. reflexivity.
  - destruct (Hsame eq_refl) as [E _]. vm_compute in E. discriminate.
Qed.

Example eur_to_eur_amounts :
  Conversion.amount eur_to_eur = S754_finite false 7036874417766400 (-46) /\
  Conversion.convertedAmount eur_to_eur = S754_finite false 7036874417766401 (-46).
Proof. split; vm_compute; reflexivity. Qed.

(** C3, amended.  Every successful conversion returns
    [convertedAmount = (amount / fromRate) * toRate] and
    [exchangeRate = toRate / fromRate], where [fromRate] and [toRate] are
    the entries of the two currencies in the rate set that
    [getExchangeRates] returned and each operation is rounded to the
    nearest number.  An amount of 0 converts to 0 when the target rate is
    finite.  Converting a currency to itself at a finite rate gives an
    exchange rate of exactly 1, and a converted amount that is the amount up
    to a relative error of [2^-51] when neither [amount / rate] nor the
    result overflows or underflows. *)
Theorem conversion_arithmetic w userId fromCurrency toCurrency amount s res s' :
  convertCurrency w userId fromCurrency toCurrency amount s = (inr res, s') ->
  exists rates s1 fromRate toRate,
    getExchangeRates w s = (inr rates, s1) /\
    Rates.rates rates !! fromCurrency = Some fromRate /\
    Rates.rates rates !! toCurrency = Some toRate /\
    Conversion.convertedAmount res = (amount / fromRate * toRate)%double /\
    Conversion.exchangeRate res = (toRate / fromRate)%double /\
    (is_zero amount = true -> isFinite toRate = true ->
     is_zero (Conversion.convertedAmount res) = true) /\
    (fromCurrency = toCurrency -> isFinite fromRate = true ->
     Conversion.exchangeRate res = one /\
     (normal (amount / fromRate)%double = true ->
      normal (Conversion.convertedAmount res) = true ->
      close (1 # 2 ^ 51) (F2Q amount) (F2Q (Conversion.convertedAmount res)))).
Proof.
  intros H.
  apply convert_inr_values in H
    as (rates & s1 & fr & tr & Hg & Ef & Nf & Et & Nt & ->).
  exists rates, s1, fr, tr. cbn [Conversion.convertedAmount Conversion.exchangeRate].
  repeat (split; [done|]). split.
  - intros Hz Hfin. apply fmul_zero; [|exact Hfin]. now apply fdiv_zero.
  - intros <- Hfin. rewrite Ef in Et. injection Et as <-.
    split.
    + destruct fr; try discriminate. apply fdiv_self.
    + apply fmul_fdiv_close.
Qed.

Lemma conversion_arithmetic_witness :
  exists rates s1 fromRate toRate,
    getExchangeRates env_136 empty_state = (inr rates, s1) /\
    Rates.rates rates !! "EUR" = Some fromRate /\
    Rates.rates rates !! "EUR" = Some toRate /\
    Conversion.convertedAmount eur_to_eur = (q 100 1 / fromRate * toRate)%double /\
    Conversion.exchangeRate eur_to_eur = (toRate / fromRate)%double /\
    (is_zero (q 100 1) = true -> isFinite toRate = true ->
     is_zero (Conversion.convertedAmount eur_to_eur) = true) /\
    ("EUR" = "EUR" -> isFinite fromRate = true ->
     Conversion.exchangeRate eur_to_eur = one /\
     (normal (q 100 1 / fromRate)%double = true ->
      normal (Conversion.convertedAmount eur_to_eur) = true ->
      close (1 # 2 ^ 51) (F2Q (q 100 1))
            (F2Q (Conversion.convertedAmount eur_to_eur)))).
Proof.
  apply (conversion_arithmetic env_136 7 "EUR" "EUR" (q 100 1) empty_state
           eur_to_eur
           (snd (convertCurrency env_136 7 "EUR" "EUR" (q 100 1) empty_state))).
  vm_compute. reflexivity.
Defined.

(** C4. A currency outside the whitelist makes [convertCurrency] throw
    "Unsupported currency" and leaves the whole state as it was.  With both
    currencies supported, a currency that is absent from the rate set
    obtained from [getExchangeRates] makes it throw "Exchange rate not
    available"; no transaction row is added in that case either. *)
Theorem convertCurrency_rejects_without_record
    w userId fromCurrency toCurrency amount s :
  (fromCurrency ∉ supportedCurrencies \/ toCurrency ∉ supportedCurrencies ->
   convertCurrency w userId fromCurrency toCurrency amount s
   = (inl UnsupportedCurrencyError, s))
  /\
  (fromCurrency ∈ supportedCurrencies -> toCurrency ∈ supportedCurrencies ->
   forall rates s1,
     getExchangeRates w s = (inr rates, s1) ->
     Rates.rates rates !! fromCurrency = None
     \/ Rates.rates rates !! toCurrency = None ->
     convertCurrency w userId fromCurrency toCurrency amount s
     = (inl RateUnavailableError, s1)
     /\ transaction s1 = transaction s
     /\ transactionSeq s1 = transactionSeq s).
Proof.
  split; [apply convert_unsupported|].
  intros Hf Ht rates s1 Hg Hnone. split.
  - apply (convert_rate_falsy _ _ _ _ _ Hf Ht _ _ _ Hg).
    destruct Hnone as [-> | ->]; auto.
  - pose proof (getExchangeRates_same_transactions w s) as Hsame.
    rewrite Hg in Hsame. exact Hsame.
Qed.

(** The row added by a successful call. *)
Lemma conversion_recorded_rows w userId fromCurrency toCurrency amount s res s' :
  convertCurrency w userId fromCurrency toCurrency amount s = (inr res, s') ->
  exists row, transaction s' = transaction s ++ [row]
              /\ Transaction.userId row = userId.
Proof.
  intros H.
  apply convert_inr_inv in H
    as (rates & s1 & fr & tr & _ & _ & Hg & _ & _ & _ & _ & Hc & Hs).
  rewrite settle_eq, Hc in Hs. injection Hs as _ <-.
  pose proof (getExchangeRates_same_transactions w s) as [Htx _].
  rewrite Hg in Htx. cbn [snd] in Htx.
  eexists. cbn [transaction]. rewrite Htx. split; reflexivity.
Qed.

(** C6. A successful call adds exactly one row to the transaction table.
    The row carries the caller's [userId] and the [fromCurrency],
    [toCurrency], [amount], [convertedAmount] and [rate] of the returned
    result, whose [id] and [timestamp] are the row's [id] and
    [createdAt]. *)
Theorem conversion_recorded w userId fromCurrency toCurrency amount s res s' :
  convertCurrency w userId fromCurrency toCurrency amount s = (inr res, s') ->
  exists row,
    transaction s' = transaction s ++ [row] /\
    Transaction.userId row = userId /\
    Transaction.fromCurrency row = Conversion.fromCurrency res /\
    Transaction.toCurrency row = Conversion.toCurrency res /\
    Transaction.amount row = Conversion.amount res /\
    Transaction.convertedAmount row = Conversion.convertedAmount res /\
    Transaction.rate row = Conversion.exchangeRate res /\
    Conversion.id res = Transaction.id row /\
    Conversion.timestamp res = Transaction.createdAt row /\
    Conversion.fromCurrency res = fromCurrency /\
    Conversion.toCurrency res = toCurrency /\
    Conversion.amount res = amount.
Proof.
  intros H.
  apply convert_inr_inv in H
    as (rates & s1 & fr & tr & _ & _ & Hg & _ & _ & _ & _ & Hc & Hs).
  rewrite settle_eq, Hc in Hs. injection Hs as <- <-.
  pose proof (getExchangeRates_same_transactions w s) as [Htx _].
  rewrite Hg in Htx. cbn [snd] in Htx.
  eexists. cbn [transaction]. rewrite Htx.
  split; [reflexivity|]. unfold created. cbn. done.
Qed.

Lemma conversion_recorded_witness :
  exists row,
    transaction after_usd_to_eur = transaction empty_state ++ [row] /\
    Transaction.userId row = 7 /\
    Transaction.fromCurrency row = Conversion.fromCurrency usd_to_eur /\
    Transaction.toCurrency row = Conversion.toCurrency usd_to_eur /\
    Transaction.amount row = Conversion.amount usd_to_eur /\
    Transaction.convertedAmount row = Conversion.convertedAmount usd_to_eur /\
    Transaction.rate row = Conversion.exchangeRate usd_to_eur /\
    Conversion.id usd_to_eur = Transaction.id row /\
    Conversion.timestamp usd_to_eur = Transaction.createdAt row /\
    Conversion.fromCurrency usd_to_eur = "USD" /\
    Conversion.toCurrency usd_to_eur = "EUR" /\
    Conversion.amount usd_to_eur = q 100 1.
Proof.
  apply (conversion_recorded env_online 7 "USD" "EUR" (q 100 1) empty_state
           usd_to_eur after_usd_to_eur).
  vm_compute. reflexivity.
Defined.

(** C10. Once the rate set has been obtained, a rate that is absent or
    falsy (0, -0 or NaN) sends [convertCurrency] to the "Exchange rate not
    available" branch, which is taken before any arithmetic.  Whenever that
    branch is not taken, both rates are present and truthy and the rest of
    the call is the arithmetic on these two numbers, so no division has a
    zero or missing divisor.  When every rate of the set is positive, the
    branch is not taken for currencies that are present in the set. *)
Theorem rates_checked_before_division
    w userId fromCurrency toCurrency amount s rates s1 :
  fromCurrency ∈ supportedCurrencies -> toCurrency ∈ supportedCurrencies ->
  getExchangeRates w s = (inr rates, s1) ->
  let call := convertCurrency w userId fromCurrency toCurrency amount s in
  let fromRate := Rates.rates rates !! fromCurrency in
  let toRate := Rates.rates rates !! toCurrency in
  (fromRate = None \/ (exists r, fromRate = Some r /\ falsy r = true) \/
   toRate = None \/ (exists r, toRate = Some r /\ falsy r = true) ->
   call = (inl RateUnavailableError, s1))
  /\
  (call <> (inl RateUnavailableError, s1) ->
   exists fr tr,
     fromRate = Some fr /\ falsy fr = false /\ toRate = Some tr /\ falsy tr = false /\
     call = settle w userId fromCurrency toCurrency amount fr tr s1)
  /\
  ((forall c r, Rates.rates rates !! c = Some r -> flt zero r = true) ->
   is_Some fromRate -> is_Some toRate ->
   fst call <> inl RateUnavailableError).
Proof.
  intros Hf Ht Hg call fromRate toRate.
  assert (Hfalsy : truthy fromRate = false \/ truthy toRate = false ->
                   call = (inl RateUnavailableError, s1))
    by (apply convert_rate_falsy; assumption).
  assert (Hsettle : forall fr tr,
             fromRate = Some fr -> falsy fr = false -> toRate = Some tr -> falsy tr = false ->
             call = settle w userId fromCurrency toCurrency amount fr tr s1)
    by (intros; eapply convert_settles; eassumption).
  split; [|split].
  - intros H. apply Hfalsy.
    rewrite !truthy_false. tauto.
  - intros Hne.
    destruct (truthy fromRate) eqn:Tf; [|exfalso; auto].
    destruct (truthy toRate) eqn:Tt; [|exfalso; auto].
    apply truthy_Some in Tf as (fr & Ef & Nf), Tt as (tr & Et & Nt).
    exists fr, tr. repeat (split; [assumption|]). now apply Hsettle.
  - intros Hpos [fr Ef] [tr Et].
    assert (Nf : falsy fr = false)
      by (apply Hpos in Ef; destruct fr as [[]| | |]; (discriminate || reflexivity)).
    assert (Nt : falsy tr = false)
      by (apply Hpos in Et; destruct tr as [[]| | |]; (discriminate || reflexivity)).
    rewrite (Hsettle fr tr Ef Nf Et Nt), settle_eq.
    destruct (create_ok w); discriminate.
Qed.

Lemma rates_checked_before_division_witness :
  let call := convertCurrency env_online 7 "USD" "EUR" (q 100 1) empty_state in
  let fromRate := Rates.rates (fetched api_usd) !! "USD" in
  let toRate := Rates.rates (fetched api_usd) !! "EUR" in
  (fromRate = None \/ (exists r, fromRate = Some r /\ falsy r = true) \/
   toRate = None \/ (exists r, toRate = Some r /\ falsy r = true) ->
   call = (inl RateUnavailableError, after_fetch))
  /\
  (call <> (inl RateUnavailableError, after_fetch) ->
   exists fr tr,
     fromRate = Some fr /\ falsy fr = false /\ toRate = Some tr /\ falsy tr = false /\
     call = settle env_online 7 "USD" "EUR" (q 100 1) fr tr after_fetch)
  /\
  ((forall c r, Rates.rates (fetched api_usd) !! c = Some r -> flt zero r = true) ->
   is_Some fromRate -> is_Some toRate ->
   fst call <> inl RateUnavailableError).
Proof.
  refine (rates_checked_before_division env_online 7 "USD" "EUR" (q 100 1)
            empty_state (fetched api_usd) after_fetch _ _ _).
  - apply list_elem_of_here.
  - apply list_elem_of_further, list_elem_of_here.
  - vm_compute. reflexivity.
Defined.

(** C5, counterexample.  No tolerance below 100 % holds for every positive
    amount: 5e-324 JPY at 150 JPY to the dollar converts to 0 USD (the
    quotient underflows), and 0 USD converts back to 0 JPY. *)
Lemma round_trip_fails_on_underflow :
  ~ exists tol, (tol < 1)%Q /\ round_trip_within tol.
Proof.
  intros (tol & Htol & H).
  specialize (H env_jpy env_cached 7 7 "JPY" "USD" tiny empty_state
                tiny_jpy_to_usd after_tiny_jpy_to_usd zero_usd_to_jpy
                (snd (convertCurrency env_cached 7 "USD" "JPY"
                        (Conversion.convertedAmount tiny_jpy_to_usd)
                        after_tiny_jpy_to_usd))
                (fetched api_jpy) (snd (getExchangeRates env_jpy empty_state))
                (formatExchangeRates env_cached (cached after_tiny_jpy_to_usd))
                (snd (getExchangeRates env_cached after_tiny_jpy_to_usd))).
  assert (E : (Qabs (F2Q (Conversion.convertedAmount zero_usd_to_jpy) - F2Q tiny)
               == Qabs (F2Q tiny))%Q) by (vm_compute; reflexivity).
  assert (P : (0 < Qabs (F2Q tiny))%Q) by (vm_compute; reflexivity).
  rewrite E in H.
  assert (Hle : (Qabs (F2Q tiny) <= tol * Qabs (F2Q tiny))%Q).
  { apply H; vm_compute; reflexivity. }
  revert Hle P. generalize (Qabs (F2Q tiny)). intros v Hle P. nra.
Qed.

Example tiny_round_trip :
  Conversion.convertedAmount tiny_jpy_to_usd = zero /\
  Conversion.convertedAmount zero_usd_to_jpy = zero.
Proof. split; vm_compute; reflexivity. Qed.

(** Two more round trips through lines 80 and 81.  3 at the rates 1 and
    0.8 comes back as the next number above 3 (3.0000000000000004), which is
    within the bound of the theorem below.  The largest number at the rates
    1 and 150 overflows to [Infinity] and comes back as [Infinity]. *)
Example three_round_trip :
  (q 3 1 / q 1 1 * q 8 10)%double = S754_finite false 5404319552844596 (-51) /\
  (q 3 1 / q 1 1 * q 8 10 / q 8 10 * q 1 1)%double
  = S754_finite false 6755399441055745 (-51) /\
  q 3 1 = S754_finite false 6755399441055744 (-51).
Proof. repeat split; vm_compute; reflexivity. Qed.

Example huge_round_trip :
  isFinite huge = true /\ flt zero huge = true /\
  (huge / q 1 1 * q 150 1)%double = S754_infinity false /\
  (huge / q 1 1 * q 150 1 / q 150 1 * q 1 1)%double = S754_infinity false.
Proof. repeat split; vm_compute; reflexivity. Qed.

(** C5, amended.  Converting [x] from [a] to [b] and the converted amount
    back from [b] to [a], both calls having obtained the same rate mapping:
    over the rationals the two formulas of the specification return [x]
    itself; the numbers that the two calls return differ from [x] by a
    relative error of at most [2^-50], provided that none of the four
    operations overflows or underflows (each result is a normal number). *)
Theorem round_trip w1 w2 u1 u2 a b x s0 c1 s1 c2 s2 r1 t1 r2 t2 ra rb :
  convertCurrency w1 u1 a b x s0 = (inr c1, s1) ->
  convertCurrency w2 u2 b a (Conversion.convertedAmount c1) s1 = (inr c2, s2) ->
  getExchangeRates w1 s0 = (inr r1, t1) ->
  getExchangeRates w2 s1 = (inr r2, t2) ->
  Rates.rates r1 = Rates.rates r2 ->
  Rates.rates r1 !! a = Some ra ->
  Rates.rates r1 !! b = Some rb ->
  normal (x / ra)%double = true ->
  normal (Conversion.convertedAmount c1) = true ->
  normal (Conversion.convertedAmount c1 / rb)%double = true ->
  normal (Conversion.convertedAmount c2) = true ->
  (spec_convertedAmount (spec_convertedAmount (F2Q x) (F2Q ra) (F2Q rb))
                        (F2Q rb) (F2Q ra) == F2Q x)%Q
  /\ close (1 # 2 ^ 50) (F2Q x) (F2Q (Conversion.convertedAmount c2)).
Proof.
  intros H1 H2 G1 G2 Hsame Era Erb N1 N2 N3 N4.
  apply convert_inr_values in H1
    as (r1' & t1' & fa & fb & G1' & Ea & Na & Eb & Nb & ->).
  apply convert_inr_values in H2
    as (r2' & t2' & fb' & fa' & G2' & Eb' & _ & Ea' & _ & ->).
  rewrite G1 in G1'. injection G1' as <- <-.
  rewrite G2 in G2'. injection G2' as <- <-.
  rewrite <- Hsame in Ea', Eb'.
  rewrite Era in Ea, Ea'. rewrite Erb in Eb, Eb'.
  injection Ea as <-. injection Eb as <-. injection Ea' as <-. injection Eb' as <-.
  cbn [Conversion.convertedAmount] in *.
  split.
  - destruct (fdiv_normal_divisor _ _ N1) as (sa & ma & ea & ->).
    destruct (fdiv_normal_divisor _ _ N3) as (sb & mb & eb & ->).
    unfold spec_convertedAmount. field.
    split; apply F2Q_finite_nonzero.
  - now apply round_trip_close.
Qed.

Lemma round_trip_witness :
  (spec_convertedAmount (spec_convertedAmount (F2Q (q 100 1)) (F2Q (q 1 1))
                                              (F2Q (q 93 100)))
                        (F2Q (q 93 100)) (F2Q (q 1 1)) == F2Q (q 100 1))%Q
  /\ close (1 # 2 ^ 50) (F2Q (q 100 1)) (F2Q (Conversion.convertedAmount eur_to_usd)).
Proof.
  refine (round_trip env_online env_cached 7 7 "USD" "EUR" (q 100 1)
            empty_state usd_to_eur after_usd_to_eur eur_to_usd
            (snd (convertCurrency env_cached 7 "EUR" "USD"
                    (Conversion.convertedAmount usd_to_eur) after_usd_to_eur))
            (fetched api_usd) (snd (getExchangeRates env_online empty_state))
            (formatExchangeRates env_cached (cached after_usd_to_eur))
            (snd (getExchangeRates env_cached after_usd_to_eur))
            (q 1 1) (q 93 100) _ _ _ _ _ _ _ _ _ _ _).
  - vm_compute. reflexivity.
  - vm_compute. reflexivity.
  - vm_compute. reflexivity.
  - vm_compute. reflexivity.
  - vm_compute. reflexivity.
  - vm_compute. reflexivity.
  - vm_compute. reflexivity.
  - vm_compute. reflexivity.
  - vm_compute. reflexivity.
  - vm_compute. reflexivity.
  - vm_compute. reflexivity.
Defined.

(** * The rate cache manager *)

(** ** What [formatExchangeRates] puts in the dictionary *)

Section Format.

Lemma format_rates w rows :
  Rates.rates (formatExchangeRates w rows) = collect ∅ rows.
Proof. reflexivity. Qed.

Lemma collect_lookup_Some rows : forall (m : gmap string float) c v,
  collect m rows !! c = Some v ->
  m !! c = Some v \/
  exists r, r ∈ rows /\ ExchangeRate.currency r = c /\ ExchangeRate.rate r = v.
Proof.
  induction rows as [|x rows IH]; intros m c v H; [now left|].
  apply IH in H as [H|(r & Hr & Hc & Hv)].
  - destruct (decide (ExchangeRate.currency x = c)) as [<-|Hne].
    + rewrite lookup_insert_eq in H. injection H as <-.
      right. exists x. split; [left|]; auto.
    + rewrite lookup_insert_ne in H by assumption. now left.
  - right. exists r. split; [now right|]. auto.
Qed.

Lemma collect_lookup_is_Some rows : forall (m : gmap string float) c,
  is_Some (m !! c) \/ (exists r, r ∈ rows /\ ExchangeRate.currency r = c) ->
  is_Some (collect m rows !! c).
Proof.
  induction rows as [|x rows IH]; intros m c H.
  - destruct H as [H|(r & Hr & _)]; [exact H|]. now apply elem_of_nil in Hr.
  - apply IH.
    destruct (decide (ExchangeRate.currency x = c)) as [<-|Hne].
    + left. rewrite lookup_insert_eq. eauto.
    + rewrite lookup_insert_ne by assumption.
      destruct H as [H|(r & Hr & Hc)]; [now left|].
      apply elem_of_cons in Hr as [->|Hr]; [contradiction|]. right. eauto.
Qed.

(** When all the rows of a currency agree on its rate, that rate is the
    entry of the currency. *)
Lemma collect_lookup_agree rows c v : forall (m : gmap string float),
  (forall r, r ∈ rows -> ExchangeRate.currency r = c -> ExchangeRate.rate r = v) ->
  m !! c = Some v \/ (exists r, r ∈ rows /\ ExchangeRate.currency r = c) ->
  collect m rows !! c = Some v.
Proof.
  induction rows as [|x rows IH]; intros m Hall H.
  - destruct H as [H|(r & Hr & _)]; [exact H|]. now apply elem_of_nil in Hr.
  - apply IH; [intros r Hr; apply Hall; now right|].
    destruct (decide (ExchangeRate.currency x = c)) as [Hc|Hne].
    + left. rewrite <- Hc at 1. rewrite lookup_insert_eq. f_equal.
      apply Hall; [left|exact Hc].
    + rewrite lookup_insert_ne by assumption.
      destruct H as [H|(r & Hr & Hc)]; [now left|].
      apply elem_of_cons in Hr as [->|Hr]; [contradiction|]. right. eauto.
Qed.

End Format.

(** ** When the fetch fails *)

Section FetchOutcome.

Variable w : Env.

Lemma batch_outcome b t es : forall s,
  fst (promise_all (upsertPromises w b t es) s)
  = if batch_ok w es then inr tt else inl PrismaClientError.
Proof.
  unfold upsertPromises.
  induction es as [|[c r] es IH]; intros s; [reflexivity|].
  cbn [map promise_all batch_ok forallb]. rewrite upsert_eq.
  destruct (upsert_ok w c); cbn [andb].
  - specialize (IH (mkState
      (upsert_rows b c r t (exchangeRate s) (exchangeRateSeq s)).1
      (upsert_rows b c r t (exchangeRate s) (exchangeRateSeq s)).2
      (transaction s) (transactionSeq s) (trace s ++ [EvUpsert b c]))).
    unfold batch_ok in IH.
    destruct (promise_all _ _) as [r' s2]. cbn [fst] in *. exact IH.
  - now destruct (promise_all _ _).
Qed.

Lemma fetch_fails_iff s :
  fails (fetchAndStoreExchangeRates w) s <-> fetch_rejected w = true.
Proof.
  unfold fails, fetch_rejected. destruct (axios_get w) as [d|] eqn:H.
  - rewrite (fetch_online _ _ _ H).
    pose proof (batch_outcome (ApiData.base d) (ApiData.timestamp d * 1000)
                  (entries (filterSupported (ApiData.rates d)))
                  (logged EvAxiosGet s)) as Hb.
    destruct (promise_all _ (logged EvAxiosGet s)) as [r s2].
    cbn [fst] in Hb. subst r. unfold answer. cbn [fst snd].
    destruct (batch_ok w _); cbn [negb orb].
    + destruct (date_valid _); cbn [negb]; split.
      * now intros (e & s' & [=]).
      * discriminate.
      * reflexivity.
      * intros _. eauto.
    + split; [reflexivity|]. intros _. eauto.
  - rewrite (fetch_offline _ _ H). split; [reflexivity|]. intros _. eauto.
Qed.

Lemma fetch_failure_iff s :
  fails (fetchAndStoreExchangeRates w) s <-> fetch_failure w.
Proof.
  rewrite fetch_fails_iff. unfold fetch_rejected, fetch_failure.
  destruct (axios_get w) as [d|].
  - rewrite orb_true_iff, !negb_true_iff. split.
    + intros H. right. now exists d.
    + now intros [[=]|(d' & [= <-] & H)].
  - split; [now left|reflexivity].
Qed.

End FetchOutcome.

Lemma has_cache_cached s : has_cache s <-> cached s <> [].
Proof.
  unfold has_cache, cached. rewrite findMany_nil. split.
  - intros (r & Hr & Hb) H. now apply (H r).
  - intros H. destruct (findMany baseCurrency (exchangeRate s)) as [|r l] eqn:E.
    + exfalso. apply H. intros r Hr Hb.
      assert (Hin : r ∈ findMany baseCurrency (exchangeRate s))
        by (apply elem_of_findMany; auto).
      rewrite E in Hin. now apply elem_of_nil in Hin.
    + exists r. apply elem_of_findMany. rewrite E. left.
Qed.

Lemma format_cached w s :
  cached s <> [] -> cached_rates s (formatExchangeRates w (cached s)).
Proof.
  intros Hne. destruct (cached s) as [|r0 rest] eqn:Ec; [done|].
  assert (H0 : r0 ∈ exchangeRate s /\ ExchangeRate.baseCurrency r0 = baseCurrency).
  { apply elem_of_findMany. fold (cached s). rewrite Ec. left. }
  assert (Ets : Rates.timestamp (formatExchangeRates w (r0 :: rest))
                = ExchangeRate.lastUpdated r0) by reflexivity.
  unfold cached_rates. rewrite Ets, format_rates. rewrite <- Ec.
  split; [reflexivity|].
  split; [exists r0; tauto|]. split; [|split].
  - intros r Hr Hb. apply (findMany_head_newest _ _ _ _ Ec r Hr Hb).
  - intros c v H. apply collect_lookup_Some in H as [H|(r & Hr' & Hcur & Hrate)].
    + now rewrite lookup_empty in H.
    + apply elem_of_findMany in Hr' as [? ?]. eauto.
  - intros r Hr' Hb. apply collect_lookup_is_Some. right.
    exists r. split; [|reflexivity]. apply elem_of_findMany. auto.
Qed.

(** C1, counterexample.  The store is empty and read without error, the
    provider answers, and the database rejects the upsert of EUR:
    [getExchangeRates] fails although neither the read nor the call of the
    provider did. *)
Lemma unavailable_with_provider : ~ unavailable_only_without_provider.
Proof.
  intros H. destruct (H env_half empty_state) as [H1 _].
  destruct H1 as [E|[_ E]]; [vm_compute; reflexivity|discriminate E..].
Qed.

(** C1, amended.  Whatever the state of the database and the outcome of the
    fetch: when the cache read succeeded, the table holds a snapshot for the
    base currency and [fetchAndStoreExchangeRates] fails (the HTTP call is
    rejected, the database rejects an upsert, or the time of the answer is
    not a valid date), [getExchangeRates] returns the cached snapshots
    formatted, also when they are older than the freshness window: the base
    currency, the time of the newest snapshot and the rate of each cached
    currency.  It throws "Failed to fetch exchange rates" exactly when the
    cache read fails, in which case nothing else was called, or when the
    table holds no snapshot for the base currency and
    [fetchAndStoreExchangeRates] fails in one of these three ways.  It
    throws nothing else. *)
Theorem stale_fallback_and_unavailability w s :
  (findMany_ok w = true -> has_cache s -> fetch_failure w ->
   exists res, fst (getExchangeRates w s) = inr res /\ cached_rates s res)
  /\
  (fst (getExchangeRates w s) = inl RatesUnavailableError <->
   findMany_ok w = false \/ (~ has_cache s /\ fetch_failure w))
  /\
  (forall e, fst (getExchangeRates w s) = inl e -> e = RatesUnavailableError)
  /\
  (findMany_ok w = false -> snd (getExchangeRates w s) = logged EvFindMany s).
Proof.
  rewrite has_cache_cached.
  rewrite <- (fetch_failure_iff w (logged EvFindMany s)). unfold fails.
  destruct (findMany_ok w) eqn:Hr.
  2:{ rewrite read_fails by exact Hr. cbn [fst snd].
      split; [discriminate|]. split; [split; auto|].
      split; [|reflexivity]. now intros e [= <-]. }
  destruct (cacheValid w (cached s)) eqn:Hv.
  { rewrite read_valid by assumption. cbn [fst].
    split; [intros _ Hne _; eexists; split; [reflexivity|now apply format_cached]|].
    split; [|split; discriminate].
    split; [discriminate|].
    intros [[=]|[Hnil _]]. exfalso. apply Hnil. intros E. rewrite E in Hv. discriminate. }
  rewrite read_stale by assumption.
  destruct (fetchAndStoreExchangeRates w (logged EvFindMany s))
    as [[e|fresh] s'] eqn:Hf.
  - destruct (cached s) as [|r0 rest] eqn:Hc; cbn [fst].
    + split; [now intros _ Hne|]. split; [split; [|reflexivity]|].
      * intros _. right. split; [tauto|eauto].
      * split; [|discriminate]. now intros e' [= <-].
    + split.
      * intros _ Hne _. eexists. split; [reflexivity|].
        rewrite <- Hc. apply format_cached. now rewrite Hc.
      * split; [|split; discriminate].
        split; [discriminate|]. intros [[=]|[Hn _]]. exfalso. now apply Hn.
  - cbn [fst]. split; [now intros _ _ (e & s2 & [=])|].
    split; [|split; discriminate].
    split; [discriminate|]. intros [[=]|[_ (e & s2 & [=])]].
Qed.

Example stale_rates_served :
  fst (getExchangeRates env_offline stale_state)
  = inr (formatExchangeRates env_offline (cached stale_state)).
Proof. vm_compute. reflexivity. Qed.

Example no_rates_at_all :
  fst (getExchangeRates env_offline empty_state) = inl RatesUnavailableError.
Proof. vm_compute. reflexivity. Qed.

(** C2. When the table holds a row for the base currency and the newest
    of these rows is less than [cacheExpirationTime] (3,600,000 ms) old,
    [getExchangeRates] returns [{ base, rates, timestamp }] built from the
    cached rows: [base] is the base currency, [timestamp] the time of the
    newest row and [rates] has an entry for each cached row and no other.
    Only the cache read was issued: the provider was not called and the
    table was not written. *)
Theorem fresh_cache_served w s newest :
  findMany_ok w = true ->
  newest ∈ exchangeRate s ->
  ExchangeRate.baseCurrency newest = baseCurrency ->
  (forall r, r ∈ exchangeRate s -> ExchangeRate.baseCurrency r = baseCurrency ->
             ExchangeRate.lastUpdated r <= ExchangeRate.lastUpdated newest) ->
  now w - ExchangeRate.lastUpdated newest < cacheExpirationTime ->
  exists res s',
    getExchangeRates w s = (inr res, s') /\
    res = formatExchangeRates w (cached s) /\
    Rates.base res = baseCurrency /\
    Rates.timestamp res = ExchangeRate.lastUpdated newest /\
    (forall c v, Rates.rates res !! c = Some v ->
       exists r, r ∈ exchangeRate s /\ ExchangeRate.baseCurrency r = baseCurrency /\
                 ExchangeRate.currency r = c /\ ExchangeRate.rate r = v) /\
    (forall r, r ∈ exchangeRate s -> ExchangeRate.baseCurrency r = baseCurrency ->
       is_Some (Rates.rates res !! ExchangeRate.currency r)) /\
    exchangeRate s' = exchangeRate s /\
    exchangeRateSeq s' = exchangeRateSeq s /\
    trace s' = trace s ++ [EvFindMany].
Proof.
  intros Hr Hin Hbase Hnewest Hfresh.
  assert (Hc : newest ∈ cached s) by (apply elem_of_findMany; auto).
  destruct (cached s) as [|r0 rest] eqn:Ec; [now apply elem_of_nil in Hc|].
  assert (H0 : r0 ∈ exchangeRate s /\ ExchangeRate.baseCurrency r0 = baseCurrency).
  { apply elem_of_findMany. fold (cached s). rewrite Ec. left. }
  assert (Ht : ExchangeRate.lastUpdated r0 = ExchangeRate.lastUpdated newest).
  { pose proof (findMany_head_newest _ _ _ _ Ec newest Hin Hbase).
    pose proof (Hnewest r0 (proj1 H0) (proj2 H0)). lia. }
  assert (Hv : cacheValid w (cached s) = true).
  { rewrite Ec, cacheValid_cons, Ht. now apply Z.ltb_lt. }
  rewrite <- Ec.
  exists (formatExchangeRates w (cached s)), (logged EvFindMany s).
  split; [now apply read_valid|]. split; [reflexivity|].
  split; [reflexivity|]. split; [now rewrite Ec|].
  rewrite format_rates. split; [|split].
  - intros c v H. apply collect_lookup_Some in H as [H|(r & Hr' & Hcur & Hrate)].
    + now rewrite lookup_empty in H.
    + apply elem_of_findMany in Hr' as [? ?]. eauto.
  - intros r Hr' Hb. apply collect_lookup_is_Some. right.
    exists r. split; [|reflexivity]. apply elem_of_findMany. auto.
  - repeat split.
Qed.

(** The cache filled by the first conversion, read ten minutes later. *)
Lemma fresh_cache_served_witness :
  exists res s',
    getExchangeRates env_cached after_usd_to_eur = (inr res, s') /\
    res = formatExchangeRates env_cached (cached after_usd_to_eur) /\
    Rates.base res = baseCurrency /\
    Rates.timestamp res = 1700000000000 /\
    (forall c v, Rates.rates res !! c = Some v ->
       exists r, r ∈ exchangeRate after_usd_to_eur /\
                 ExchangeRate.baseCurrency r = baseCurrency /\
                 ExchangeRate.currency r = c /\ ExchangeRate.rate r = v) /\
    (forall r, r ∈ exchangeRate after_usd_to_eur ->
       ExchangeRate.baseCurrency r = baseCurrency ->
       is_Some (Rates.rates res !! ExchangeRate.currency r)) /\
    exchangeRate s' = exchangeRate after_usd_to_eur /\
    exchangeRateSeq s' = exchangeRateSeq after_usd_to_eur /\
    trace s' = trace after_usd_to_eur ++ [EvFindMany].
Proof.
  refine (fresh_cache_served env_cached after_usd_to_eur
            (ExchangeRate.mk 1 "USD" "USD" (q 1 1) 1700000000000) _ _ _ _ _).
  - reflexivity.
  - vm_compute. apply list_elem_of_here.
  - reflexivity.
  - intros r Hr _. vm_compute in Hr.
    apply elem_of_cons in Hr as [->|Hr]; [simpl; lia|].
    apply elem_of_cons in Hr as [->|Hr]; [simpl; lia|].
    now apply elem_of_nil in Hr.
  - vm_compute. reflexivity.
Defined.

(** ** The filter on the provider's answer *)

Section Filter.

Variable rates : gmap string float.

Lemma filterSupported_fold :
  filterSupported rates = foldl (keep rates) ∅ supportedCurrencies.
Proof. reflexivity. Qed.

Lemma keep_lookup cs : forall (o : gmap string float) c,
  foldl (keep rates) o cs !! c
  = if decide (c ∈ cs /\ truthy (rates !! c) = true) then rates !! c else o !! c.
Proof.
  induction cs as [|x cs IH]; intros o c; cbn [foldl].
  - destruct (decide _) as [[H _]|_]; [now apply elem_of_nil in H|reflexivity].
  - rewrite IH. destruct (decide (c ∈ cs /\ _)) as [[Hin Ht]|Hn].
    + rewrite decide_True; [reflexivity|]. split; [now right|assumption].
    + unfold keep. destruct (decide (c ∈ x :: cs /\ _)) as [[Hin Ht]|Hn'].
      * apply elem_of_cons in Hin as [->|Hin]; [|exfalso; auto].
        rewrite Ht. destruct (rates !! x) as [r|] eqn:E; [|discriminate].
        apply lookup_insert_eq.
      * destruct (truthy (rates !! x)) eqn:Tx; [|reflexivity].
        destruct (rates !! x) as [r|] eqn:E; [|reflexivity].
        rewrite lookup_insert_ne; [reflexivity|].
        intros <-. apply Hn'. split; [left|]. now rewrite E.
Qed.

(** The result keeps a currency exactly when it is supported and its rate
    in the answer is a number other than 0. *)
Lemma filterSupported_lookup c r :
  filterSupported rates !! c = Some r
  <-> c ∈ supportedCurrencies /\ rates !! c = Some r /\ falsy r = false.
Proof.
  rewrite filterSupported_fold, keep_lookup, lookup_empty.
  destruct (decide _) as [[Hin Ht]|Hn].
  - apply truthy_Some in Ht as (r' & E & Hne). rewrite E. split.
    + intros [= <-]. auto.
    + intros (_ & [= <-] & _). reflexivity.
  - split; [discriminate|]. intros (Hin & E & Hne). exfalso. apply Hn.
    split; [assumption|]. apply truthy_Some. eauto.
Qed.

End Filter.

Section Entries.

Variable m : gmap string float.

Lemma elem_of_entries c r :
  (c, r) ∈ entries m <-> c ∈ supportedCurrencies /\ m !! c = Some r.
Proof.
  unfold entries. rewrite list_elem_of_omap. split.
  - intros (x & Hx & H). destruct (m !! x) as [v|] eqn:E; [|discriminate].
    cbn in H. injection H as <- <-. auto.
  - intros [Hc E]. exists c. split; [assumption|]. now rewrite E.
Qed.

Lemma omap_entry_cons x cs :
  omap (entry m) (x :: cs)
  = match m !! x with
    | Some v => (x, v) :: omap (entry m) cs
    | None => omap (entry m) cs
    end.
Proof. unfold entry at 1. cbn. now destruct (m !! x). Qed.

Lemma entries_keys_sub cs :
  forall c, c ∈ map fst (omap (entry m) cs) -> c ∈ cs.
Proof.
  induction cs as [|x cs IH]; intros c; [easy|].
  rewrite omap_entry_cons. destruct (m !! x) as [v|].
  - cbn [map fst]. rewrite !elem_of_cons. intros [->|H]; auto.
  - intros H. right. auto.
Qed.

Lemma entries_keys_NoDup_gen cs : NoDup cs -> NoDup (map fst (omap (entry m) cs)).
Proof.
  induction 1 as [|x cs Hx _ IH]; [constructor|].
  rewrite omap_entry_cons. destruct (m !! x) as [v|].
  - cbn [map fst]. constructor; [|exact IH].
    intros H. apply Hx. now apply entries_keys_sub.
  - exact IH.
Qed.

End Entries.

Lemma supportedCurrencies_NoDup : NoDup supportedCurrencies.
Proof. apply (bool_decide_unpack _). vm_compute. exact I. Qed.

Lemma entries_keys_NoDup m : NoDup (map fst (entries m)).
Proof. apply entries_keys_NoDup_gen, supportedCurrencies_NoDup. Qed.

Lemma entries_empty : entries ∅ = [].
Proof. vm_compute. reflexivity. Qed.

Lemma fetch_nothing_to_store w s d :
  axios_get w = Some d ->
  filterSupported (ApiData.rates d) = ∅ ->
  fetchAndStoreExchangeRates w s
  = (if date_valid (ApiData.timestamp d * 1000)
     then inr (Rates.mk (ApiData.base d) ∅ (ApiData.timestamp d * 1000))
     else inl (RangeError "Invalid time value"),
     logged EvAxiosGet s).
Proof.
  intros Ha He. rewrite (fetch_online _ _ _ Ha).
  unfold answer, fetched. rewrite He, entries_empty. reflexivity.
Qed.

(** C8, counterexample.  The provider answers without any rate and with a
    time of 1e13 s: [updateTime] is an invalid date, [toISOString()] throws
    and, the table being empty, [getExchangeRates] fails. *)
Lemma empty_answer_can_fail : ~ empty_answer_is_success.
Proof.
  intros H.
  destruct (H env_far empty_state api_far) as (res & s' & E);
    [reflexivity..|]. vm_compute in E. discriminate.
Qed.

(** C8, amended.  When the cache cannot be used and the provider answers
    with a valid time and a mapping that keeps no entry after the filter on
    the supported currencies, the fetch still succeeds: [getExchangeRates]
    returns the provider's base and time with an empty [rates] object, and
    nothing is written.  The missing currencies show only at conversion:
    every conversion between supported currencies then throws "Exchange
    rate not available".  When the time of such an answer is not a valid
    date, the fetch throws a [RangeError] instead. *)
Theorem empty_fetch_is_success w s d :
  findMany_ok w = true ->
  cacheValid w (cached s) = false ->
  axios_get w = Some d ->
  filterSupported (ApiData.rates d) = ∅ ->
  let s' := logged EvAxiosGet (logged EvFindMany s) in
  (date_valid (ApiData.timestamp d * 1000) = true ->
   getExchangeRates w s
   = (inr (Rates.mk (ApiData.base d) ∅ (ApiData.timestamp d * 1000)), s')
   /\
   forall userId fromCurrency toCurrency amount,
     fromCurrency ∈ supportedCurrencies -> toCurrency ∈ supportedCurrencies ->
     convertCurrency w userId fromCurrency toCurrency amount s
     = (inl RateUnavailableError, s'))
  /\
  (date_valid (ApiData.timestamp d * 1000) = false ->
   fetchAndStoreExchangeRates w (logged EvFindMany s)
   = (inl (RangeError "Invalid time value"), s')).
Proof.
  intros Hr Hv Ha He s'. split; intros Hd.
  - assert (Hg : getExchangeRates w s
                 = (inr (Rates.mk (ApiData.base d) ∅ (ApiData.timestamp d * 1000)), s')).
    { rewrite read_stale by assumption.
      now rewrite (fetch_nothing_to_store _ _ _ Ha He), Hd. }
    split; [exact Hg|].
    intros userId fromCurrency toCurrency amount Hf Ht.
    apply (convert_rate_falsy _ _ _ _ _ Hf Ht _ _ _ Hg).
    left. cbn [Rates.rates]. now rewrite lookup_empty.
  - now rewrite (fetch_nothing_to_store _ _ _ Ha He), Hd.
Qed.

Lemma empty_fetch_is_success_witness :
  let s' := logged EvAxiosGet (logged EvFindMany empty_state) in
  (date_valid (ApiData.timestamp api_useless * 1000) = true ->
   getExchangeRates env_useless empty_state
   = (inr (Rates.mk "USD" ∅ (1700000000 * 1000)), s')
   /\
   forall userId fromCurrency toCurrency amount,
     fromCurrency ∈ supportedCurrencies -> toCurrency ∈ supportedCurrencies ->
     convertCurrency env_useless userId fromCurrency toCurrency amount empty_state
     = (inl RateUnavailableError, s'))
  /\
  (date_valid (ApiData.timestamp api_useless * 1000) = false ->
   fetchAndStoreExchangeRates env_useless (logged EvFindMany empty_state)
   = (inl (RangeError "Invalid time value"), s')).
Proof.
  refine (empty_fetch_is_success env_useless empty_state api_useless _ _ _ _).
  - reflexivity.
  - reflexivity.
  - reflexivity.
  - vm_compute. reflexivity.
Defined.

(** ** What a batch of upserts leaves in the table *)

Section Upserts.

Variables (b : string) (t : Z).

Lemma same_key_true c x :
  same_key b c x = true
  <-> ExchangeRate.baseCurrency x = b /\ ExchangeRate.currency x = c.
Proof.
  unfold same_key. now rewrite andb_true_iff, !bool_decide_eq_true.
Qed.

Lemma same_key_false c x :
  same_key b c x = false
  <-> ~ (ExchangeRate.baseCurrency x = b /\ ExchangeRate.currency x = c).
Proof. rewrite <- same_key_true. now destruct (same_key b c x). Qed.

Lemma upsert_rows_eq c r rows seq :
  upsert_rows b c r t rows seq
  = if existsb (same_key b c) rows
    then (map (rewritten b t c r) rows, seq + 1)
    else (rows ++ [ExchangeRate.mk seq b c r t], seq + 1).
Proof. reflexivity. Qed.

Lemma upsert_rows_elem c r rows seq x :
  x ∈ (upsert_rows b c r t rows seq).1 ->
  x ∈ rows \/
  (ExchangeRate.baseCurrency x = b /\ ExchangeRate.currency x = c /\
   ExchangeRate.rate x = r /\ ExchangeRate.lastUpdated x = t).
Proof.
  rewrite upsert_rows_eq. destruct (existsb _ rows); cbn [fst].
  - intros (y & -> & Hy)%list_elem_of_fmap. unfold rewritten.
    destruct (same_key b c y); [right; now cbn|now left].
  - intros [H|H]%elem_of_app; [now left|].
    apply list_elem_of_singleton in H as ->. right. now cbn.
Qed.

Lemma upsert_rows_settles c r rows seq :
  settled b c r t (upsert_rows b c r t rows seq).1.
Proof.
  rewrite upsert_rows_eq. destruct (existsb _ rows) eqn:E; cbn [fst]; split.
  - apply existsb_exists in E as (y & Hy & Hk).
    exists (rewritten b t c r y). split.
    + apply list_elem_of_fmap. exists y. split; [reflexivity|].
      now apply list_elem_of_In.
    + unfold rewritten. rewrite Hk. now cbn.
  - intros x (y & -> & Hy)%list_elem_of_fmap Hb Hc. unfold rewritten in *.
    destruct (same_key b c y) eqn:Hk; [now cbn|].
    apply same_key_false in Hk. tauto.
  - exists (ExchangeRate.mk seq b c r t). split; [|now cbn].
    apply elem_of_app. right. left.
  - intros x [H|H]%elem_of_app Hb Hc.
    + exfalso. assert (existsb (same_key b c) rows = true); [|congruence].
      apply existsb_exists. exists x. split; [now apply list_elem_of_In|].
      now apply same_key_true.
    + apply list_elem_of_singleton in H as ->. now cbn.
Qed.

Lemma upsert_rows_keeps c r t' c' r' rows seq :
  c' <> c ->
  settled b c r t' rows ->
  settled b c r t' (upsert_rows b c' r' t rows seq).1.
Proof.
  intros Hne [(y & Hy & Hb & Hc) Hall].
  rewrite upsert_rows_eq. destruct (existsb _ rows); cbn [fst]; split.
  - exists y. split; [|now split].
    apply list_elem_of_fmap. exists y. split; [|assumption].
    unfold rewritten.
    assert (same_key b c' y = false) as ->; [|reflexivity].
    apply same_key_false. intros [_ H]. congruence.
  - intros x (z & -> & Hz)%list_elem_of_fmap. unfold rewritten.
    destruct (same_key b c' z); [cbn; intros _ H; congruence|].
    now apply Hall.
  - exists y. split; [|now split]. apply elem_of_app. now left.
  - intros x [H|H]%elem_of_app; [now apply Hall|].
    apply list_elem_of_singleton in H as ->. cbn. intros _ H. congruence.
Qed.

Lemma store_batch_cons e es acc :
  store_batch b t (e :: es) acc = store_batch b t es (store_entry b t acc e).
Proof. reflexivity. Qed.

Lemma store_batch_elem es : forall acc x,
  x ∈ (store_batch b t es acc).1 ->
  x ∈ acc.1 \/
  (ExchangeRate.baseCurrency x = b /\
   (ExchangeRate.currency x, ExchangeRate.rate x) ∈ es /\
   ExchangeRate.lastUpdated x = t).
Proof.
  induction es as [|[c r] es IH]; intros acc x H; [now left|].
  rewrite store_batch_cons in H.
  apply IH in H as [H|(Hb & He & Ht)].
  - apply upsert_rows_elem in H as [H|(Hb & Hc & Hr & Ht)]; [now left|].
    right. cbn [fst snd] in *. subst c r. repeat split; auto. left.
  - right. repeat split; auto. now right.
Qed.

Lemma store_batch_keeps c r t' es : forall acc,
  c ∉ map fst es ->
  settled b c r t' acc.1 -> settled b c r t' (store_batch b t es acc).1.
Proof.
  induction es as [|[c' r'] es IH]; intros acc Hn H; [exact H|].
  cbn [map fst] in Hn. apply not_elem_of_cons in Hn as [Hne Hn].
  rewrite store_batch_cons.
  apply IH; [assumption|]. unfold store_entry. cbn [fst snd].
  apply upsert_rows_keeps; [congruence|exact H].
Qed.

Lemma store_batch_settles es : forall acc c r,
  NoDup (map fst es) ->
  (c, r) ∈ es -> settled b c r t (store_batch b t es acc).1.
Proof.
  induction es as [|[c' r'] es IH]; intros acc c r Hnd Hin;
    [now apply elem_of_nil in Hin|].
  cbn [map fst] in Hnd. apply NoDup_cons in Hnd as [Hfresh Hnd].
  rewrite store_batch_cons.
  apply elem_of_cons in Hin as [[= -> ->]|Hin].
  - apply store_batch_keeps; [assumption|]. apply upsert_rows_settles.
  - now apply IH.
Qed.

(** The tables after a batch in which every upsert resolved. *)
Lemma batch_state w es : forall s,
  batch_ok w es = true ->
  let s' := snd (promise_all (upsertPromises w b t es) s) in
  (exchangeRate s', exchangeRateSeq s')
  = store_batch b t es (exchangeRate s, exchangeRateSeq s).
Proof.
  unfold upsertPromises.
  induction es as [|[c r] es IH]; intros s Hok; [reflexivity|].
  cbn [batch_ok forallb] in Hok. apply andb_true_iff in Hok as [Hc Hok].
  cbn [map promise_all]. rewrite upsert_eq, Hc.
  specialize (IH (mkState
    (upsert_rows b c r t (exchangeRate s) (exchangeRateSeq s)).1
    (upsert_rows b c r t (exchangeRate s) (exchangeRateSeq s)).2
    (transaction s) (transactionSeq s) (trace s ++ [EvUpsert b c])) Hok).
  cbn zeta in IH. destruct (promise_all _ _) as [r' s2].
  cbn [snd] in *. rewrite IH, store_batch_cons.
  cbn [exchangeRate exchangeRateSeq]. unfold store_entry at 1. cbn [fst snd].
  now destruct (upsert_rows b c r t (exchangeRate s) (exchangeRateSeq s)).
Qed.

End Upserts.

(** ** The snapshots written after a fetch *)

Lemma fetch_inr_inv w s d res s' :
  axios_get w = Some d ->
  fetchAndStoreExchangeRates w s = (inr res, s') ->
  res = fetched d /\
  (exchangeRate s', exchangeRateSeq s')
  = store_batch (ApiData.base d) (ApiData.timestamp d * 1000)
      (entries (filterSupported (ApiData.rates d)))
      (exchangeRate s, exchangeRateSeq s).
Proof.
  intros Ha H. rewrite (fetch_online _ _ _ Ha) in H.
  remember (entries (filterSupported (ApiData.rates d))) as es eqn:Ees.
  clear Ees.
  pose proof (batch_outcome w (ApiData.base d) (ApiData.timestamp d * 1000)
                es (logged EvAxiosGet s)) as Ho.
  pose proof (batch_state (ApiData.base d) (ApiData.timestamp d * 1000) w
                es (logged EvAxiosGet s)) as Hs.
  destruct (promise_all _ (logged EvAxiosGet s)) as [r s2].
  unfold answer in H. cbn [fst snd] in *.
  destruct (batch_ok w es); subst r; [|discriminate].
  destruct (date_valid _); [|discriminate].
  injection H as <- <-. split; [reflexivity|]. now apply Hs.
Qed.


(** C7, counterexample.  After the answer [api_eur] on an empty table the
    two rows written are filed under the base "EUR" of the answer, not
    under the base currency "USD" of the service (and the read for "USD"
    that follows finds no row, see [fetched_rates_not_cached]). *)
Lemma snapshots_under_fixed_base_fails : ~ snapshots_under_fixed_base.
Proof.
  intros H.
  destruct (H env_eur empty_state (fetched api_eur)
              (snd (fetchAndStoreExchangeRates env_eur empty_state)))
    as [Hbase _]; [vm_compute; reflexivity|].
  specialize (Hbase (ExchangeRate.mk 1 "EUR" "USD" (q 100 93) 1700000000000)).
  assert (Hb : "EUR" = "USD"); [|discriminate].
  apply Hbase.
  - vm_compute. apply list_elem_of_here.
  - cbn. apply not_elem_of_nil.
Qed.

Example fetched_rates_not_cached :
  cached (snd (getExchangeRates env_eur empty_state)) = [].
Proof. vm_compute. reflexivity. Qed.

(** C7, amended.  Every row that a successful fetch creates or updates is
    filed under the base that the provider's answer reports, with the rate
    returned for its currency and the time of the answer.  When the
    reported base is the base currency of the service, the next cache read
    contains a row for every returned currency, and the formatted read
    gives that currency the returned rate. *)
Theorem snapshots_under_reported_base w s d res s' :
  axios_get w = Some d ->
  fetchAndStoreExchangeRates w s = (inr res, s') ->
  (forall row, row ∈ exchangeRate s' ->
     row ∈ exchangeRate s \/
     (ExchangeRate.baseCurrency row = ApiData.base d /\
      Rates.rates res !! ExchangeRate.currency row = Some (ExchangeRate.rate row) /\
      ExchangeRate.lastUpdated row = ApiData.timestamp d * 1000))
  /\
  (ApiData.base d = baseCurrency ->
   forall c r, Rates.rates res !! c = Some r ->
     Rates.rates (formatExchangeRates w (cached s')) !! c = Some r /\
     exists row, row ∈ cached s' /\
                 ExchangeRate.currency row = c /\ ExchangeRate.rate row = r /\
                 ExchangeRate.lastUpdated row = ApiData.timestamp d * 1000).
Proof.
  intros Ha H. apply (fetch_inr_inv _ _ _ _ _ Ha) in H as [-> Hs].
  assert (Hrows : exchangeRate s'
                  = (store_batch (ApiData.base d) (ApiData.timestamp d * 1000)
                       (entries (filterSupported (ApiData.rates d)))
                       (exchangeRate s, exchangeRateSeq s)).1)
    by now rewrite <- Hs.
  cbn [fetched Rates.rates]. split.
  - intros row Hrow. rewrite Hrows in Hrow.
    apply store_batch_elem in Hrow as [Hrow|(Hb & He & Ht)]; [now left|].
    right. apply elem_of_entries in He as [_ He]. auto.
  - intros Hbase c r Hc.
    assert (Hset : settled baseCurrency c r (ApiData.timestamp d * 1000)
                     (exchangeRate s')).
    { rewrite Hrows, <- Hbase. apply store_batch_settles.
      - apply entries_keys_NoDup.
      - apply elem_of_entries. split; [|exact Hc].
        now apply filterSupported_lookup in Hc as [? _]. }
    destruct Hset as [(x & Hx & Hxb & Hxc) Hall].
    assert (Hxin : x ∈ cached s') by (apply elem_of_findMany; auto).
    split.
    + rewrite format_rates. apply collect_lookup_agree.
      * intros y [Hy Hyb]%elem_of_findMany Hyc. now apply Hall.
      * right. eauto.
    + exists x. destruct (Hall x Hx Hxb Hxc). auto.
Qed.

Lemma snapshots_under_reported_base_witness :
  let s' := snd (fetchAndStoreExchangeRates env_online empty_state) in
  (forall row, row ∈ exchangeRate s' ->
     row ∈ exchangeRate empty_state \/
     (ExchangeRate.baseCurrency row = ApiData.base api_usd /\
      Rates.rates (fetched api_usd) !! ExchangeRate.currency row
      = Some (ExchangeRate.rate row) /\
      ExchangeRate.lastUpdated row = ApiData.timestamp api_usd * 1000))
  /\
  (ApiData.base api_usd = baseCurrency ->
   forall c r, Rates.rates (fetched api_usd) !! c = Some r ->
     Rates.rates (formatExchangeRates env_online (cached s')) !! c = Some r /\
     exists row, row ∈ cached s' /\
                 ExchangeRate.currency row = c /\ ExchangeRate.rate row = r /\
                 ExchangeRate.lastUpdated row = ApiData.timestamp api_usd * 1000).
Proof.
  refine (snapshots_under_reported_base env_online empty_state api_usd
            (fetched api_usd)
            (snd (fetchAndStoreExchangeRates env_online empty_state)) _ _).
  - reflexivity.
  - vm_compute. reflexivity.
Defined.

(** * The transaction listing *)

Lemma convert_transactions w userId fromCurrency toCurrency amount s :
  let s' := snd (convertCurrency w userId fromCurrency toCurrency amount s) in
  transaction s' = transaction s
  \/ exists row, transaction s' = transaction s ++ [row]
                 /\ Transaction.userId row = userId.
Proof.
  cbn zeta.
  destruct (convertCurrency w userId fromCurrency toCurrency amount s)
    as [[e|res] s'] eqn:H; cbn [snd].
  - left.
    destruct (decide (fromCurrency ∈ supportedCurrencies)) as [Hf|Hf];
      [|rewrite convert_unsupported in H by auto; now injection H as _ <-].
    destruct (decide (toCurrency ∈ supportedCurrencies)) as [Ht|Ht];
      [|rewrite convert_unsupported in H by auto; now injection H as _ <-].
    rewrite convert_supported in H by assumption.
    pose proof (getExchangeRates_same_transactions w s) as [Hg _].
    destruct (getExchangeRates w s) as [[e'|rates] s1]; cbn [snd] in Hg;
      [now injection H as _ <-|].
    destruct (_ && _); [|now injection H as _ <-].
    rewrite settle_eq in H. destruct (create_ok w); [discriminate|].
    now injection H as _ <-.
  - right. apply conversion_recorded_rows in H. exact H.
Qed.

Lemma listing_app u s rows :
  filter (fun t => Transaction.userId t = u) (transaction s ++ rows)
  = getUserTransactions u s ++ filter (fun t => Transaction.userId t = u) rows.
Proof. unfold getUserTransactions. apply filter_app. Qed.

Lemma serve_other_user u s q :
  req_user q <> u ->
  getUserTransactions u (serve s q) = getUserTransactions u s.
Proof.
  intros Hne. unfold serve.
  destruct (convert_transactions (req_env q) (req_user q) (req_from q)
              (req_to q) (req_amount q) s) as [H|(row & H & Hu)];
    unfold getUserTransactions at 1; rewrite H; [reflexivity|].
  rewrite listing_app. cbn [filter list_filter].
  rewrite decide_False by congruence. apply app_nil_r.
Qed.

Lemma serve_rows s q row :
  row ∈ transaction (serve s q) ->
  row ∈ transaction s \/ Transaction.userId row = req_user q.
Proof.
  unfold serve.
  destruct (convert_transactions (req_env q) (req_user q) (req_from q)
              (req_to q) (req_amount q) s) as [H|(row' & H & Hu)];
    rewrite H; [now left|].
  intros [Hin|Hin]%elem_of_app; [now left|].
  apply list_elem_of_singleton in Hin as ->. now right.
Qed.

(** C9. After any sequence of conversion requests by any users, the
    listing of user [u] holds only rows whose [userId] is [u]; requests of
    other users leave it as it was; and every row of the table is an old
    one or belongs to the user of one of the requests. *)
Theorem listing_only_own_rows u qs :
  forall s,
    (forall row, row ∈ getUserTransactions u (serve_all s qs) ->
                 Transaction.userId row = u)
    /\
    (Forall (fun q => req_user q <> u) qs ->
     getUserTransactions u (serve_all s qs) = getUserTransactions u s)
    /\
    (forall row, row ∈ transaction (serve_all s qs) ->
       row ∈ transaction s \/
       exists q, q ∈ qs /\ req_user q = Transaction.userId row).
Proof.
  intros s. split; [|split].
  - intros row Hrow. unfold getUserTransactions in Hrow.
    now apply list_elem_of_filter in Hrow as [Hu _].
  - revert s. induction qs as [|q qs' IH]; intros s Hall; [reflexivity|].
    apply Forall_cons in Hall as [Hq Hall]. cbn [serve_all foldl].
    unfold serve_all in IH. rewrite IH by assumption.
    now apply serve_other_user.
  - revert s. induction qs as [|q qs' IH]; intros s row Hrow; [now left|].
    cbn [serve_all foldl] in Hrow. apply IH in Hrow as [Hrow|(q' & Hq' & Hu)].
    + apply serve_rows in Hrow as [Hrow|Hu]; [now left|].
      right. exists q. split; [left|congruence].
    + right. exists q'. split; [now right|assumption].
Qed.

Example listings_apart :
  map Transaction.id (getUserTransactions 7 (serve_all empty_state two_users)) = [1]
  /\ map Transaction.id (getUserTransactions 8 (serve_all empty_state two_users)) = [2].
Proof. split; vm_compute; reflexivity. Qed.

(** * Further properties of the rate cache *)

Lemma batch_trace w b t es : forall s,
  trace (snd (promise_all (upsertPromises w b t es) s))
  = trace s ++ upsert_events b es.
Proof.
  unfold upsertPromises, upsert_events.
  induction es as [|[c r] es IH]; intros s; [cbn; now rewrite app_nil_r|].
  cbn [map promise_all fst]. rewrite upsert_eq.
  destruct (upsert_ok w c).
  - match goal with
    | |- context [promise_all ?ps ?s0] =>
        specialize (IH s0); destruct (promise_all ps s0) as [r' s2]
    end.
    cbn [snd trace] in *. rewrite IH, <- app_assoc. reflexivity.
  - match goal with
    | |- context [promise_all ?ps ?s0] =>
        specialize (IH s0); destruct (promise_all ps s0) as [r' s2]
    end.
    cbn [snd] in *. rewrite IH. unfold logged, emit. cbn [snd trace].
    rewrite <- app_assoc. reflexivity.
Qed.

Lemma fetch_trace w s :
  trace (snd (fetchAndStoreExchangeRates w s)) = trace s ++ fetch_events w.
Proof.
  unfold fetch_events. destruct (axios_get w) as [d|] eqn:Ha.
  - rewrite (fetch_online _ _ _ Ha), answer_state, batch_trace.
    unfold logged, emit. cbn [snd trace]. now rewrite <- app_assoc.
  - now rewrite (fetch_offline _ _ Ha).
Qed.

Lemma getExchangeRates_trace w s :
  trace (snd (getExchangeRates w s))
  = trace s ++ EvFindMany ::
      (if findMany_ok w && negb (cacheValid w (cached s))
       then fetch_events w else []).
Proof.
  destruct (findMany_ok w) eqn:Hr; [|now rewrite read_fails].
  destruct (cacheValid w (cached s)) eqn:Hv; [now rewrite read_valid|].
  rewrite read_stale by assumption. cbn [andb negb].
  pose proof (fetch_trace w (logged EvFindMany s)) as Ht.
  destruct (fetchAndStoreExchangeRates w _) as [[e|r] s'];
    [destruct (cached s)|]; cbn [snd] in *; rewrite Ht;
    unfold logged, emit; cbn [snd trace]; now rewrite <- app_assoc.
Qed.

(** The cache is valid exactly when the table holds a row for the base
    currency that is younger than the window. *)
Lemma cacheValid_iff w s :
  cacheValid w (cached s) = true
  <-> exists r, r ∈ exchangeRate s /\
                ExchangeRate.baseCurrency r = baseCurrency /\
                now w - ExchangeRate.lastUpdated r < cacheExpirationTime.
Proof.
  split.
  - destruct (cached s) as [|r0 rest] eqn:Ec; [discriminate|].
    rewrite cacheValid_cons. intros H%Z.ltb_lt.
    assert (H0 : r0 ∈ cached s) by (rewrite Ec; left).
    apply elem_of_findMany in H0 as [? ?]. eauto.
  - intros (r & Hr & Hb & Hfresh).
    assert (Hc : r ∈ cached s) by (apply elem_of_findMany; auto).
    destruct (cached s) as [|r0 rest] eqn:Ec; [now apply elem_of_nil in Hc|].
    rewrite cacheValid_cons. apply Z.ltb_lt.
    pose proof (findMany_head_newest _ _ _ _ Ec r Hr Hb). lia.
Qed.

Lemma upsert_events_are_upserts b es :
  Forall (fun ev => exists c, ev = EvUpsert b c) (upsert_events b es).
Proof.
  unfold upsert_events. apply Forall_fmap, Forall_forall. intros e _. cbn. eauto.
Qed.

Lemma provider_stale_calls w s :
  findMany_ok w = true ->
  (forall r, r ∈ exchangeRate s ->
             ExchangeRate.baseCurrency r = baseCurrency ->
             cacheExpirationTime <= now w - ExchangeRate.lastUpdated r) ->
  exists b ups,
    trace (snd (getExchangeRates w s))
    = trace s ++ EvFindMany :: EvAxiosGet :: ups /\
    Forall (fun ev => exists c, ev = EvUpsert b c) ups.
Proof.
  rewrite getExchangeRates_trace.
  intros Hr Hold. rewrite Hr.
  assert (cacheValid w (cached s) = false) as ->.
  { destruct (cacheValid w (cached s)) eqn:Hv; [|reflexivity].
    apply cacheValid_iff in Hv as (r & Hin & Hb & Hf).
    specialize (Hold r Hin Hb). lia. }
  cbn [andb negb]. unfold fetch_events.
  destruct (axios_get w) as [d|].
  - exists (ApiData.base d). eexists. split; [reflexivity|].
    apply upsert_events_are_upserts.
  - exists baseCurrency, []. split; [reflexivity|constructor].
Qed.

(** X1. [getExchangeRates] calls the provider at most once, after the cache
    read, and exactly when the read succeeded and the table holds no row
    for the base currency that is less than [cacheExpirationTime] old.
    Upserts are issued only after that call, all under one base. *)
Theorem provider_called_when_stale w s :
  let s' := snd (getExchangeRates w s) in
  (findMany_ok w = true ->
   (forall r, r ∈ exchangeRate s ->
              ExchangeRate.baseCurrency r = baseCurrency ->
              cacheExpirationTime <= now w - ExchangeRate.lastUpdated r) ->
   exists b ups,
     trace s' = trace s ++ EvFindMany :: EvAxiosGet :: ups /\
     Forall (fun ev => exists c, ev = EvUpsert b c) ups)
  /\
  (findMany_ok w = false \/
   (exists r, r ∈ exchangeRate s /\
              ExchangeRate.baseCurrency r = baseCurrency /\
              now w - ExchangeRate.lastUpdated r < cacheExpirationTime) ->
   trace s' = trace s ++ [EvFindMany]).
Proof.
  cbn zeta. split; [apply provider_stale_calls|].
  rewrite getExchangeRates_trace.
  intros [->|Hfresh]; [reflexivity|].
  apply cacheValid_iff in Hfresh as ->. now rewrite andb_false_r.
Qed.

(** X2. The refresh path: when the cache read succeeded but gave no valid
    cache, the provider answered with a time that is a valid date and the
    database accepted every upsert, [getExchangeRates] returns the
    provider's own base and time (in milliseconds) with the filtered rates,
    not the cached rows; it issues the read, the HTTP call and one upsert
    per returned rate, and leaves the transaction table alone. *)
Theorem refresh_returns_fetched w s d :
  findMany_ok w = true ->
  cacheValid w (cached s) = false ->
  axios_get w = Some d ->
  batch_ok w (entries (filterSupported (ApiData.rates d))) = true ->
  date_valid (ApiData.timestamp d * 1000) = true ->
  exists res s',
    getExchangeRates w s = (inr res, s') /\
    Rates.base res = ApiData.base d /\
    Rates.rates res = filterSupported (ApiData.rates d) /\
    Rates.timestamp res = ApiData.timestamp d * 1000 /\
    trace s' = trace s ++ EvFindMany :: EvAxiosGet ::
                 upsert_events (ApiData.base d)
                   (entries (filterSupported (ApiData.rates d))) /\
    transaction s' = transaction s.
Proof.
  intros Hr Hv Ha Hok Hd.
  pose proof (getExchangeRates_trace w s) as Ht.
  pose proof (getExchangeRates_same_transactions w s) as [Htx _].
  rewrite read_stale in * by assumption.
  rewrite Hr, Hv in Ht. cbn [andb negb] in Ht.
  unfold fetch_events in Ht. rewrite Ha in Ht.
  rewrite (fetch_online _ _ _ Ha) in *.
  pose proof (batch_outcome w (ApiData.base d) (ApiData.timestamp d * 1000)
                (entries (filterSupported (ApiData.rates d)))
                (logged EvAxiosGet (logged EvFindMany s))) as Ho.
  rewrite Hok in Ho.
  destruct (promise_all _ _) as [r s2]. cbn [fst] in Ho. subst r.
  unfold answer in *. rewrite Hd in *. cbn [fst snd] in *.
  exists (fetched d), s2.
  split; [reflexivity|]. split; [reflexivity|]. split; [reflexivity|].
  split; [reflexivity|]. split; [exact Ht|exact Htx].
Qed.

Lemma refresh_returns_fetched_witness :
  exists res s',
    getExchangeRates env_online empty_state = (inr res, s') /\
    Rates.base res = ApiData.base api_usd /\
    Rates.rates res = filterSupported (ApiData.rates api_usd) /\
    Rates.timestamp res = ApiData.timestamp api_usd * 1000 /\
    trace s' = trace empty_state ++ EvFindMany :: EvAxiosGet ::
                 upsert_events (ApiData.base api_usd)
                   (entries (filterSupported (ApiData.rates api_usd))) /\
    transaction s' = transaction empty_state.
Proof.
  refine (refresh_returns_fetched env_online empty_state api_usd _ _ _ _ _).
  - reflexivity.
  - reflexivity.
  - reflexivity.
  - vm_compute. reflexivity.
  - reflexivity.
Defined.

(** X3. The rates that a successful fetch returns are exactly the entries
    of the provider's mapping for a supported currency whose rate is truthy
    (not 0, -0 or NaN): codes outside the whitelist and falsy rates never
    appear. *)
Theorem fetched_rates_whitelisted w s d res s' :
  axios_get w = Some d ->
  fetchAndStoreExchangeRates w s = (inr res, s') ->
  forall c r,
    Rates.rates res !! c = Some r
    <-> c ∈ supportedCurrencies /\ ApiData.rates d !! c = Some r /\ falsy r = false.
Proof.
  intros Ha H c r. apply (fetch_inr_inv _ _ _ _ _ Ha) in H as [-> _].
  apply filterSupported_lookup.
Qed.

Lemma fetched_rates_whitelisted_witness :
  Rates.rates (fetched api_usd) !! "EUR" = Some (q 93 100)
  <-> "EUR" ∈ supportedCurrencies /\ ApiData.rates api_usd !! "EUR" = Some (q 93 100)
      /\ falsy (q 93 100) = false.
Proof.
  refine (fetched_rates_whitelisted env_online empty_state api_usd
            (fetched api_usd)
            (snd (fetchAndStoreExchangeRates env_online empty_state)) _ _
            "EUR" (q 93 100)).
  - reflexivity.
  - vm_compute. reflexivity.
Defined.

(** ** Relations that every operation on the rate table keeps *)

Section RowsRelation.

Variable P : list ExchangeRate.t -> list ExchangeRate.t -> Prop.
Hypothesis P_refl : forall rows, P rows rows.
Hypothesis P_trans : forall r1 r2 r3, P r1 r2 -> P r2 r3 -> P r1 r3.
Hypothesis P_upsert : forall b c r t rows seq,
  P rows (upsert_rows b c r t rows seq).1.

Lemma across_refl s : across P s s.
Proof. apply P_refl. Qed.

Lemma across_trans s1 s2 s3 : across P s1 s2 -> across P s2 s3 -> across P s1 s3.
Proof. apply P_trans. Qed.

Lemma across_logged ev s : across P s (logged ev s).
Proof. apply P_refl. Qed.

Lemma across_upsert w b c r t s : across P s (snd (upsert w b c r t s)).
Proof.
  rewrite upsert_eq. destruct (upsert_ok w c); [apply P_upsert|apply P_refl].
Qed.

Lemma across_batch w b t es s :
  across P s (snd (promise_all (upsertPromises w b t es) s)).
Proof.
  unfold upsertPromises. apply (promise_all_rel (across P)).
  - exact across_refl.
  - exact across_trans.
  - induction es as [|[c r] es IH]; constructor; [|exact IH].
    intros s'. apply across_upsert.
Qed.

Lemma across_fetch w s : across P s (snd (fetchAndStoreExchangeRates w s)).
Proof.
  destruct (axios_get w) as [d|] eqn:Ha.
  - rewrite (fetch_online _ _ _ Ha), answer_state.
    exact (across_trans _ _ _ (across_logged EvAxiosGet s)
             (across_batch _ _ _ _ (logged EvAxiosGet s))).
  - rewrite (fetch_offline _ _ Ha). apply across_logged.
Qed.

Lemma across_getExchangeRates w s : across P s (snd (getExchangeRates w s)).
Proof.
  destruct (findMany_ok w) eqn:Hr;
    [|rewrite read_fails by exact Hr; apply across_logged].
  destruct (cacheValid w (cached s)) eqn:Hv;
    [rewrite read_valid by assumption; apply across_logged|].
  rewrite read_stale by assumption.
  pose proof (across_trans _ _ _ (across_logged EvFindMany s)
                (across_fetch w (logged EvFindMany s))) as Hf.
  destruct (fetchAndStoreExchangeRates w _) as [[e|r] s'];
    [destruct (cached s)|]; exact Hf.
Qed.

Lemma across_convertCurrency w userId fromCurrency toCurrency amount s :
  across P s (snd (convertCurrency w userId fromCurrency toCurrency amount s)).
Proof.
  destruct (decide (fromCurrency ∈ supportedCurrencies)) as [Hf|Hf];
    [|rewrite convert_unsupported by auto; apply across_refl].
  destruct (decide (toCurrency ∈ supportedCurrencies)) as [Ht|Ht];
    [|rewrite convert_unsupported by auto; apply across_refl].
  rewrite convert_supported by assumption.
  pose proof (across_getExchangeRates w s) as Hg.
  destruct (getExchangeRates w s) as [[e|rates] s1]; [exact Hg|].
  destruct (_ && _); [|exact Hg].
  rewrite settle_eq. destruct (create_ok w); exact Hg.
Qed.

Lemma across_serve_all qs : forall s, across P s (serve_all s qs).
Proof.
  induction qs as [|q qs IH]; intros s; [apply across_refl|].
  cbn [serve_all foldl]. eapply across_trans; [|apply IH].
  apply across_convertCurrency.
Qed.

End RowsRelation.

Lemma row_key_rewritten b t c r x : row_key (rewritten b t c r x) = row_key x.
Proof.
  unfold rewritten. destruct (same_key b c x) eqn:Hk; [|reflexivity].
  apply same_key_true in Hk as [Hb Hc]. unfold row_key. cbn. congruence.
Qed.

Lemma upsert_rows_unique b c r t rows seq :
  unique_keys rows -> unique_keys (upsert_rows b c r t rows seq).1.
Proof.
  unfold unique_keys. intros Hu. rewrite upsert_rows_eq.
  destruct (existsb _ rows) eqn:E; cbn [fst].
  - rewrite map_map.
    rewrite (map_ext _ row_key (row_key_rewritten b t c r)). exact Hu.
  - rewrite map_app. cbn [map]. apply NoDup_app. split; [exact Hu|].
    split; [|apply NoDup_singleton].
    intros k Hk Hin. apply list_elem_of_singleton in Hin. subst k.
    apply list_elem_of_fmap in Hk as (x & Hx & Hin).
    assert (existsb (same_key b c) rows = true); [|congruence].
    apply existsb_exists. exists x. split; [now apply list_elem_of_In|].
    apply same_key_true. unfold row_key in Hx. cbn in Hx. now injection Hx.
Qed.

(** X4. The writes of the rate cache keep the key [(baseCurrency,
    currency)] unique: if no two rows of the table share a key, this still
    holds after [getExchangeRates], whatever the provider and the database
    answer, and after any sequence of conversion requests. *)
Theorem unique_keys_kept s :
  unique_keys (exchangeRate s) ->
  (forall w, unique_keys (exchangeRate (snd (getExchangeRates w s))))
  /\ (forall qs, unique_keys (exchangeRate (serve_all s qs))).
Proof.
  intros Hu. split.
  - intros w.
    apply (across_getExchangeRates (fun r r' => unique_keys r -> unique_keys r'));
      auto using upsert_rows_unique.
  - intros qs.
    apply (across_serve_all (fun r r' => unique_keys r -> unique_keys r'));
      auto using upsert_rows_unique.
Qed.

Lemma unique_keys_kept_witness :
  (forall w, unique_keys (exchangeRate (snd (getExchangeRates w stale_state))))
  /\ (forall qs, unique_keys (exchangeRate (serve_all stale_state qs))).
Proof.
  apply (unique_keys_kept stale_state).
  apply (bool_decide_unpack _). vm_compute. exact I.
Defined.

Lemma kept_refl rows : kept rows rows.
Proof. split; [eauto|lia]. Qed.

Lemma kept_trans r1 r2 r3 : kept r1 r2 -> kept r2 r3 -> kept r1 r3.
Proof.
  intros [H1 L1] [H2 L2]. split; [|lia].
  intros row Hrow. destruct (H1 row Hrow) as (row' & Hrow' & Hid & Hk).
  destruct (H2 row' Hrow') as (row'' & Hrow'' & Hid' & Hk').
  exists row''. repeat split; congruence.
Qed.

Lemma kept_upsert b c r t rows seq : kept rows (upsert_rows b c r t rows seq).1.
Proof.
  rewrite upsert_rows_eq. destruct (existsb _ rows); cbn [fst]; split.
  - intros row Hrow. exists (rewritten b t c r row).
    split; [now apply list_elem_of_fmap_2|].
    split; [|apply row_key_rewritten].
    unfold rewritten. now destruct (same_key b c row).
  - now rewrite length_map.
  - intros row Hrow. exists row. split; [|auto]. apply elem_of_app. now left.
  - rewrite length_app. lia.
Qed.

(** X5. The rate cache never deletes a snapshot and never files one under
    another key: every row of the table is still there, with its id, base
    and currency, after [getExchangeRates] and after any sequence of
    conversion requests, and the table does not shrink. *)
Theorem snapshots_never_deleted s :
  (forall w, kept (exchangeRate s) (exchangeRate (snd (getExchangeRates w s))))
  /\ (forall qs, kept (exchangeRate s) (exchangeRate (serve_all s qs))).
Proof.
  split.
  - intros w.
    apply (across_getExchangeRates kept kept_refl kept_trans kept_upsert).
  - intros qs.
    apply (across_serve_all kept kept_refl kept_trans kept_upsert).
Qed.

(** ** Upserting what is already there *)









(** ** A batch that the database rejects in part *)

Lemma store_resolved_filter w b t es : forall acc,
  store_resolved w b t es acc
  = store_batch b t (filter (fun e => upsert_ok w e.1 = true) es) acc.
Proof.
  induction es as [|e es IH]; intros acc; [reflexivity|].
  rewrite filter_cons. unfold store_resolved in *. cbn [foldl].
  destruct (upsert_ok w e.1) eqn:E.
  - rewrite decide_True by reflexivity. rewrite store_batch_cons. apply IH.
  - rewrite decide_False by discriminate. apply IH.
Qed.

Lemma batch_state_resolved w b t es : forall s,
  let s' := snd (promise_all (upsertPromises w b t es) s) in
  (exchangeRate s', exchangeRateSeq s')
  = store_resolved w b t es (exchangeRate s, exchangeRateSeq s).
Proof.
  unfold upsertPromises, store_resolved.
  induction es as [|[c r] es IH]; intros s; [reflexivity|].
  cbn [map promise_all foldl fst]. rewrite upsert_eq.
  destruct (upsert_ok w c).
  - match goal with
    | |- context [promise_all ?ps ?s0] =>
        specialize (IH s0); destruct (promise_all ps s0) as [r' s2]
    end.
    cbn [snd exchangeRate exchangeRateSeq] in *. rewrite IH.
    unfold store_entry. cbn [fst snd].
    now destruct (upsert_rows b c r t (exchangeRate s) (exchangeRateSeq s)).
  - match goal with
    | |- context [promise_all ?ps ?s0] =>
        specialize (IH s0); destruct (promise_all ps s0) as [r' s2]
    end.
    cbn [snd] in *. exact IH.
Qed.

Lemma filter_keys_NoDup (P : string * float -> Prop) `{!forall e, Decision (P e)} es :
  NoDup (map fst es) -> NoDup (map fst (filter P es)).
Proof.
  induction es as [|e es IH]; cbn [map]; [intros _; constructor|].
  intros [Hn Hnd]%NoDup_cons. rewrite filter_cons.
  destruct (decide (P e)); [|auto].
  cbn [map]. constructor; [|auto].
  intros (x & Hx & Hin)%list_elem_of_fmap.
  apply list_elem_of_filter in Hin as [_ Hin].
  apply Hn. rewrite Hx. now apply list_elem_of_fmap_2.
Qed.

Lemma batch_resolved_settles w b t es s c r :
  NoDup (map fst es) -> (c, r) ∈ es -> upsert_ok w c = true ->
  settled b c r t
          (exchangeRate (snd (promise_all (upsertPromises w b t es) s))).
Proof.
  intros Hnd Hin Hok.
  pose proof (batch_state_resolved w b t es s) as Hs. cbn zeta in Hs.
  destruct (promise_all _ s) as [r' s2]. cbn [snd] in *.
  replace (exchangeRate s2)
    with (store_resolved w b t es (exchangeRate s, exchangeRateSeq s)).1
    by now rewrite <- Hs.
  rewrite store_resolved_filter. apply store_batch_settles.
  - now apply filter_keys_NoDup.
  - apply list_elem_of_filter. split; [exact Hok|exact Hin].
Qed.

Lemma batch_ok_false w es c r :
  (c, r) ∈ es -> upsert_ok w c = false -> batch_ok w es = false.
Proof.
  intros Hin Hrej. destruct (batch_ok w es) eqn:Hok; [|reflexivity].
  unfold batch_ok in Hok. rewrite forallb_forall in Hok.
  apply list_elem_of_In, Hok in Hin. congruence.
Qed.

Lemma filtered_entry d c r :
  filterSupported (ApiData.rates d) !! c = Some r ->
  (c, r) ∈ entries (filterSupported (ApiData.rates d)).
Proof.
  intros Hc. apply elem_of_entries. split; [|exact Hc].
  now apply filterSupported_lookup in Hc as [? _].
Qed.

(** X7. The upserts of a batch are not rolled back.  When the provider
    answered, every returned rate whose upsert the database accepted is in
    the table afterwards, under the base of the answer, also when another
    upsert of the batch was rejected, in which case
    [fetchAndStoreExchangeRates] rethrows the error of the database. *)
Theorem rejected_upsert_not_rolled_back w s d :
  axios_get w = Some d ->
  let s' := snd (fetchAndStoreExchangeRates w s) in
  (forall c r, filterSupported (ApiData.rates d) !! c = Some r ->
               upsert_ok w c = true ->
               settled (ApiData.base d) c r (ApiData.timestamp d * 1000)
                       (exchangeRate s'))
  /\
  ((exists c r, filterSupported (ApiData.rates d) !! c = Some r /\
                upsert_ok w c = false) ->
   fst (fetchAndStoreExchangeRates w s) = inl PrismaClientError).
Proof.
  intros Ha. cbn zeta. split.
  - intros c r Hc Hok. rewrite (fetch_online _ _ _ Ha), answer_state.
    apply batch_resolved_settles;
      [apply entries_keys_NoDup|now apply filtered_entry|exact Hok].
  - intros (c & r & Hc & Hrej). rewrite (fetch_online _ _ _ Ha).
    unfold answer. cbn [fst]. rewrite batch_outcome.
    now rewrite (batch_ok_false w _ c r (filtered_entry d c r Hc) Hrej).
Qed.

(** The database accepts the upsert of USD and rejects that of EUR. *)
Lemma rejected_upsert_not_rolled_back_witness :
  let s' := snd (fetchAndStoreExchangeRates env_half stale_state) in
  (forall c r, filterSupported (ApiData.rates api_new) !! c = Some r ->
               upsert_ok env_half c = true ->
               settled (ApiData.base api_new) c r
                       (ApiData.timestamp api_new * 1000) (exchangeRate s'))
  /\
  ((exists c r, filterSupported (ApiData.rates api_new) !! c = Some r /\
                upsert_ok env_half c = false) ->
   fst (fetchAndStoreExchangeRates env_half stale_state) = inl PrismaClientError).
Proof.
  refine (rejected_upsert_not_rolled_back env_half stale_state api_new _).
  reflexivity.
Defined.

(** With the stale cache as fallback, the answer of [getExchangeRates]
    still shows the old USD rate while the table already holds the new
    one. *)
Example fallback_after_partial_write :
  fst (getExchangeRates env_half stale_state)
  = inr (formatExchangeRates env_half (cached stale_state))
  /\ map ExchangeRate.lastUpdated
         (exchangeRate (snd (getExchangeRates env_half stale_state)))
     = [1700007000000; 1699999000000].
Proof. split; vm_compute; reflexivity. Qed.

(** The state that a refresh leaves, whatever its outcome. *)
Lemma stale_state_after w s :
  findMany_ok w = true ->
  cacheValid w (cached s) = false ->
  snd (getExchangeRates w s)
  = snd (fetchAndStoreExchangeRates w (logged EvFindMany s)).
Proof.
  intros Hr Hv. rewrite (read_stale _ _ Hr Hv).
  destruct (fetchAndStoreExchangeRates w _) as [[e|r] s']; [|reflexivity].
  now destruct (cached s).
Qed.

Lemma fetch_batch_state w s d :
  axios_get w = Some d ->
  batch_ok w (entries (filterSupported (ApiData.rates d))) = true ->
  let s' := snd (fetchAndStoreExchangeRates w s) in
  (exchangeRate s', exchangeRateSeq s')
  = store_batch (ApiData.base d) (ApiData.timestamp d * 1000)
      (entries (filterSupported (ApiData.rates d)))
      (exchangeRate s, exchangeRateSeq s).
Proof.
  intros Ha Hok. cbn zeta. rewrite (fetch_online _ _ _ Ha), answer_state.
  apply (batch_state (ApiData.base d) (ApiData.timestamp d * 1000) w _
           (logged EvAxiosGet s) Hok).
Qed.

(** X8. What a refresh wrote is what the next request reads.  After a
    refresh that stored a non-empty answer under the base currency of the
    service, a call of [getExchangeRates] made less than
    [cacheExpirationTime] after the time stamp of the provider's answer is
    served from the table without calling the provider, and gives every
    fetched currency the fetched rate. *)
Theorem refreshed_cache_served w1 w2 s d :
  findMany_ok w1 = true ->
  cacheValid w1 (cached s) = false ->
  axios_get w1 = Some d ->
  batch_ok w1 (entries (filterSupported (ApiData.rates d))) = true ->
  ApiData.base d = baseCurrency ->
  filterSupported (ApiData.rates d) <> ∅ ->
  findMany_ok w2 = true ->
  now w2 - ApiData.timestamp d * 1000 < cacheExpirationTime ->
  let s1 := snd (getExchangeRates w1 s) in
  exists res2,
    getExchangeRates w2 s1 = (inr res2, logged EvFindMany s1) /\
    forall c r, filterSupported (ApiData.rates d) !! c = Some r ->
                Rates.rates res2 !! c = Some r.
Proof.
  intros Hr1 Hv1 Ha Hok Hbase Hne Hr2 Hfresh. cbn zeta.
  rewrite (stale_state_after _ _ Hr1 Hv1).
  pose proof (fetch_batch_state w1 (logged EvFindMany s) d Ha Hok) as Hs.
  cbn zeta in Hs.
  remember (snd (fetchAndStoreExchangeRates w1 (logged EvFindMany s))) as s1
    eqn:Es1. clear Es1.
  assert (Hset : forall c r, filterSupported (ApiData.rates d) !! c = Some r ->
            settled baseCurrency c r (ApiData.timestamp d * 1000) (exchangeRate s1)).
  { intros c r Hc.
    replace (exchangeRate s1)
      with (store_batch (ApiData.base d) (ApiData.timestamp d * 1000)
              (entries (filterSupported (ApiData.rates d)))
              (exchangeRate (logged EvFindMany s),
               exchangeRateSeq (logged EvFindMany s))).1
      by now rewrite <- Hs.
    rewrite <- Hbase. apply store_batch_settles;
      [apply entries_keys_NoDup|now apply filtered_entry]. }
  assert (Hv2 : cacheValid w2 (cached s1) = true).
  { apply map_choose in Hne as (c & r & Hc).
    destruct (Hset c r Hc) as [(x & Hx & Hxb & Hxc) Hall].
    apply cacheValid_iff. exists x. repeat split; [assumption..|].
    destruct (Hall x Hx Hxb Hxc) as [_ ->]. exact Hfresh. }
  exists (formatExchangeRates w2 (cached s1)).
  split; [now apply read_valid|].
  intros c r Hc. destruct (Hset c r Hc) as [(x & Hx & Hxb & Hxc) Hall].
  rewrite format_rates. apply collect_lookup_agree.
  - intros y [Hy Hyb]%elem_of_findMany Hyc. now apply Hall.
  - right. exists x. split; [|exact Hxc]. apply elem_of_findMany. auto.
Qed.

Lemma refreshed_cache_served_witness :
  let s1 := snd (getExchangeRates env_online empty_state) in
  exists res2,
    getExchangeRates env_cached s1 = (inr res2, logged EvFindMany s1) /\
    forall c r, filterSupported (ApiData.rates api_usd) !! c = Some r ->
                Rates.rates res2 !! c = Some r.
Proof.
  refine (refreshed_cache_served env_online env_cached empty_state api_usd
            _ _ _ _ _ _ _ _).
  - reflexivity.
  - reflexivity.
  - reflexivity.
  - vm_compute. reflexivity.
  - reflexivity.
  - intros H. apply (f_equal (fun m => m !! "USD")) in H.
    vm_compute in H. discriminate.
  - reflexivity.
  - vm_compute. reflexivity.
Defined.

(** X9. Freshness is counted from the provider's time stamp, not from the
    moment of the fetch.  When a refresh stores an answer whose time stamp
    is already [cacheExpirationTime] old at the next request, that request
    calls the provider again. *)
Theorem old_answer_is_refetched w1 w2 s d :
  findMany_ok w1 = true ->
  cacheValid w1 (cached s) = false ->
  axios_get w1 = Some d ->
  batch_ok w1 (entries (filterSupported (ApiData.rates d))) = true ->
  findMany_ok w2 = true ->
  now w1 <= now w2 ->
  cacheExpirationTime <= now w2 - ApiData.timestamp d * 1000 ->
  let s1 := snd (getExchangeRates w1 s) in
  exists b ups,
    trace (snd (getExchangeRates w2 s1))
    = trace s1 ++ EvFindMany :: EvAxiosGet :: ups /\
    Forall (fun ev => exists c, ev = EvUpsert b c) ups.
Proof.
  intros Hr1 Hv1 Ha Hok Hr2 Hclock Hold. cbn zeta.
  apply provider_stale_calls; [exact Hr2|].
  rewrite (stale_state_after _ _ Hr1 Hv1).
  pose proof (fetch_batch_state w1 (logged EvFindMany s) d Ha Hok) as Hs.
  cbn zeta in Hs.
  remember (snd (fetchAndStoreExchangeRates w1 (logged EvFindMany s))) as s1
    eqn:Es1. clear Es1.
  intros r Hin Hb.
  assert (Hin' : r ∈ (store_batch (ApiData.base d) (ApiData.timestamp d * 1000)
                        (entries (filterSupported (ApiData.rates d)))
                        (exchangeRate s, exchangeRateSeq s)).1)
    by (cbn [logged emit snd exchangeRate exchangeRateSeq] in Hs;
        now rewrite <- Hs).
  apply store_batch_elem in Hin' as [Hin'|(_ & _ & ->)]; [|exact Hold].
  cbn [fst] in Hin'.
  destruct (Z.lt_ge_cases (now w1 - ExchangeRate.lastUpdated r)
              cacheExpirationTime) as [Hlt|Hge]; [|lia].
  assert (cacheValid w1 (cached s) = true); [|congruence].
  apply cacheValid_iff. eauto.
Qed.

Lemma old_answer_is_refetched_witness :
  let s1 := snd (getExchangeRates env_online empty_state) in
  exists b ups,
    trace (snd (getExchangeRates env_half s1))
    = trace s1 ++ EvFindMany :: EvAxiosGet :: ups /\
    Forall (fun ev => exists c, ev = EvUpsert b c) ups.
Proof.
  refine (old_answer_is_refetched env_online env_half empty_state api_usd
            _ _ _ _ _ _ _).
  - reflexivity.
  - reflexivity.
  - reflexivity.
  - vm_compute. reflexivity.
  - reflexivity.
  - vm_compute. discriminate.
  - vm_compute. discriminate.
Defined.

(** * Further properties of the conversion engine *)

(** [getExchangeRates] throws nothing but its own exception. *)
Lemma stale_rates_only_error w s e :
  fst (getExchangeRates w s) = inl e -> e = RatesUnavailableError.
Proof.
  destruct (findMany_ok w) eqn:Hr;
    [|rewrite read_fails by exact Hr; now intros [= <-]].
  destruct (cacheValid w (cached s)) eqn:Hv;
    [rewrite read_valid by assumption; discriminate|].
  rewrite read_stale by assumption.
  destruct (fetchAndStoreExchangeRates w _) as [[e'|r] s'];
    [destruct (cached s)|]; cbn [fst]; try discriminate.
  now intros [= <-].
Qed.

(** X10. [convertCurrency] throws one of four exceptions, each in its own
    circumstances, and none of them leaves a transaction row behind:
    "Unsupported currency" for a code outside the whitelist, before
    anything is called; the exception of [getExchangeRates]; "Exchange
    rate not available" for a missing or falsy rate; and the database's own
    error, unwrapped, when [transaction.create] is rejected. *)
Theorem convertCurrency_exceptions w userId fromCurrency toCurrency amount s e s' :
  convertCurrency w userId fromCurrency toCurrency amount s = (inl e, s') ->
  transaction s' = transaction s /\
  ((e = UnsupportedCurrencyError /\ s' = s /\
    (fromCurrency ∉ supportedCurrencies \/ toCurrency ∉ supportedCurrencies))
   \/
   (e = RatesUnavailableError /\
    getExchangeRates w s = (inl RatesUnavailableError, s'))
   \/
   (e = RateUnavailableError /\
    exists rates, getExchangeRates w s = (inr rates, s') /\
      (truthy (Rates.rates rates !! fromCurrency) = false \/
       truthy (Rates.rates rates !! toCurrency) = false))
   \/
   (e = PrismaClientError /\ create_ok w = false /\
    exists rates s1, getExchangeRates w s = (inr rates, s1) /\
                     s' = logged EvCreate s1)).
Proof.
  intros H.
  destruct (decide (fromCurrency ∈ supportedCurrencies)) as [Hf|Hf];
    [|rewrite convert_unsupported in H by auto; injection H as <- <-; auto 6].
  destruct (decide (toCurrency ∈ supportedCurrencies)) as [Ht|Ht];
    [|rewrite convert_unsupported in H by auto; injection H as <- <-; auto 6].
  rewrite convert_supported in H by assumption.
  pose proof (getExchangeRates_same_transactions w s) as [Htx _].
  pose proof (stale_rates_only_error w s) as Herr.
  destruct (getExchangeRates w s) as [[e'|rates] s1]; cbn [fst snd] in *.
  - injection H as <- <-. rewrite (Herr e' eq_refl). auto 6.
  - destruct (truthy (Rates.rates rates !! fromCurrency)) eqn:Tf;
      destruct (truthy (Rates.rates rates !! toCurrency)) eqn:Tt;
      cbn [andb] in H;
      try (injection H as <- <-; split; [assumption|];
           right; right; left; split; [reflexivity|]; eauto).
    rewrite settle_eq in H. destruct (create_ok w) eqn:Hc; [discriminate|].
    injection H as <- <-. split; [assumption|].
    right; right; right. eauto 6.
Qed.

Lemma convertCurrency_exceptions_witness :
  transaction (logged EvAxiosGet (logged EvFindMany empty_state))
  = transaction empty_state /\
  ((RatesUnavailableError = UnsupportedCurrencyError /\
    logged EvAxiosGet (logged EvFindMany empty_state) = empty_state /\
    ("USD" ∉ supportedCurrencies \/ "EUR" ∉ supportedCurrencies))
   \/
   (RatesUnavailableError = RatesUnavailableError /\
    getExchangeRates env_offline empty_state
    = (inl RatesUnavailableError, logged EvAxiosGet (logged EvFindMany empty_state)))
   \/
   (RatesUnavailableError = RateUnavailableError /\
    exists rates, getExchangeRates env_offline empty_state
                  = (inr rates, logged EvAxiosGet (logged EvFindMany empty_state)) /\
      (truthy (Rates.rates rates !! "USD") = false \/
       truthy (Rates.rates rates !! "EUR") = false))
   \/
   (RatesUnavailableError = PrismaClientError /\ create_ok env_offline = false /\
    exists rates s1, getExchangeRates env_offline empty_state = (inr rates, s1) /\
                     logged EvAxiosGet (logged EvFindMany empty_state)
                     = logged EvCreate s1)).
Proof.
  refine (convertCurrency_exceptions env_offline 7 "USD" "EUR" (q 100 1)
            empty_state RatesUnavailableError
            (logged EvAxiosGet (logged EvFindMany empty_state)) _).
  vm_compute. reflexivity.
Defined.

Lemma convertCurrency_failure_keeps_rows
    w userId fromCurrency toCurrency amount s e s' :
  convertCurrency w userId fromCurrency toCurrency amount s = (inl e, s') ->
  transaction s' = transaction s.
Proof.
  intros H.
  destruct (decide (fromCurrency ∈ supportedCurrencies)) as [Hf|Hf];
    [|rewrite convert_unsupported in H by auto; now injection H as _ <-].
  destruct (decide (toCurrency ∈ supportedCurrencies)) as [Ht|Ht];
    [|rewrite convert_unsupported in H by auto; now injection H as _ <-].
  rewrite convert_supported in H by assumption.
  pose proof (getExchangeRates_same_transactions w s) as [Htx _].
  destruct (getExchangeRates w s) as [[e'|rates] s1]; cbn [snd] in Htx;
    [now injection H as _ <-|].
  destruct (_ && _); [|now injection H as _ <-].
  rewrite settle_eq in H. destruct (create_ok w); [discriminate|].
  now injection H as _ <-.
Qed.

Lemma convert_appends w userId fromCurrency toCurrency amount s :
  let s' := snd (convertCurrency w userId fromCurrency toCurrency amount s) in
  transaction s' = transaction s
  \/ exists row, transaction s' = transaction s ++ [row]
                 /\ Transaction.userId row = userId /\ well_formed row
                 /\ Transaction.amount row = amount.
Proof.
  cbn zeta.
  destruct (convertCurrency w userId fromCurrency toCurrency amount s)
    as [[e|res] s'] eqn:H; cbn [snd].
  - left. now apply convertCurrency_failure_keeps_rows in H.
  - right.
    apply convert_inr_inv in H
      as (rates & s1 & fr & tr & Hf & Ht & Hg & _ & Nf & _ & Nt & Hc & Hs).
    rewrite settle_eq, Hc in Hs. injection Hs as _ <-.
    pose proof (getExchangeRates_same_transactions w s) as [Htx _].
    rewrite Hg in Htx. cbn [snd] in Htx.
    eexists. cbn [transaction]. rewrite Htx. split; [reflexivity|].
    split; [reflexivity|]. unfold well_formed, created. cbn.
    repeat split; [assumption..|]. now exists fr, tr.
Qed.

(** X11. The transaction table is an append-only log.  After any sequence
    of conversion requests the rows that were there are still there,
    unchanged and in place; at most one row per request has been added;
    and every added row belongs to the user of one of the requests, names
    two supported currencies and holds the rate [toRate / fromRate] and the
    converted amount [(amount / fromRate) * toRate] that the code computes
    from two truthy rates. *)
Theorem transaction_log_append_only qs : forall s,
  exists added,
    transaction (serve_all s qs) = transaction s ++ added /\
    (length added <= length qs)%nat /\
    Forall (fun row => well_formed row /\
                       exists q, q ∈ qs /\ req_user q = Transaction.userId row)
           added.
Proof.
  induction qs as [|q qs IH]; intros s.
  - exists []. cbn. rewrite app_nil_r. repeat split; [lia|constructor].
  - cbn [serve_all foldl]. destruct (IH (serve s q)) as (added & Ha & Hl & Hw).
    unfold serve_all in Ha. rewrite Ha.
    assert (Hw' : Forall (fun row => well_formed row /\
                    exists q', q' ∈ q :: qs /\ req_user q' = Transaction.userId row)
                    added).
    { eapply Forall_impl; [exact Hw|]. intros row [? (q' & ? & ?)].
      split; [assumption|]. exists q'. split; [now right|assumption]. }
    destruct (convert_appends (req_env q) (req_user q) (req_from q) (req_to q)
                (req_amount q) s) as [H|(row & H & Hu & Hrow & _)];
      fold (serve s q) in H; rewrite H.
    + exists added. repeat split; [cbn; lia|exact Hw'].
    + exists (row :: added). rewrite <- app_assoc. repeat split; [cbn; lia|].
      constructor; [|exact Hw']. split; [exact Hrow|].
      exists q. split; [left|congruence].
Qed.

(** ** The numbers of a conversion and the formulas of the specification *)

(** X12. The two numbers that a conversion returns are the values of the
    formulas of the specification, evaluated over the rationals on the
    amount and the two rates, up to rounding: the exchange rate up to a
    relative error of [2^-53] and the converted amount up to [2^-51],
    provided that the results of the division and of the product are normal
    numbers (no overflow and no underflow). *)
Theorem conversion_within_rounding
    w userId fromCurrency toCurrency amount s res s' rates s1 fromRate toRate :
  convertCurrency w userId fromCurrency toCurrency amount s = (inr res, s') ->
  getExchangeRates w s = (inr rates, s1) ->
  Rates.rates rates !! fromCurrency = Some fromRate ->
  Rates.rates rates !! toCurrency = Some toRate ->
  (normal (Conversion.exchangeRate res) = true ->
   close unit_roundoff (spec_exchangeRate (F2Q fromRate) (F2Q toRate))
         (F2Q (Conversion.exchangeRate res)))
  /\
  (normal (amount / fromRate)%double = true ->
   normal (Conversion.convertedAmount res) = true ->
   close (1 # 2 ^ 51)
         (spec_convertedAmount (F2Q amount) (F2Q fromRate) (F2Q toRate))
         (F2Q (Conversion.convertedAmount res))).
Proof.
  intros H Hg Ef Et.
  apply convert_inr_values in H
    as (rates' & s1' & fr & tr & Hg' & Ef' & _ & Et' & _ & ->).
  rewrite Hg in Hg'. injection Hg' as <- <-.
  rewrite Ef in Ef'. injection Ef' as <-. rewrite Et in Et'. injection Et' as <-.
  cbn [Conversion.exchangeRate Conversion.convertedAmount].
  unfold spec_exchangeRate, spec_convertedAmount. split.
  - intros N. destruct (fdiv_normal_divisor _ _ N) as (sf & mf & ef & ->).
    pose proof (F2Q_finite_nonzero sf mf ef) as Hnz.
    pose proof (fdiv_close _ _ N) as C.
    apply (close_scale _ _ _ (/ F2Q (S754_finite sf mf ef))) in C.
    revert C. apply close_proper; [reflexivity|reflexivity|]. field. exact Hnz.
  - intros N1 N2. destruct (fdiv_normal_divisor _ _ N1) as (sf & mf & ef & ->).
    pose proof (F2Q_finite_nonzero sf mf ef) as Hnz.
    pose proof (fdiv_close _ _ N1) as C1.
    pose proof (fmul_close _ _ N2) as C2.
    apply (close_scale _ _ _ (/ F2Q (S754_finite sf mf ef) * F2Q toRate)) in C1.
    apply (close_weaken (unit_roundoff + unit_roundoff + unit_roundoff * unit_roundoff));
      [vm_compute; discriminate|].
    eapply close_trans; [vm_compute; discriminate| |exact C2].
    revert C1. apply close_proper; [reflexivity| |]; field; exact Hnz.
Qed.

Lemma conversion_within_rounding_witness :
  (normal (Conversion.exchangeRate usd_to_eur) = true ->
   close unit_roundoff (spec_exchangeRate (F2Q (q 1 1)) (F2Q (q 93 100)))
         (F2Q (Conversion.exchangeRate usd_to_eur)))
  /\
  (normal (q 100 1 / q 1 1)%double = true ->
   normal (Conversion.convertedAmount usd_to_eur) = true ->
   close (1 # 2 ^ 51)
         (spec_convertedAmount (F2Q (q 100 1)) (F2Q (q 1 1)) (F2Q (q 93 100)))
         (F2Q (Conversion.convertedAmount usd_to_eur))).
Proof.
  refine (conversion_within_rounding env_online 7 "USD" "EUR" (q 100 1)
            empty_state usd_to_eur after_usd_to_eur (fetched api_usd)
            (snd (getExchangeRates env_online empty_state))
            (q 1 1) (q 93 100) _ _ _ _).
  - vm_compute. reflexivity.
  - vm_compute. reflexivity.
  - vm_compute. reflexivity.
  - vm_compute. reflexivity.
Defined.

(** * Authentication *)

(** ** The store of used tokens *)

Lemma used_token_key_inj token token' :
  used_token_key token = used_token_key token' -> token = token'.
Proof. unfold used_token_key. cbn. now intros [=]. Qed.

Lemma redis_exists_insert a key key' v expiry r :
  redis_exists a key' (<[key := (v, expiry)]> r)
  = if decide (key = key')
    then (if expired a expiry then 0 else 1)
    else redis_exists a key' r.
Proof.
  unfold redis_exists. destruct (decide (key = key')) as [->|Hne].
  - now rewrite lookup_insert_eq.
  - now rewrite lookup_insert_ne.
Qed.

Lemma redis_exists_bit a key r :
  redis_exists a key r = 0 \/ redis_exists a key r = 1.
Proof.
  unfold redis_exists. destruct (r !! key) as [[v e]|]; [|now left].
  destruct (expired a e); auto.
Qed.

Lemma expired_before a expiry : redis_now a < expiry -> expired a expiry = false.
Proof.
  intros H. unfold expired.
  destruct (Z.ltb_spec expiry (redis_now a)); [lia|].
  destruct (Z.eqb_spec expiry (redis_now a)); [lia|reflexivity].
Qed.

Lemma expired_after a expiry : expiry < redis_now a -> expired a expiry = true.
Proof.
  intros H. unfold expired.
  destruct (Z.ltb_spec expiry (redis_now a)); [reflexivity|lia].
Qed.

(** X15. A stored token counts as used until its time to live has run out,
    and only that token: after [storeToken], [isTokenUsed] answers [true]
    for the token as long as the clock of Redis is before the moment of
    storing plus [ttlSeconds], and [false] once it is past it; for every
    other token it answers what it answered before.  The user table is not
    touched. *)
Theorem stored_token_is_used a a' token userId ttlSeconds s :
  redis_setex_ok a = true ->
  0 < ttlSeconds ->
  redis_exists_ok a' = true ->
  let s' := snd (storeToken a token userId ttlSeconds s) in
  (redis_now a' < redis_now a + ttlSeconds * 1000 ->
   fst (isTokenUsed a' token s') = inr true)
  /\
  (redis_now a + ttlSeconds * 1000 < redis_now a' ->
   fst (isTokenUsed a' token s') = inr false)
  /\
  (forall token', token' <> token ->
     fst (isTokenUsed a' token' s') = fst (isTokenUsed a' token' s))
  /\ user s' = user s.
Proof.
  intros Hset Httl Hex. cbn zeta. unfold storeToken, isTokenUsed.
  rewrite Hset, Hex. apply Z.ltb_lt in Httl. rewrite Httl.
  cbn [andb snd fst redis user].
  split; [|split; [|split; [|reflexivity]]].
  - intros H. rewrite redis_exists_insert, decide_True by reflexivity.
    now rewrite expired_before.
  - intros H. rewrite redis_exists_insert, decide_True by reflexivity.
    now rewrite expired_after.
  - intros token' Hne. rewrite redis_exists_insert, decide_False; [reflexivity|].
    intros H%used_token_key_inj. congruence.
Qed.

Lemma stored_token_is_used_witness :
  let s' := snd (storeToken (auth_env 1000) "nonce-1" 7 86400 no_users) in
  (redis_now (auth_env 2000) < redis_now (auth_env 1000) + 86400 * 1000 ->
   fst (isTokenUsed (auth_env 2000) "nonce-1" s') = inr true)
  /\
  (redis_now (auth_env 1000) + 86400 * 1000 < redis_now (auth_env 2000) ->
   fst (isTokenUsed (auth_env 2000) "nonce-1" s') = inr false)
  /\
  (forall token', token' <> "nonce-1" ->
     fst (isTokenUsed (auth_env 2000) token' s')
     = fst (isTokenUsed (auth_env 2000) token' no_users))
  /\ user s' = user no_users.
Proof.
  refine (stored_token_is_used (auth_env 1000) (auth_env 2000) "nonce-1" 7
            86400 no_users _ _ _).
  - reflexivity.
  - lia.
  - reflexivity.
Defined.

(** ** Case analysis of [validateUser] and [login] *)

Section Login.

Variables (a : AuthEnv) (dto : LoginDto.t).

Lemma validateUser_eq email password s :
  validateUser a email password s
  = if user_find_ok a
    then match find (has_email email) (user s) with
         | Some u =>
             if bcrypt_compare a password (User.password u)
             then (inr (sans_password u), s)
             else (inl (UnauthorizedException "Invalid credentials"), s)
         | None => (inl (UnauthorizedException "Invalid credentials"), s)
         end
    else (inl UserStoreError, s).
Proof.
  unfold validateUser, abind, user_findUnique, athrow, aret.
  destruct (user_find_ok a); [|reflexivity].
  destruct (find _ _) as [u|]; [|reflexivity].
  now destruct (bcrypt_compare a password (User.password u)).
Qed.

(** The outcome of [login] once the credentials have been validated. *)
Lemma login_eq s :
  login a dto s
  = match validateUser a (LoginDto.email dto) (LoginDto.password dto) s with
    | (inl e, s') => (inl e, s')
    | (inr u, s') =>
        if redis_exists_ok a
        then if redis_exists a (used_token_key (LoginDto.nonce dto))
                             (redis s') =? 1
             then (inl (BadRequestException
                          "This request has already been processed"), s')
             else if redis_setex_ok a
                  then (inr (issued a u),
                        mkAuthState (user s') (userSeq s')
                          (<[used_token_key (LoginDto.nonce dto) :=
                               (pretty (Principal.id u),
                                redis_now a + 86400 * 1000)]> (redis s')))
                  else (inl RedisError, s')
        else (inl RedisError, s')
    end.
Proof.
  unfold login, abind.
  destruct (validateUser a _ _ s) as [[e|u] s']; [reflexivity|].
  unfold isTokenUsed, storeToken, athrow, aret, issued.
  destruct (redis_exists_ok a); [|reflexivity].
  destruct (_ =? 1); [reflexivity|].
  destruct (redis_setex_ok a); reflexivity.
Qed.

End Login.

Lemma validateUser_state a email password s :
  snd (validateUser a email password s) = s.
Proof.
  rewrite validateUser_eq. destruct (user_find_ok a); [|reflexivity].
  destruct (find _ _) as [u|]; [|reflexivity].
  now destruct (bcrypt_compare a password (User.password u)).
Qed.

Lemma login_inr_inv a dto s res s1 :
  login a dto s = (inr res, s1) ->
  exists u,
    user_find_ok a = true /\
    find (has_email (LoginDto.email dto)) (user s) = Some u /\
    bcrypt_compare a (LoginDto.password dto) (User.password u) = true /\
    redis_exists_ok a = true /\
    redis_exists a (used_token_key (LoginDto.nonce dto)) (redis s) = 0 /\
    redis_setex_ok a = true /\
    res = issued a (sans_password u) /\
    s1 = mkAuthState (user s) (userSeq s)
           (<[used_token_key (LoginDto.nonce dto) :=
                (pretty (User.id u), redis_now a + 86400 * 1000)]> (redis s)).
Proof.
  rewrite login_eq, validateUser_eq.
  destruct (user_find_ok a) eqn:Hfind; [|discriminate].
  destruct (find _ _) as [u|] eqn:Hu; [|discriminate].
  destruct (bcrypt_compare a _ _) eqn:Hpw; [|discriminate].
  destruct (redis_exists_ok a) eqn:Hex; [|discriminate].
  destruct (redis_exists_bit a
              (used_token_key (LoginDto.nonce dto)) (redis s)) as [E|E];
    rewrite E; cbn [Z.eqb Pos.eqb]; [|discriminate].
  destruct (redis_setex_ok a) eqn:Hset; [|discriminate].
  intros [= <- <-]. exists u. repeat split; assumption || reflexivity.
Qed.

(** ** Case analysis of [register] *)

Lemma find_email_None email users :
  find (has_email email) users = None
  <-> forall u, u ∈ users -> User.email u <> email.
Proof.
  split.
  - intros H u Hu%list_elem_of_In He.
    apply (find_none _ _ H u) in Hu.
    unfold has_email in Hu. now rewrite bool_decide_eq_true_2 in Hu.
  - intros H. destruct (find _ users) as [u|] eqn:E; [|reflexivity].
    apply find_some in E as [Hin He]. apply bool_decide_eq_true in He.
    apply list_elem_of_In in Hin. now apply H in Hin.
Qed.

Lemma existsb_email_false email users :
  find (has_email email) users = None -> existsb (has_email email) users = false.
Proof.
  intros H. destruct (existsb _ users) eqn:E; [|reflexivity].
  apply existsb_exists in E as (u & Hin & He).
  now rewrite (find_none _ _ H u Hin) in He.
Qed.

Lemma find_app_None {A} (f : A -> bool) l l' :
  find f l = None -> find f (l ++ l') = find f l'.
Proof.
  induction l as [|x l IH]; [reflexivity|]. cbn.
  destruct (f x); [discriminate|exact IH].
Qed.

Lemma register_eq a dto s :
  register a dto s
  = if user_find_ok a
    then match find (has_email (RegisterDto.email dto)) (user s) with
         | Some _ =>
             (inl (ConflictException "User with this email already exists"), s)
         | None =>
             if user_create_ok a
             then (inr (AuthResult.mk
                          (jwt_sign a (JwtPayload.mk (userSeq s)
                                         (RegisterDto.email dto)
                                         (date_now a / 1000)))
                          (userSeq s) (RegisterDto.email dto)
                          (RegisterDto.name dto)),
                   mkAuthState
                     (user s ++ [User.mk (userSeq s) (RegisterDto.email dto)
                                   (bcrypt_hash a (RegisterDto.password dto))
                                   (RegisterDto.name dto)
                                   (user_db_now a) (user_db_now a)])
                     (userSeq s + 1) (redis s))
             else (inl UserStoreError, s)
         end
    else (inl UserStoreError, s).
Proof.
  unfold register, abind, user_findUnique, user_create, athrow, aret.
  destruct (user_find_ok a); [|reflexivity].
  destruct (find _ _) as [u|] eqn:E; [reflexivity|].
  rewrite (existsb_email_false _ _ E).
  destruct (user_create_ok a); reflexivity.
Qed.

(** ** Logins step by step *)

(** [login] is its three steps run in a row. *)
Lemma login_alone a dto s :
  let r1 := login_step a dto AtValidate s in
  let r2 := login_step a dto r1.1 r1.2 in
  let r3 := login_step a dto r2.1 r2.2 in
  exists r, r3.1 = Finished r /\ login a dto s = (r, r3.2).
Proof.
  cbn zeta. rewrite login_eq.
  destruct (login_step a dto AtValidate s) as [pc1 s1] eqn:E1. cbn [fst snd].
  unfold login_step in E1.
  destruct (validateUser a _ _ s) as [[e|u] s']; injection E1 as <- <-.
  { eexists. split; reflexivity. }
  cbn [login_step]. unfold isTokenUsed.
  destruct (redis_exists_ok a); cbn [fst snd login_step];
    [|eexists; split; reflexivity].
  destruct (_ =? 1); cbn [fst snd login_step]; [eexists; split; reflexivity|].
  unfold storeToken.
  destruct (redis_setex_ok a); cbn [andb Z.ltb Z.compare fst snd login_step];
    eexists; split; reflexivity.
Qed.

Lemma login_step_redis a dto pc s :
  redis (login_step a dto pc s).2 = redis s
  \/ exists v, redis (login_step a dto pc s).2
               = <[used_token_key (LoginDto.nonce dto) :=
                     (v, redis_now a + 86400 * 1000)]> (redis s).
Proof.
  destruct pc as [|u|u|r]; unfold login_step.
  - pose proof (validateUser_state a (LoginDto.email dto) (LoginDto.password dto) s) as E.
    destruct (validateUser a _ _ s) as [[e|u] s']; cbn [snd] in *; subst; now left.
  - unfold isTokenUsed. destruct (redis_exists_ok a); [|now left].
    destruct (_ =? 1); now left.
  - unfold storeToken. destruct (redis_setex_ok a); cbn [andb snd]; [|now left].
    right. eexists. reflexivity.
  - now left.
Qed.

Lemma login_step_keeps nonce t a dto pc s :
  recorded_until nonce t s ->
  t <= redis_now a + 86400 * 1000 ->
  recorded_until nonce t (login_step a dto pc s).2.
Proof.
  intros (v & e & Hv & He) Ht. unfold recorded_until.
  destruct (login_step_redis a dto pc s) as [->|[v' ->]]; [eauto|].
  destruct (decide (used_token_key (LoginDto.nonce dto) = used_token_key nonce))
    as [->|Hne].
  - rewrite lookup_insert_eq. eauto.
  - rewrite lookup_insert_ne by exact Hne. eauto.
Qed.

Lemma register_redis a dto s : redis (register a dto s).2 = redis s.
Proof.
  rewrite register_eq. destruct (user_find_ok a); [|reflexivity].
  destruct (find _ _); [reflexivity|]. now destruct (user_create_ok a).
Qed.

Lemma run_turns_keeps nonce t ts : forall ps,
  recorded_until nonce t ps.2 ->
  Forall (fun turn => t <= turn_clock turn + 86400 * 1000) ts ->
  recorded_until nonce t (run_turns ts ps).2.
Proof.
  induction ts as [|x ts IH]; intros ps Hr Hts; [exact Hr|].
  apply Forall_cons in Hts as [Hx Hts]. cbn [run_turns foldl].
  apply IH; [|exact Hts]. destruct x as [a i|a dto]; cbn [take_turn turn_clock] in *.
  - destruct (ps.1 !! i) as [[dto pc]|]; [|exact Hr]. cbn [snd].
    now apply login_step_keeps.
  - cbn [snd]. unfold recorded_until. rewrite register_redis. exact Hr.
Qed.

(** X16. A nonce that a login has stored cannot be replayed.  Once the
    [storeToken] step of a login has succeeded, whatever steps of other
    logins and whatever registrations run afterwards (the clock of Redis
    not going back), a login with the same nonce whose check runs less than
    86,400 s later by the clock of Redis stops there: it is refused with
    "This request has already been processed" when Redis answers, and with
    the error of Redis otherwise.  The state is not changed by the check. *)
Theorem nonce_cannot_be_replayed a1 dto u s res s1 ts ps ps' s2 a2 dto' u' :
  login_step a1 dto (AtStore u) s = (Finished (inr res), s1) ->
  Forall (fun turn => redis_now a1 <= turn_clock turn) ts ->
  run_turns ts (ps, s1) = (ps', s2) ->
  LoginDto.nonce dto' = LoginDto.nonce dto ->
  redis_now a2 < redis_now a1 + 86400 * 1000 ->
  exists e,
    login_step a2 dto' (AtCheck u') s2 = (Finished (inl e), s2) /\
    (redis_exists_ok a2 = true ->
     e = BadRequestException "This request has already been processed") /\
    (redis_exists_ok a2 = false -> e = RedisError).
Proof.
  intros Hstore Hts Hrun Hn Hnow.
  assert (Hrec : recorded_until (LoginDto.nonce dto) (redis_now a1 + 86400 * 1000) s1).
  { unfold login_step, storeToken in Hstore.
    destruct (redis_setex_ok a1); cbn [andb] in Hstore; [|discriminate].
    injection Hstore as _ <-. unfold recorded_until. cbn [redis].
    rewrite lookup_insert_eq. eexists _, _. split; [reflexivity|lia]. }
  assert (Hrec2 : recorded_until (LoginDto.nonce dto)
                    (redis_now a1 + 86400 * 1000) (run_turns ts (ps, s1)).2).
  { apply run_turns_keeps; [exact Hrec|].
    eapply Forall_impl; [exact Hts|]. intros t Ht. cbn beta in *. lia. }
  rewrite Hrun in Hrec2. cbn [snd] in Hrec2.
  destruct Hrec2 as (v & e & Hv & He).
  unfold login_step, isTokenUsed. rewrite Hn.
  destruct (redis_exists_ok a2).
  - unfold redis_exists. rewrite Hv, expired_before by lia. cbn [Z.eqb Pos.eqb].
    eexists. split; [reflexivity|]. split; [reflexivity|discriminate].
  - eexists. split; [reflexivity|]. split; [discriminate|reflexivity].
Qed.

(** Ada's login has stored its nonce; a second login of hers registers
    nothing new and checks the same nonce one second later. *)
Lemma nonce_cannot_be_replayed_witness :
  exists e,
    login_step (auth_env 1700000002000) ada_logs_in (AtCheck ada) ada_logged_in
    = (Finished (inl e), ada_logged_in) /\
    (redis_exists_ok (auth_env 1700000002000) = true ->
     e = BadRequestException "This request has already been processed") /\
    (redis_exists_ok (auth_env 1700000002000) = false -> e = RedisError).
Proof.
  refine (nonce_cannot_be_replayed (auth_env 1700000001000) ada_logs_in ada
            ada_registered (issued (auth_env 1700000001000) ada) ada_logged_in
            [StepLogin (auth_env 1700000001500) 0]
            [(ada_logs_in, AtValidate)]
            [(ada_logs_in, AtCheck ada)] ada_logged_in
            (auth_env 1700000002000) ada_logs_in ada _ _ _ _ _).
  - vm_compute. reflexivity.
  - repeat constructor. vm_compute. discriminate.
  - vm_compute. reflexivity.
  - reflexivity.
  - vm_compute. reflexivity.
Defined.

Lemma step_validate a dto u s :
  validateUser a (LoginDto.email dto) (LoginDto.password dto) s = (inr u, s) ->
  login_step a dto AtValidate s = (AtCheck u, s).
Proof. intros H. unfold login_step. now rewrite H. Qed.

Lemma step_check a dto u s :
  fst (isTokenUsed a (LoginDto.nonce dto) s) = inr false ->
  login_step a dto (AtCheck u) s = (AtStore u, s).
Proof.
  unfold login_step, isTokenUsed. destruct (redis_exists_ok a); [|discriminate].
  cbn [fst]. now intros [= ->].
Qed.

Lemma step_store a dto u s :
  redis_setex_ok a = true ->
  login_step a dto (AtStore u) s
  = (Finished (inr (issued a u)),
     mkAuthState (user s) (userSeq s)
       (<[used_token_key (LoginDto.nonce dto) :=
            (pretty (Principal.id u), redis_now a + 86400 * 1000)]> (redis s))).
Proof. intros H. unfold login_step, storeToken. now rewrite H. Qed.

(** X24. The check of the nonce and its storing are two separate awaits:
    when two logins with valid credentials and the same unused nonce
    overlap so that both have checked the nonce before either stores it,
    both logins succeed and each returns a token; the second store
    overwrites the entry of the first. *)
Theorem overlapping_logins_both_succeed a1 a2 dto1 dto2 u1 u2 s :
  LoginDto.nonce dto1 = LoginDto.nonce dto2 ->
  validateUser a1 (LoginDto.email dto1) (LoginDto.password dto1) s = (inr u1, s) ->
  validateUser a2 (LoginDto.email dto2) (LoginDto.password dto2) s = (inr u2, s) ->
  fst (isTokenUsed a1 (LoginDto.nonce dto1) s) = inr false ->
  fst (isTokenUsed a2 (LoginDto.nonce dto2) s) = inr false ->
  redis_setex_ok a1 = true ->
  redis_setex_ok a2 = true ->
  exists s',
    run_turns [StepLogin a1 0; StepLogin a2 1;      (* both validate *)
               StepLogin a1 0; StepLogin a2 1;      (* both check *)
               StepLogin a1 0; StepLogin a2 1]      (* both store *)
              ([(dto1, AtValidate); (dto2, AtValidate)], s)
    = ([(dto1, Finished (inr (issued a1 u1)));
        (dto2, Finished (inr (issued a2 u2)))], s')
    /\ user s' = user s
    /\ redis s' !! used_token_key (LoginDto.nonce dto1)
       = Some (pretty (Principal.id u2), redis_now a2 + 86400 * 1000).
Proof.
  intros Hn Hv1 Hv2 Hc1 Hc2 Hs1 Hs2.
  eexists. split.
  - unfold run_turns. cbn [foldl].
    unfold take_turn at 6. cbn [fst snd lookup list_lookup].
    rewrite (step_validate _ _ _ _ Hv1). cbn [fst snd insert list_insert].
    unfold take_turn at 5. cbn [fst snd lookup list_lookup].
    rewrite (step_validate _ _ _ _ Hv2). cbn [fst snd insert list_insert].
    unfold take_turn at 4. cbn [fst snd lookup list_lookup].
    rewrite (step_check _ _ _ _ Hc1). cbn [fst snd insert list_insert].
    unfold take_turn at 3. cbn [fst snd lookup list_lookup].
    rewrite (step_check _ _ _ _ Hc2). cbn [fst snd insert list_insert].
    unfold take_turn at 2. cbn [fst snd lookup list_lookup].
    rewrite (step_store _ _ _ _ Hs1). cbn [fst snd insert list_insert].
    unfold take_turn. cbn [fst snd lookup list_lookup].
    rewrite (step_store _ _ _ _ Hs2). cbn [fst snd insert list_insert].
    reflexivity.
  - split; [reflexivity|]. cbn [redis]. rewrite Hn. apply lookup_insert_eq.
Qed.

Lemma overlapping_logins_both_succeed_witness :
  exists s',
    run_turns [StepLogin (auth_env 1700000001000) 0;
               StepLogin (auth_env 1700000001001) 1;
               StepLogin (auth_env 1700000001000) 0;
               StepLogin (auth_env 1700000001001) 1;
               StepLogin (auth_env 1700000001000) 0;
               StepLogin (auth_env 1700000001001) 1]
              ([(ada_logs_in, AtValidate); (ada_logs_in, AtValidate)],
               ada_registered)
    = ([(ada_logs_in, Finished (inr (issued (auth_env 1700000001000) ada)));
        (ada_logs_in, Finished (inr (issued (auth_env 1700000001001) ada)))], s')
    /\ user s' = user ada_registered
    /\ redis s' !! used_token_key (LoginDto.nonce ada_logs_in)
       = Some (pretty (Principal.id ada),
               redis_now (auth_env 1700000001001) + 86400 * 1000).
Proof.
  refine (overlapping_logins_both_succeed (auth_env 1700000001000)
            (auth_env 1700000001001) ada_logs_in ada_logs_in ada ada
            ada_registered _ _ _ _ _ _ _).
  - reflexivity.
  - vm_compute. reflexivity.
  - vm_compute. reflexivity.
  - vm_compute. reflexivity.
  - vm_compute. reflexivity.
  - reflexivity.
  - reflexivity.
Defined.

(** X17. The protection lasts one day: once more than 86,400 s have
    passed on the clock of Redis since the login that used it, the same
    nonce is accepted again for the same credentials. *)
Theorem nonce_accepted_after_a_day a1 a2 dto s res s1 :
  login a1 dto s = (inr res, s1) ->
  redis_now a1 + 86400 * 1000 < redis_now a2 ->
  user_find_ok a2 = true ->
  redis_exists_ok a2 = true ->
  redis_setex_ok a2 = true ->
  (forall p h, bcrypt_compare a2 p h = bcrypt_compare a1 p h) ->
  exists res' s2,
    login a2 dto s1 = (inr res', s2) /\
    AuthResult.id res' = AuthResult.id res /\
    AuthResult.email res' = AuthResult.email res.
Proof.
  intros H Hnow Hfind Hex Hset Hcmp.
  apply login_inr_inv in H as (u & _ & Hu & Hpw & _ & _ & _ & -> & ->).
  rewrite login_eq, validateUser_eq, Hfind. cbn [user redis]. rewrite Hu.
  rewrite Hcmp, Hpw. cbn [user redis]. rewrite Hex.
  rewrite redis_exists_insert, decide_True by reflexivity.
  rewrite expired_after by exact Hnow.
  cbn [Z.eqb]. rewrite Hset. do 2 eexists. split; [reflexivity|].
  split; reflexivity.
Qed.

Lemma nonce_accepted_after_a_day_witness :
  exists res' s2,
    login (auth_env 1700086402000) ada_logs_in ada_logged_in = (inr res', s2) /\
    AuthResult.id res' = 1 /\
    AuthResult.email res' = "ada@example.com".
Proof.
  refine (nonce_accepted_after_a_day (auth_env 1700000001000)
            (auth_env 1700086402000) ada_logs_in ada_registered
            (issued (auth_env 1700000001000)
               (Principal.mk 1 "ada@example.com" (Some "Ada")
                             1700000000000 1700000000000))
            ada_logged_in _ _ _ _ _ _).
  - vm_compute. reflexivity.
  - vm_compute. reflexivity.
  - reflexivity.
  - reflexivity.
  - reflexivity.
  - reflexivity.
Defined.

(** X18. Bad credentials are refused before the nonce is looked at, and in
    one way: an unknown email and a wrong password both make [login] throw
    "Invalid credentials", Redis is not consulted and the nonce is not
    used up. *)
Theorem invalid_credentials_refused a dto s :
  user_find_ok a = true ->
  (find (has_email (LoginDto.email dto)) (user s) = None
   \/ exists u, find (has_email (LoginDto.email dto)) (user s) = Some u /\
                bcrypt_compare a (LoginDto.password dto) (User.password u) = false) ->
  login a dto s = (inl (UnauthorizedException "Invalid credentials"), s).
Proof.
  intros Hfind H. rewrite login_eq, validateUser_eq, Hfind.
  destruct H as [->|(u & -> & ->)]; reflexivity.
Qed.

Lemma invalid_credentials_refused_witness :
  login (auth_env 1700000001000)
        (LoginDto.mk "ada@example.com" "guess" "nonce-2") ada_registered
  = (inl (UnauthorizedException "Invalid credentials"), ada_registered).
Proof.
  refine (invalid_credentials_refused (auth_env 1700000001000)
            (LoginDto.mk "ada@example.com" "guess" "nonce-2") ada_registered _ _).
  - reflexivity.
  - right. eexists. split; vm_compute; reflexivity.
Defined.

(** X19. A token is issued only to a user whose password was verified and
    whose nonce was unused: a successful [login] means that the first user
    with that email is in the table, that [bcrypt.compare] accepted the
    password against the stored hash and that the nonce was not recorded
    as used.  The answer carries that user's id, email and name, the signed
    payload is [{ sub: id, email, iat }]; the user table is unchanged and
    the nonce is recorded for 86,400 s. *)
Theorem login_issues_token_to_verified_user a dto s res s1 :
  login a dto s = (inr res, s1) ->
  exists u,
    u ∈ user s /\ User.email u = LoginDto.email dto /\
    bcrypt_compare a (LoginDto.password dto) (User.password u) = true /\
    fst (isTokenUsed a (LoginDto.nonce dto) s) = inr false /\
    AuthResult.id res = User.id u /\
    AuthResult.email res = User.email u /\
    AuthResult.name res = User.name u /\
    AuthResult.access_token res
    = jwt_sign a (JwtPayload.mk (User.id u) (User.email u) (date_now a / 1000)) /\
    user s1 = user s /\
    redis s1 !! used_token_key (LoginDto.nonce dto)
    = Some (pretty (User.id u), redis_now a + 86400 * 1000).
Proof.
  intros H.
  apply login_inr_inv in H as (u & _ & Hu & Hpw & Hex & Hfree & _ & -> & ->).
  exists u. apply find_some in Hu as [Hin He].
  apply bool_decide_eq_true in He.
  split; [now apply list_elem_of_In|]. split; [exact He|].
  split; [exact Hpw|]. split.
  { unfold isTokenUsed. now rewrite Hex, Hfree. }
  cbn. repeat split. apply lookup_insert_eq.
Qed.

Lemma login_issues_token_to_verified_user_witness :
  exists u,
    u ∈ user ada_registered /\ User.email u = LoginDto.email ada_logs_in /\
    bcrypt_compare (auth_env 1700000001000) (LoginDto.password ada_logs_in)
                   (User.password u) = true /\
    fst (isTokenUsed (auth_env 1700000001000) (LoginDto.nonce ada_logs_in)
                     ada_registered) = inr false /\
    AuthResult.id (issued (auth_env 1700000001000)
                     (Principal.mk 1 "ada@example.com" (Some "Ada")
                                   1700000000000 1700000000000)) = User.id u /\
    AuthResult.email (issued (auth_env 1700000001000)
                        (Principal.mk 1 "ada@example.com" (Some "Ada")
                                      1700000000000 1700000000000)) = User.email u /\
    AuthResult.name (issued (auth_env 1700000001000)
                       (Principal.mk 1 "ada@example.com" (Some "Ada")
                                     1700000000000 1700000000000)) = User.name u /\
    AuthResult.access_token
      (issued (auth_env 1700000001000)
         (Principal.mk 1 "ada@example.com" (Some "Ada")
                       1700000000000 1700000000000))
    = jwt_sign (auth_env 1700000001000)
        (JwtPayload.mk (User.id u) (User.email u)
                       (date_now (auth_env 1700000001000) / 1000)) /\
    user ada_logged_in = user ada_registered /\
    redis ada_logged_in !! used_token_key (LoginDto.nonce ada_logs_in)
    = Some (pretty (User.id u), redis_now (auth_env 1700000001000) + 86400 * 1000).
Proof.
  refine (login_issues_token_to_verified_user (auth_env 1700000001000)
            ada_logs_in ada_registered _ ada_logged_in _).
  vm_compute. reflexivity.
Defined.

(** ** [register] *)

(** X20. An email that is already registered is refused: [register] throws
    "User with this email already exists" and changes nothing. *)
Theorem register_refuses_known_email a dto s :
  user_find_ok a = true ->
  (exists u, u ∈ user s /\ User.email u = RegisterDto.email dto) ->
  register a dto s
  = (inl (ConflictException "User with this email already exists"), s).
Proof.
  intros Hfind (u & Hu & He). rewrite register_eq, Hfind.
  destruct (find _ _) eqn:E; [reflexivity|].
  exfalso. eapply find_email_None; eauto.
Qed.

Lemma register_refuses_known_email_witness :
  register (auth_env 1700000005000) ada_registers ada_registered
  = (inl (ConflictException "User with this email already exists"),
     ada_registered).
Proof.
  refine (register_refuses_known_email (auth_env 1700000005000) ada_registers
            ada_registered _ _).
  - reflexivity.
  - eexists. split; [vm_compute; apply list_elem_of_here|reflexivity].
Defined.

(** X21. A successful [register] adds exactly one user, whose email was
    not in the table, with the name of the request and, as password, what
    [bcrypt.hash] returned; Redis is not touched.  The answer carries the
    new user's id, email and name.  Emails that were pairwise different
    remain so. *)
Theorem register_adds_one_user a dto s res s1 :
  register a dto s = (inr res, s1) ->
  exists row,
    user s1 = user s ++ [row] /\
    (forall u, u ∈ user s -> User.email u <> RegisterDto.email dto) /\
    User.email row = RegisterDto.email dto /\
    User.name row = RegisterDto.name dto /\
    User.password row = bcrypt_hash a (RegisterDto.password dto) /\
    AuthResult.id res = User.id row /\
    AuthResult.email res = User.email row /\
    AuthResult.name res = User.name row /\
    redis s1 = redis s /\
    (NoDup (map User.email (user s)) -> NoDup (map User.email (user s1))).
Proof.
  rewrite register_eq.
  destruct (user_find_ok a); [|discriminate].
  destruct (find _ _) as [u|] eqn:E; [discriminate|].
  destruct (user_create_ok a); [|discriminate].
  intros [= <- <-]. eexists. split; [reflexivity|]. cbn.
  pose proof (proj1 (find_email_None _ _) E) as Hfresh.
  repeat split; [exact Hfresh|].
  intros Hnd. rewrite map_app. cbn [map]. apply NoDup_app.
  split; [exact Hnd|]. split; [|apply NoDup_singleton].
  intros e (u & -> & Hu)%list_elem_of_fmap Hin%list_elem_of_singleton.
  now apply Hfresh in Hu.
Qed.

Lemma register_adds_one_user_witness :
  exists row,
    user ada_registered = user no_users ++ [row] /\
    (forall u, u ∈ user no_users -> User.email u <> RegisterDto.email ada_registers) /\
    User.email row = RegisterDto.email ada_registers /\
    User.name row = RegisterDto.name ada_registers /\
    User.password row
    = bcrypt_hash (auth_env 1700000000000) (RegisterDto.password ada_registers) /\
    AuthResult.id (AuthResult.mk "jwt.ada@example.com" 1 "ada@example.com" (Some "Ada"))
    = User.id row /\
    AuthResult.email (AuthResult.mk "jwt.ada@example.com" 1 "ada@example.com" (Some "Ada"))
    = User.email row /\
    AuthResult.name (AuthResult.mk "jwt.ada@example.com" 1 "ada@example.com" (Some "Ada"))
    = User.name row /\
    redis ada_registered = redis no_users /\
    (NoDup (map User.email (user no_users)) ->
     NoDup (map User.email (user ada_registered))).
Proof.
  refine (register_adds_one_user (auth_env 1700000000000) ada_registers no_users
            (AuthResult.mk "jwt.ada@example.com" 1 "ada@example.com" (Some "Ada"))
            ada_registered _).
  vm_compute. reflexivity.
Defined.

(** X22. Who has registered can log in: after a successful [register], a
    [login] with the same email and password and an unused nonce succeeds
    and answers with the same id, email and name, provided that
    [bcrypt.compare] accepts the password against the hash that
    [bcrypt.hash] produced and that the database and Redis answer. *)
Theorem register_then_login a1 a2 reg nonce s res s1 :
  register a1 reg s = (inr res, s1) ->
  bcrypt_compare a2 (RegisterDto.password reg)
                 (bcrypt_hash a1 (RegisterDto.password reg)) = true ->
  user_find_ok a2 = true ->
  redis_setex_ok a2 = true ->
  fst (isTokenUsed a2 nonce s1) = inr false ->
  exists res' s2,
    login a2 (LoginDto.mk (RegisterDto.email reg) (RegisterDto.password reg) nonce) s1
    = (inr res', s2) /\
    AuthResult.id res' = AuthResult.id res /\
    AuthResult.email res' = AuthResult.email res /\
    AuthResult.name res' = AuthResult.name res.
Proof.
  intros H Hpw Hfind Hset Hfree.
  rewrite register_eq in H.
  destruct (user_find_ok a1); [|discriminate].
  destruct (find _ (user s)) as [u|] eqn:E; [discriminate|].
  destruct (user_create_ok a1); [|discriminate].
  injection H as <- <-.
  unfold isTokenUsed in Hfree. cbn [redis] in Hfree.
  destruct (redis_exists_ok a2) eqn:Hex; [|discriminate].
  cbn [fst] in Hfree. injection Hfree as Hfree.
  rewrite login_eq, validateUser_eq, Hfind.
  cbn [LoginDto.email LoginDto.password LoginDto.nonce user redis].
  rewrite (find_app_None _ _ _ E). cbn [find]. unfold has_email at 1.
  cbn [User.email].
  rewrite bool_decide_eq_true_2 by reflexivity.
  cbn [User.password]. rewrite Hpw. cbn [user redis]. rewrite Hex, Hfree, Hset.
  do 2 eexists. split; [reflexivity|]. cbn. repeat split.
Qed.

Lemma register_then_login_witness :
  exists res' s2,
    login (auth_env 1700000001000)
          (LoginDto.mk (RegisterDto.email ada_registers)
                       (RegisterDto.password ada_registers) "nonce-1")
          ada_registered
    = (inr res', s2) /\
    AuthResult.id res'
    = AuthResult.id (AuthResult.mk "jwt.ada@example.com" 1 "ada@example.com" (Some "Ada")) /\
    AuthResult.email res'
    = AuthResult.email (AuthResult.mk "jwt.ada@example.com" 1 "ada@example.com" (Some "Ada")) /\
    AuthResult.name res'
    = AuthResult.name (AuthResult.mk "jwt.ada@example.com" 1 "ada@example.com" (Some "Ada")).
Proof.
  refine (register_then_login (auth_env 1700000000000) (auth_env 1700000001000)
            ada_registers "nonce-1" no_users
            (AuthResult.mk "jwt.ada@example.com" 1 "ada@example.com" (Some "Ada"))
            ada_registered _ _ _ _ _).
  - vm_compute. reflexivity.
  - vm_compute. reflexivity.
  - reflexivity.
  - reflexivity.
  - vm_compute. reflexivity.
Defined.

(** * The conversion endpoint *)

(** X23. What the validation in front of the controller guarantees: after
    any sequence of requests to the conversion endpoint the transaction
    table has only grown, and every added row has an amount that is finite
    and not negative (0 included), two supported currencies, and the rate
    and converted amount that [convertCurrency] computes from two truthy
    rates.  A body that the pipe refuses changes nothing. *)
Theorem endpoint_records_valid_amounts ps : forall s,
  (exists added,
     transaction (post_all s ps) = transaction s ++ added /\
     Forall (fun row => isFinite (Transaction.amount row) = true /\
                        fle zero (Transaction.amount row) = true /\
                        well_formed row)
            added)
  /\
  (forall w userId dto,
     dto_valid dto = false -> postConvert w userId dto s = (Rejected, s)).
Proof.
  intros s. split; [|intros w userId dto H; unfold postConvert; now rewrite H].
  revert s. induction ps as [|p ps IH]; intros s.
  - exists []. cbn. rewrite app_nil_r. split; [reflexivity|constructor].
  - cbn [post_all foldl]. fold (post_all (snd (postConvert (post_env p)
      (post_user p) (post_body p) s)) ps).
    destruct (IH (snd (postConvert (post_env p) (post_user p) (post_body p) s)))
      as (added & Ha & Hw).
    rewrite Ha. unfold postConvert.
    destruct (dto_valid (post_body p)) eqn:Hv;
      [|exists added; split; [reflexivity|exact Hw]].
    apply andb_true_iff in Hv as [Hv Hamount].
    apply andb_true_iff in Hv as [_ Hfinite].
    pose proof (convert_appends (post_env p) (post_user p)
                  (ConvertCurrencyDto.fromCurrency (post_body p))
                  (ConvertCurrencyDto.toCurrency (post_body p))
                  (ConvertCurrencyDto.amount (post_body p)) s) as Hc.
    cbn zeta in Hc.
    destruct (convertCurrency _ _ _ _ _ s) as [[e|c] s']; cbn [snd] in *;
      destruct Hc as [->|(row & -> & _ & Hrow & Hrow_amount)].
    + exists added. split; [reflexivity|exact Hw].
    + exists (row :: added). rewrite <- app_assoc. split; [reflexivity|].
      constructor; [|exact Hw]. rewrite Hrow_amount. auto.
    + exists added. split; [reflexivity|exact Hw].
    + exists (row :: added). rewrite <- app_assoc. split; [reflexivity|].
      constructor; [|exact Hw]. rewrite Hrow_amount. auto.
Qed.

(** A negative amount is refused, an amount of 0 is served and recorded. *)
Example endpoint_boundary :
  fst (postConvert env_online 7 (ConvertCurrencyDto.mk "USD" "EUR" (q (-100) 1))
                   empty_state) = Rejected
  /\ map Transaction.id
         (transaction (snd (postConvert env_online 7
                              (ConvertCurrencyDto.mk "USD" "EUR" (q 0 1))
                              empty_state))) = [1].
Proof. split; vm_compute; reflexivity. Qed.
